(** * LocalizacionMascota: the telemetry link of the pet tracker

    A shallow embedding of the firmware's telemetry core:
    - the 13-byte wire codec ([NodoMascota/src/gps_handler.cpp],
      [NodoUsuario/src/gps_handler.cpp]);
    - the asynchronous transmit session ([NodoMascota/src/lora_handler.cpp]);
    - the periodic send scheduler ([NodoMascota/src/main.cpp], [loop]);
    - the receive session and its last-known-good cache
      ([Software/NodoUsuario/src/lora_handler.cpp]);
    - around that core, the start-up of the radio on both nodes, the
      control loop, the position page and the credentials form of the user
      node ([NodoUsuario/src/main.cpp], [NodoUsuario/src/wifi_manager.cpp])
      and its display ([Software/NodoUsuario/src/lcd_utils.cpp]).

    Conventions.  [uint8_t] is [Byte.byte]; wider machine integers are [Z]
    with the wrap-around written out; [double] is the kernel's binary64
    type ([PrimFloat.float]), whose operations are the IEEE 754 ones the
    target computes, and the exact value of a double is a rational; the
    single-precision signal metrics, which the firmware only stores and
    hands out, are carried in the same type; a possibly null pointer to a
    buffer is an [option (list byte)].  The target is a 32-bit
    little-endian core.  The radio driver (RadioLib), the NMEA parser
    (TinyGPS++) and [lround] are outside the repository: a call to the
    driver is recorded as an event and what it answers is an input of the
    step that calls it, the parser is the record of what its getters
    return, and [lround] follows ISO C.  Text is a list of characters, and
    the operations of the Arduino core on it ([String], [Stream], [Print])
    follow the core's sources; the file system is the content of the one
    file the firmware writes and reads back. *)

From Stdlib Require Import ZArith QArith Qabs Qround Qpower List Bool Lia Lqa Floats.
From Stdlib Require Import Strings.Byte.
From Stdlib Require Strings.String Strings.Ascii.
Import Ascii.AsciiSyntax String.StringSyntax.
Import ListNotations.

#[local] Open Scope Z_scope.
Delimit Scope char_scope with char.
Delimit Scope string_scope with string.

(** ** Machine integers *)

Module Int.

(** Conversions to the fixed-width types, as the target (a 32-bit
    little-endian ARM core) performs them: reduction modulo [2^w], read
    in two's complement for the signed types. *)
Definition to_uint8 (x : Z) : Z := x mod 256.
Definition to_uint32 (x : Z) : Z := x mod 2 ^ 32.
Definition to_int16 (x : Z) : Z := (x + 2 ^ 15) mod 2 ^ 16 - 2 ^ 15.
Definition to_int32 (x : Z) : Z := (x + 2 ^ 31) mod 2 ^ 32 - 2 ^ 31.

Definition in_int32 (x : Z) : Prop := - 2 ^ 31 <= x < 2 ^ 31.

End Int.

(** ** Bytes and little-endian words *)

Module Bytes.

Definition byte_to_Z (b : byte) : Z := Z.of_N (Byte.to_N b).

(** The low eight bits of [x], as a byte. *)
Definition byte_of_Z (x : Z) : byte :=
  match Byte.of_N (Z.to_N (x mod 256)) with
  | Some b => b
  | None => x00
  end.

(** [in[i]]: the byte at index [i] of the object behind a pointer.
    Reading past the object is undefined in C; the model reads zero. *)
Definition get (buf : list byte) (i : nat) : byte := nth i buf x00.

(** [memcpy(&dst, &buf[off], 4)] into a 32-bit integer. *)
Definition load_u32 (buf : list byte) (off : nat) : Z :=
  byte_to_Z (get buf off)
  + 2 ^ 8 * byte_to_Z (get buf (off + 1))
  + 2 ^ 16 * byte_to_Z (get buf (off + 2))
  + 2 ^ 24 * byte_to_Z (get buf (off + 3)).

Definition load_i32 (buf : list byte) (off : nat) : Z :=
  Int.to_int32 (load_u32 buf off).

(** The four bytes of the object representation of a 32-bit integer. *)
Definition le32 (x : Z) : list byte :=
  [ byte_of_Z x; byte_of_Z (x / 2 ^ 8);
    byte_of_Z (x / 2 ^ 16); byte_of_Z (x / 2 ^ 24) ].

(** [memcpy(&buf[off], src, length src)].  The writes stay inside the
    buffer whenever [off + length src <= length buf]. *)
Definition store (buf : list byte) (off : nat) (src : list byte) : list byte :=
  firstn off buf ++ src ++ skipn (off + length src) buf.

End Bytes.

(** ** Binary64 numbers *)

Module Double.

(** [2^e] as a rational, for an exponent of either sign. *)
Definition bpow (e : Z) : Q := (2 ^ e)%Q.

(** The exact value of a finite binary64 number, [+-m * 2^e], as a
    rational (0 for what is not a number). *)
Definition SF2Q (x : spec_float) : Q :=
  match x with
  | S754_finite s m e => (inject_Z (cond_Zopp s (Z.pos m)) * bpow e)%Q
  | _ => 0%Q
  end.

Definition value (x : float) : Q := SF2Q (Prim2SF x).

Definition is_finite (x : float) : bool :=
  match Prim2SF x with
  | S754_finite _ _ _ | S754_zero _ => true
  | _ => false
  end.

(** The integer nearest to [m * 2^e] for [m > 0], a tie going up. *)
Definition round_half_up_pos (m : positive) (e : Z) : Z :=
  match e with
  | Z.neg p => (Z.pos m + 2 ^ (Z.pos p - 1)) / 2 ^ Z.pos p
  | _ => Z.pos m * 2 ^ e
  end.

(** C's [lround] on the sign, mantissa and exponent of its argument: the
    magnitude goes to the nearest integer, a tie going up, and the sign is
    put back.  For infinities and NaN the C result is unspecified; the
    model answers 0. *)
Definition SFlround (x : spec_float) : Z :=
  match x with
  | S754_finite s m e => cond_Zopp s (round_half_up_pos m e)
  | _ => 0
  end.

(** [lround(x)] as a mathematical integer. *)
Definition lround_Z (x : float) : Z := SFlround (Prim2SF x).

(** [(int32_t)lround(x)].  [long] has 32 bits on the target; when the
    rounded value does not fit, C leaves the result unspecified and the
    model wraps it. *)
Definition lround (x : float) : Z := Int.to_int32 (lround_Z x).

(** [(double)n] for a 32-bit integer [n]. *)
Definition of_int32 (n : Z) : float :=
  if n <? 0 then PrimFloat.opp (PrimFloat.of_uint63 (Uint63.of_Z (- n)))
  else PrimFloat.of_uint63 (Uint63.of_Z n).

End Double.

(** ** The wire codec: [gps_handler.h], [gps_handler.cpp] *)

Record GpsInfo := mkGpsInfo {
  lat : float;      (* double lat *)
  lon : float;      (* double lon *)
  hhmmss : Z;       (* uint32_t hhmmss *)
  valid : bool
}.

(** [size_t GPS_buildBinaryPayload(const GpsInfo& info, uint8_t* out, size_t outSize)]:
    the returned length and the buffer behind [out] after the call. *)
Definition GPS_buildBinaryPayload (info : GpsInfo) (out : option (list byte))
    (outSize : Z) : Z * option (list byte) :=
  match out with
  | None => (0, out)
  | Some buf =>
      if (outSize <? 13) || negb (valid info) then (0, out)
      else
        let buf := Bytes.store buf 0 [Bytes.byte_of_Z 1] in
        let buf := Bytes.store buf 1 (Bytes.le32 (hhmmss info)) in
        let latFixed := Double.lround (lat info * 100000)%float in
        let lonFixed := Double.lround (lon info * 100000)%float in
        let buf := Bytes.store buf 5 (Bytes.le32 latFixed) in
        let buf := Bytes.store buf 9 (Bytes.le32 lonFixed) in
        (13, Some buf)
  end.

(** [bool GPS_parsePayload(const uint8_t* in, size_t len, GpsInfo& out)]:
    the returned flag and [out] after the call. *)
Definition GPS_parsePayload (inp : option (list byte)) (len : Z)
    (out : GpsInfo) : bool * GpsInfo :=
  match inp with
  | None => (false, out)
  | Some buf =>
      if negb (len =? 13) then (false, out)
      else if negb (Bytes.byte_to_Z (Bytes.get buf 0) =? 1) then (false, out)
      else
        let hhmmss := Bytes.load_u32 buf 1 in
        let latFixed := Bytes.load_i32 buf 5 in
        let lonFixed := Bytes.load_i32 buf 9 in
        (true,
         {| hhmmss := hhmmss;
            lat := (Double.of_int32 latFixed / 100000)%float;
            lon := (Double.of_int32 lonFixed / 100000)%float;
            valid := true |})
  end.

(** [GpsInfo info {0,0,0,false}], also what [GpsInfo gi{}] holds. *)
Definition GpsInfo_zero : GpsInfo :=
  {| lat := 0%float; lon := 0%float; hhmmss := 0; valid := false |}.

(** ** The parser's view of the GNSS receiver: TinyGPS++ *)

(** What [gps.location] and [gps.time] answer once [GPS_update] has fed
    the parser; the getters return [uint8_t] fields and doubles. *)
Record TinyGPS := mkTinyGPS {
  location_isValid : bool;
  time_isValid : bool;
  location_lat : float;
  location_lng : float;
  time_hour : Z;
  time_minute : Z;
  time_second : Z
}.

(** [bool GPS_hasFix()] *)
Definition GPS_hasFix (gps : TinyGPS) : bool :=
  location_isValid gps && time_isValid gps.

(** [GpsInfo GPS_getInfo()] *)
Definition GPS_getInfo (gps : TinyGPS) : GpsInfo :=
  if location_isValid gps && time_isValid gps then
    {| lat := location_lat gps;
       lon := location_lng gps;
       hhmmss := Int.to_uint32
                   (time_hour gps * 10000 + time_minute gps * 100 + time_second gps);
       valid := true |}
  else GpsInfo_zero.

(** ** The radio driver: RadioLib's SX1262 *)

(** [RADIOLIB_ERR_NONE], the driver's success status. *)
Definition RADIOLIB_ERR_NONE : Z := 0.

(** The calls the firmware makes on the transceiver, in program order. *)
Inductive RadioCall :=
| StartTransmit (payload : list byte) (len : Z)
| FinishTransmit
| GetPacketLength
| ReadData (len : Z)
| GetRSSI
| GetSNR
| StartReceive.

(** ** The pet node: transmit session and scheduler *)

Section PetNode.

(** [RADIOLIB_ERR_INVALID_PAYLOAD] is named by the firmware and defined by
    the driver's headers; its value is left open. *)
Variable RADIOLIB_ERR_INVALID_PAYLOAD : Z.

(** *** [NodoMascota/src/lora_handler.cpp] *)

Record TxState := mkTxState {
  transmittedFlag : bool;      (* static volatile bool transmittedFlag *)
  transmissionState : Z        (* static int transmissionState *)
}.

(** [static void onPacketSentISR()] *)
Definition onPacketSentISR (st : TxState) : TxState :=
  {| transmittedFlag := true; transmissionState := transmissionState st |}.

(** [bool LORA_startTx(const uint8_t* payload, size_t len)].  [reply] is
    what [radio.startTransmit] returns if it is called. *)
Definition LORA_startTx (payload : option (list byte)) (len : Z) (reply : Z)
    (st : TxState) : bool * TxState * list RadioCall :=
  match payload with
  | None =>
      (false,
       {| transmittedFlag := transmittedFlag st;
          transmissionState := RADIOLIB_ERR_INVALID_PAYLOAD |}, [])
  | Some buf =>
      if (len =? 0) || (256 <? len) then
        (false,
         {| transmittedFlag := transmittedFlag st;
            transmissionState := RADIOLIB_ERR_INVALID_PAYLOAD |}, [])
      else
        (reply =? RADIOLIB_ERR_NONE,
         {| transmittedFlag := false; transmissionState := reply |},
         [StartTransmit buf len])
  end.

(** [bool LORA_isTxDone()] *)
Definition LORA_isTxDone (st : TxState) : bool := transmittedFlag st.

(** [int LORA_lastState()] *)
Definition LORA_lastState (st : TxState) : Z := transmissionState st.

(** [void LORA_finishTx()] *)
Definition LORA_finishTx (st : TxState) : TxState * list RadioCall :=
  ({| transmittedFlag := true; transmissionState := transmissionState st |},
   [FinishTransmit]).

(** *** [NodoMascota/src/main.cpp] *)

Definition PERIOD : Z := 10.

Record PetState := mkPetState {
  payload : list byte;         (* static uint8_t payload[13] *)
  lastSentHHMMSS : Z;          (* static uint32_t lastSentHHMMSS *)
  txInProgress : bool;         (* static bool txInProgress *)
  tx : TxState                 (* the statics of lora_handler.cpp *)
}.

(** The statics as initialised at start-up. *)
Definition PetState_init : PetState :=
  {| payload := repeat x00 13;
     lastSentHHMMSS := 0;
     txInProgress := false;
     tx := {| transmittedFlag := false; transmissionState := RADIOLIB_ERR_NONE |} |}.

(** Step 2 of [loop]: close the previous transmission once it is done. *)
Definition loop_close (s : PetState) : PetState * list RadioCall :=
  if txInProgress s && LORA_isTxDone (tx s) then
    let '(t, ev) := LORA_finishTx (tx s) in
    ({| payload := payload s; lastSentHHMMSS := lastSentHHMMSS s;
        txInProgress := false; tx := t |}, ev)
  else (s, []).

(** Step 3 of [loop]: the scheduling decision and the send.  The serial
    output (hex dump, the decode check) changes no state and is left out. *)
Definition loop_send (gps : TinyGPS) (reply : Z) (s : PetState)
    : PetState * list RadioCall :=
  if GPS_hasFix gps then
    let info := GPS_getInfo gps in
    if valid info && negb (txInProgress s) then
      let nuevoSegundo := negb (hhmmss info =? lastSentHHMMSS s) in
      let ss := Int.to_uint8 (hhmmss info mod 100) in
      if nuevoSegundo && (ss mod PERIOD =? 0) then
        let '(len, out) := GPS_buildBinaryPayload info (Some (payload s)) 13 in
        let buf := match out with Some b => b | None => payload s end in
        let s := {| payload := buf; lastSentHHMMSS := lastSentHHMMSS s;
                    txInProgress := txInProgress s; tx := tx s |} in
        if len =? 13 then
          let '(ok, t, ev) := LORA_startTx (Some buf) len reply (tx s) in
          if ok then
            ({| payload := buf; lastSentHHMMSS := hhmmss info;
                txInProgress := true; tx := t |}, ev)
          else
            ({| payload := buf; lastSentHHMMSS := lastSentHHMMSS s;
                txInProgress := txInProgress s; tx := t |}, ev)
        else (s, [])
      else (s, [])
    else (s, [])
  else (s, []).

(** [void loop()]: one iteration of the control loop.  [gps] is the parser
    after [GPS_update]; [reply] is the driver's answer to
    [radio.startTransmit] should this iteration call it. *)
Definition loop (gps : TinyGPS) (reply : Z) (s : PetState)
    : PetState * list RadioCall :=
  let '(s1, ev1) := loop_close s in
  let '(s2, ev2) := loop_send gps reply s1 in
  (s2, ev1 ++ ev2).

(** The completion interrupt, seen from the node's state. *)
Definition pet_isr (s : PetState) : PetState :=
  {| payload := payload s; lastSentHHMMSS := lastSentHHMMSS s;
     txInProgress := txInProgress s; tx := onPacketSentISR (tx s) |}.

(** Whether a list of driver calls starts a transmission. *)
Definition is_start (c : RadioCall) : bool :=
  match c with StartTransmit _ _ => true | _ => false end.

Definition attempts (ev : list RadioCall) : nat :=
  length (filter is_start ev).

End PetNode.

(** ** The user node: receive session and sample cache
    ([Software/NodoUsuario/src/lora_handler.cpp]) *)

Definition LORA_MAX_READ : Z := 64.

Record RxState := mkRxState {
  s_rxFlag : bool;       (* static volatile bool s_rxFlag *)
  s_lastGps : GpsInfo;   (* static GpsInfo s_lastGps *)
  s_lastRssi : float;    (* static float s_lastRssi *)
  s_lastSnr : float      (* static float s_lastSnr *)
}.

Definition RxState_init : RxState :=
  {| s_rxFlag := false; s_lastGps := GpsInfo_zero;
     s_lastRssi := 0%float; s_lastSnr := 0%float |}.

(** What the driver answers during one [LORA_rxTick]: the packet length
    ([size_t]), the status of [readData] and the bytes it leaves in the
    buffer, and the signal metrics. *)
Record RxReply := mkRxReply {
  packetLength : Z;
  readStatus : Z;
  readBuf : list byte;
  rssi : float;
  snr : float
}.

(** [static void onPacketISR()] *)
Definition onPacketISR (st : RxState) : RxState :=
  {| s_rxFlag := true; s_lastGps := s_lastGps st;
     s_lastRssi := s_lastRssi st; s_lastSnr := s_lastSnr st |}.

(** The length [LORA_rxTick] reads, from the length the driver reports:
    [int16_t len = radio.getPacketLength()] and the two clamps. *)
Definition rx_read_len (reported : Z) : Z :=
  let len := Int.to_int16 reported in
  let len := if len <=? 0 then LORA_MAX_READ else len in
  if LORA_MAX_READ <? len then LORA_MAX_READ else len.

(** [void LORA_rxTick()] *)
Definition LORA_rxTick (r : RxReply) (st : RxState) : RxState * list RadioCall :=
  if negb (s_rxFlag st) then (st, [])
  else
    let len := rx_read_len (packetLength r) in
    let buf := readBuf r in
    let st1 := {| s_rxFlag := false; s_lastGps := s_lastGps st;
                  s_lastRssi := s_lastRssi st; s_lastSnr := s_lastSnr st |} in
    if readStatus r =? RADIOLIB_ERR_NONE then
      let st2 := {| s_rxFlag := false; s_lastGps := s_lastGps st;
                    s_lastRssi := rssi r; s_lastSnr := snr r |} in
      let st3 :=
        if (len =? 13) && (Bytes.byte_to_Z (Bytes.get buf 0) =? 1) then
          let '(ok, gi) := GPS_parsePayload (Some buf) 13 GpsInfo_zero in
          if ok && valid gi then
            {| s_rxFlag := false; s_lastGps := gi;
               s_lastRssi := rssi r; s_lastSnr := snr r |}
          else st2
        else st2 in
      (st3, [GetPacketLength; ReadData len; GetRSSI; GetSNR; StartReceive])
    else
      (st1, [GetPacketLength; ReadData len; StartReceive]).

(** [bool LORA_lastValidGPS(GpsInfo& out, float* rssi_dBm, float* snr_dB)],
    called with both pointers set: the sample and the metrics it hands out,
    or nothing when it returns [false]. *)
Definition LORA_lastValidGPS (st : RxState) : option (GpsInfo * float * float) :=
  if negb (valid (s_lastGps st)) then None
  else Some (s_lastGps st, s_lastRssi st, s_lastSnr st).

(** What happens to the receive session: the interrupt fires, or the
    control loop runs [LORA_rxTick] and the driver answers [r]. *)
Inductive RxEvent :=
| RxIsr
| RxTick (r : RxReply).

Definition rx_step (st : RxState) (e : RxEvent) : RxState :=
  match e with
  | RxIsr => onPacketISR st
  | RxTick r => fst (LORA_rxTick r st)
  end.

(** The session after a sequence of events. *)
Definition rx_run (evs : list RxEvent) (st : RxState) : RxState :=
  fold_left rx_step evs st.

(** The driver calls that read a received frame or its metrics. *)
Definition is_read (c : RadioCall) : bool :=
  match c with
  | GetPacketLength | ReadData _ | GetRSSI | GetSNR => true
  | _ => false
  end.

(** ** Vocabulary of the properties *)

(** Round to the nearest integer, halfway cases away from zero: the
    rounding the specification asks of the encoder, written on rationals
    independently of [Double.lround]. *)
Definition round_half_away (q : Q) : Z :=
  if Qle_bool 0 q then Qfloor (q + (1 # 2))%Q else - Qfloor (- q + (1 # 2))%Q.

(** The tolerance of the round trip, in degrees: half a unit of the fifth
    decimal place, and [10^-12] for the rounding of the binary64 product
    and quotient. *)
Definition tolerance : Q := ((5 # 1000000) + (1 # 1000000000000))%Q.

(** The 13 bytes of a frame, from its three fields. *)
Definition frame (h latFixed lonFixed : Z) : list byte :=
  [x01] ++ Bytes.le32 h ++ Bytes.le32 latFixed ++ Bytes.le32 lonFixed.

(** A frame the tick does not decode: after the clamps its length is not
    13, or its first byte is not 1, or the driver failed to read it. *)
Definition malformed (r : RxReply) : Prop :=
  rx_read_len (packetLength r) <> 13
  \/ Bytes.get (readBuf r) 0 <> x01
  \/ readStatus r <> RADIOLIB_ERR_NONE.

(** A transmission is in flight: started by the scheduler and not yet
    reported complete. *)
Definition in_flight (s : PetState) : Prop :=
  txInProgress s = true /\ transmittedFlag (tx s) = false.

(** The scheduler's decision, as [loop_send] takes it. *)
Definition due (t : Z) (s : PetState) : bool :=
  negb (t =? lastSentHHMMSS s) && ((t mod 100) mod PERIOD =? 0).

(** ** Sample data *)

(** The sample of the specification's scenario: 40.4168 N, 3.7038 W at
    21:15:07 (the two doubles nearest to the decimal coordinates). *)
Definition madrid : GpsInfo :=
  {| lat := 0x1.43559b3d07c85p+5%float;
     lon := (-0x1.da161e4f765fep+1)%float;
     hhmmss := 211507;
     valid := true |}.

(** The frame of that sample: marker 01, then 211507, 4041680 and -370380. *)
Definition madrid_frame : list byte :=
  [x01; x33; x3a; x03; x00; xd0; xab; x3d; x00; x34; x59; xfa; xff].

(** A fix whose latitude, the double nearest to 40.416815, scales to the
    tie 4041681.5; its longitude is that of the scenario. *)
Definition tie_fix : GpsInfo :=
  {| lat := 0x1.4355a31a4bdbap+5%float;
     lon := (-0x1.da161e4f765fep+1)%float;
     hhmmss := 211507;
     valid := true |}.

(** A fix 0.000005 degrees north and west of the origin: both products
    by 100000.0 are exact ties, 0.5 and -0.5. *)
Definition half_unit_fix : GpsInfo :=
  {| lat := 0x1.4f8b588e368f1p-18%float;
     lon := (-0x1.4f8b588e368f1p-18)%float;
     hhmmss := 0;
     valid := true |}.

(** A cache holding the scenario's sample with -80 dBm and 7 dB. *)
Definition rx_cached : RxState :=
  {| s_rxFlag := false; s_lastGps := madrid;
     s_lastRssi := (-80)%float; s_lastSnr := 7%float |}.

(** A 5-byte frame read without error at -100 dBm and -3 dB. *)
Definition rx_short_frame : RxReply :=
  {| packetLength := 5; readStatus := RADIOLIB_ERR_NONE;
     readBuf := [x01; x02; x03; x04; x05];
     rssi := (-100)%float; snr := (-3)%float |}.

(** The same cache with the frame-ready flag raised. *)
Definition rx_pending : RxState := onPacketISR rx_cached.

(** A well-formed frame whose fields are out of range: time-of-day 999999,
    latitude 91 degrees, longitude 181 degrees. *)
Definition wild_frame : list byte := frame 999999 9100000 18100000.

Definition wild_reply (rssi snr : float) : RxReply :=
  {| packetLength := 13; readStatus := RADIOLIB_ERR_NONE;
     readBuf := wild_frame; rssi := rssi; snr := snr |}.

(** The pet node with a transmission in flight, started at 12:00:00. *)
Definition pet_in_flight : PetState :=
  {| payload := madrid_frame; lastSentHHMMSS := 120000; txInProgress := true;
     tx := {| transmittedFlag := false; transmissionState := RADIOLIB_ERR_NONE |} |}.

(** The parser holding the scenario's position at [h:m:s]. *)
Definition gps_at (h m s : Z) : TinyGPS :=
  {| location_isValid := true; time_isValid := true;
     location_lat := lat madrid; location_lng := lon madrid;
     time_hour := h; time_minute := m; time_second := s |}.

(** ** Auxiliary definitions for the analysis of the binary64 operations *)

(** The exponent of the last place of a binary64 number of magnitude
    below [2^e]. *)
Definition fexp64 (e : Z) : Z := fexp prec emax e.

(** The double 100000.0: [6871947673600000 * 2^-36]. *)
Definition SF_1e5 : spec_float := S754_finite false 6871947673600000 (-36).

Definition sgn (s : bool) (q : Q) : Q := if s then (- q)%Q else q.

(** The double that [(double)n] is, for a 32-bit [n]. *)
Definition SF_of_Z (n : Z) : spec_float :=
  match n with
  | 0 => S754_zero false
  | Z.pos a =>
      let k := Z.to_pos (53 - Z.pos (digits2_pos a)) in
      S754_finite false (Pos.iter xO a k) (Z.neg k)
  | Z.neg a =>
      let k := Z.to_pos (53 - Z.pos (digits2_pos a)) in
      S754_finite true (Pos.iter xO a k) (Z.neg k)
  end.

(** ** The pet node from start-up *)

(** The calls of the start-up code on the transceiver.  [RadioBegin]
    carries the arguments of [radio.begin]: frequency (MHz), bandwidth
    (kHz), spreading factor, coding rate, sync word, power (dBm), preamble
    length, TCXO voltage and the regulator flag. *)
Inductive InitCall :=
| RadioBegin (freq bw : float) (sf cr syncWord power preambleLength : Z)
    (tcxoVoltage : float) (useRegulatorLDO : bool)
| SetRfSwitchPins (rxEn txEn : Z)
| SetPacketSentAction
| SetPacketReceivedAction.

(** [bool LORA_begin(float freqMHz)] of the pet node
    ([NodoMascota/src/lora_handler.cpp]); [state] is what [radio.begin]
    returns.  The set-up of the SPI bus and of the chip-select pin, which
    precedes the first call on the transceiver, is left out. *)
Definition LORA_begin (freqMHz : float) (state : Z) (st : TxState)
    : bool * TxState * list InitCall :=
  let call := RadioBegin freqMHz 125 9 7 18 14 8 0 false in
  if negb (state =? RADIOLIB_ERR_NONE) then
    (false,
     {| transmittedFlag := transmittedFlag st; transmissionState := state |},
     [call])
  else
    (true,
     {| transmittedFlag := false; transmissionState := RADIOLIB_ERR_NONE |},
     [call; SetRfSwitchPins 26 27; SetPacketSentAction]).

(** [void setup()] of the pet node ([NodoMascota/src/main.cpp]): the
    statics when [loop] first runs.  [GPS_begin] opens the serial port of
    the receiver and returns [true]; it and the serial log change none of
    them.  A failed [LORA_begin] is reported and the node carries on. *)
Definition setup (state : Z) : PetState * list InitCall :=
  let '(_, t, ev) := LORA_begin 868 state (tx PetState_init) in
  ({| payload := payload PetState_init;
      lastSentHHMMSS := lastSentHHMMSS PetState_init;
      txInProgress := txInProgress PetState_init;
      tx := t |}, ev).

(** Whether a driver call closes a transmission. *)
Definition is_finish (c : RadioCall) : bool :=
  match c with FinishTransmit => true | _ => false end.

Definition finishes (ev : list RadioCall) : nat :=
  length (filter is_finish ev).

Section PetNodeRuns.

Variable RADIOLIB_ERR_INVALID_PAYLOAD : Z.

(** What happens to the pet node after [setup]: the completion interrupt
    fires, or [loop] runs once, the parser holding [gps] and the driver
    answering [reply] if asked to transmit. *)
Inductive PetEvent :=
| PetIsr
| PetLoop (gps : TinyGPS) (reply : Z).

(** One event, on the node's state and the driver calls made so far. *)
Definition pet_step (st : PetState * list RadioCall) (e : PetEvent)
    : PetState * list RadioCall :=
  match e with
  | PetIsr => (pet_isr (fst st), snd st)
  | PetLoop gps reply =>
      let '(s, ev) := loop RADIOLIB_ERR_INVALID_PAYLOAD gps reply (fst st) in
      (s, snd st ++ ev)
  end.

(** The node and the driver calls it has made after a sequence of events. *)
Definition pet_run (evs : list PetEvent) (s : PetState)
    : PetState * list RadioCall :=
  fold_left pet_step evs (s, []).

(** The driver accepts the send of this event, if it is asked to. *)
Definition accepts (e : PetEvent) : Prop :=
  match e with
  | PetIsr => True
  | PetLoop _ reply => reply = RADIOLIB_ERR_NONE
  end.

(** The time-of-day this event shows the scheduler, if any. *)
Definition shows (e : PetEvent) : option Z :=
  match e with
  | PetIsr => None
  | PetLoop gps _ =>
      if GPS_hasFix gps then Some (hhmmss (GPS_getInfo gps)) else None
  end.

End PetNodeRuns.

(** ** Text: Arduino's [String], [Stream] and [Print] *)

(** A [String] is the list of its characters.  The operations below are
    those of the Arduino core that the firmware uses; they follow the
    core's [WString.cpp], [Stream.cpp] and [Print.cpp]. *)
Definition text : Type := list Ascii.ascii.

Definition str (s : String.string) : text := String.list_ascii_of_string s.

Arguments str s%_string.

(** C's [isspace] in the default locale: space, and the controls from
    horizontal tab (9) to carriage return (13). *)
Definition isspace (c : Ascii.ascii) : bool :=
  let n := Ascii.nat_of_ascii c in
  (n =? 32)%nat || ((9 <=? n)%nat && (n <=? 13)%nat).

Fixpoint trim_left (s : text) : text :=
  match s with
  | c :: s' => if isspace c then trim_left s' else s
  | [] => []
  end.

(** [String::trim()]: the white space at both ends is dropped. *)
Definition String_trim (s : text) : text :=
  rev (trim_left (rev (trim_left s))).

(** [String::substring(left, right)]: the characters from index [left]
    up to, not including, [right]; the indices are swapped when
    [left > right], and what lies past the end is not there. *)
Definition String_substring (s : text) (left right : nat) : text :=
  let '(l, r) := if (right <? left)%nat then (right, left) else (left, right) in
  firstn (r - l) (skipn l s).

(** [Stream::readStringUntil(terminator)] on what is left to read of a
    file: the characters before the first terminator, which is consumed,
    or all of them when there is none; and what is then left to read. *)
Fixpoint Stream_readStringUntil (terminator : Ascii.ascii) (s : text)
    : text * text :=
  match s with
  | [] => ([], [])
  | c :: s' =>
      if Ascii.eqb c terminator then ([], s')
      else let '(line, rest) := Stream_readStringUntil terminator s' in
           (c :: line, rest)
  end.

(** [Print::println(s)]: the text, a carriage return and a line feed. *)
Definition Print_println (s : text) : text :=
  s ++ ["013"%char; "010"%char].

(** ** The display: [lcd_utils.cpp] *)

Inductive LcdCall :=
| LcdClear
| LcdSetCursor (col row : Z)
| LcdPrint (s : text).

Definition LCD_COLUMNS : nat := 16.

(** [void showLCDMessage(const String &message)] *)
Definition showLCDMessage (message : text) : list LcdCall :=
  [LcdClear; LcdSetCursor 0 0;
   LcdPrint (String_substring message 0 LCD_COLUMNS)]
  ++ (if (LCD_COLUMNS <? length message)%nat
      then [LcdSetCursor 0 1;
            LcdPrint (String_substring message LCD_COLUMNS (LCD_COLUMNS * 2))]
      else []).

(** ** The user node: portal and control loop *)

Module NodoUsuario.

(** *** [Software/NodoUsuario/src/lora_handler.cpp] *)

(** [bool LORA_begin(float freqMHz)]; [st] is what [radio.begin] returns. *)
Definition LORA_begin (freqMHz : float) (st : Z) : bool * list InitCall :=
  let call := RadioBegin freqMHz 125 9 7 18 14 8 0 false in
  if negb (st =? RADIOLIB_ERR_NONE) then (false, [call])
  else (true, [call; SetRfSwitchPins 26 27]).

(** [bool LORA_startRx()]; [reply] is what [radio.startReceive] returns. *)
Definition LORA_startRx (reply : Z) : bool * list (InitCall + RadioCall) :=
  (reply =? RADIOLIB_ERR_NONE, [inl SetPacketReceivedAction; inr StartReceive]).

(** What [setup] does on the radio ([NodoUsuario/src/main.cpp]): it
    returns at once when the file system does not mount ([fs_ok] is what
    [LittleFS.begin] answers), and otherwise comes to [LORA_begin(868.0)]
    and [LORA_startRx()], whose results it does not look at.  The rest of
    [setup] (display, WiFi, the routes of the server) is left out. *)
Definition setup (fs_ok : bool) (st reply : Z) : list (InitCall + RadioCall) :=
  if negb fs_ok then []
  else map inl (snd (LORA_begin 868 st)) ++ snd (LORA_startRx reply).

(** *** [NodoUsuario/src/wifi_manager.cpp] *)

(** The file system holds one file of interest, [/wifi.config]; [None]
    when it does not exist.  Opening it may fail, which is an input of
    the function that opens it and leaves the file as it was; what is
    written to it is what it then holds. *)

(** [bool saveWiFiConf(const String &ssid, const String &pwd)]: the
    returned flag and the file after the call. *)
Definition saveWiFiConf (open_ok : bool) (ssid pwd : text)
    (config : option text) : bool * option text :=
  if negb open_ok then (false, config)
  else (true, Some (Print_println ssid ++ Print_println pwd)).

(** [bool loadWiFiConf(String &ssid, String &pwd)]: the returned flag
    and the two strings after the call. *)
Definition loadWiFiConf (config : option text) (open_ok : bool)
    (ssid pwd : text) : bool * text * text :=
  match config with
  | None => (false, ssid, pwd)
  | Some content =>
      if negb open_ok then (false, ssid, pwd)
      else
        let '(line1, rest) := Stream_readStringUntil "010"%char content in
        let ssid := String_trim line1 in
        let '(line2, _) := Stream_readStringUntil "010"%char rest in
        let pwd := String_trim line2 in
        if (length ssid =? 0)%nat then (false, ssid, pwd)
        else (true, ssid, pwd)
  end.

(** What a handler does on the web server and the display. *)
Inductive PortalCall :=
| SendHeader (name value : text)
| Send (code : Z) (contentType content : text)
| Lcd (c : LcdCall).

(** The statics of the user node: the receive session, [lastPrint] of
    [loop], the deferred reset of [wifi_manager.h], and the configuration
    file. *)
Record UserState := mkUserState {
  rx : RxState;
  lastPrint : Z;               (* static uint32_t lastPrint *)
  pendingReset : bool;
  pendingResetTime : Z;        (* unsigned long pendingResetTime *)
  config : option text         (* /wifi.config *)
}.

(** [void handleFormSubmit()].  [ssidArg] and [passwordArg] are the
    arguments ["ssid"] and ["password"] of the request, [None] when
    [server.hasArg] answers no; [open_ok] tells whether the configuration
    file can be opened for writing; [millis] is what [millis()] returns. *)
Definition handleFormSubmit (ssidArg passwordArg : option text) (open_ok : bool)
    (millis : Z) (s : UserState) : UserState * list PortalCall :=
  match ssidArg, passwordArg with
  | Some ssid, Some pwd =>
      let ssid := String_trim ssid in
      let pwd := String_trim pwd in
      if (length ssid =? 0)%nat then
        (s, [Send 400 (str "text/plain") (str "SSID vacio")])
      else
        let '(ok, cfg) := saveWiFiConf open_ok ssid pwd (config s) in
        if ok then
          ({| rx := rx s; lastPrint := lastPrint s;
              pendingReset := true; pendingResetTime := millis;
              config := cfg |},
           [SendHeader (str "Location") (str "/savedcredentials");
            Send 303 (str "text/plain") (str "Redirigiendo...")]
           ++ map Lcd (showLCDMessage (str "Credenciales OK. Reiniciando...")))
        else
          ({| rx := rx s; lastPrint := lastPrint s;
              pendingReset := pendingReset s;
              pendingResetTime := pendingResetTime s;
              config := cfg |},
           [Send 500 (str "text/plain") (str "Error al guardar configuracion.")])
  | _, _ => (s, [Send 400 (str "text/plain") (str "Datos incompletos")])
  end.

(** *** [NodoUsuario/src/main.cpp] *)

Section Portal.

(** [String(double, decimalPlaces)] of the Arduino core, the decimal
    rendering of a double. *)
Variable String_of_double : float -> Z -> text.

(** The handler of [GET /coords.txt]: the status, the content type and
    the body it sends. *)
Definition coords_txt (st : RxState) : Z * text * text :=
  match LORA_lastValidGPS st with
  | Some (gi, _, _) =>
      if valid gi then
        (200, str "text/plain",
         str "lat=" ++ String_of_double (lat gi) 6
         ++ str "&lon=" ++ String_of_double (lon gi) 6 ++ str "&z=18")
      else (200, str "text/plain", str "lat=40.4168&lon=-3.7038&z=15")
  | None => (200, str "text/plain", str "lat=40.4168&lon=-3.7038&z=15")
  end.

End Portal.

(** What [loop] does besides serving the portal. *)
Inductive LoopCall :=
| Radio (c : RadioCall)
| SerialRx (gi : GpsInfo) (rssi snr : float)    (* the [RX] log line *)
| WatchdogReboot.

(** [void loop()], after [server.handleClient()] has served the pending
    request: the receive tick, the log of a new sample, and the deferred
    reset.  [r] is what the driver answers during the tick and [millis]
    what [millis()] returns, an [unsigned long] of 32 bits. *)
Definition loop (r : RxReply) (millis : Z) (s : UserState)
    : UserState * list LoopCall :=
  let '(rx1, ev) := LORA_rxTick r (rx s) in
  let '(lp, log) :=
    match LORA_lastValidGPS rx1 with
    | Some (gi, rssi, snr) =>
        if negb (hhmmss gi =? lastPrint s)
        then (hhmmss gi, [SerialRx gi rssi snr])
        else (lastPrint s, [])
    | None => (lastPrint s, [])
    end in
  let reboot :=
    if pendingReset s && (5000 <? Int.to_uint32 (millis - pendingResetTime s))
    then [WatchdogReboot] else [] in
  ({| rx := rx1; lastPrint := lp; pendingReset := pendingReset s;
      pendingResetTime := pendingResetTime s; config := config s |},
   map Radio ev ++ log ++ reboot).




(** The statics at start-up, the file system holding [cfg]. *)
Definition UserState_init (cfg : option text) : UserState :=
  {| rx := RxState_init; lastPrint := 0; pendingReset := false;
     pendingResetTime := 0; config := cfg |}.

End NodoUsuario.

(** ** Vocabulary of the further properties *)

(** A payload handed to the driver is well formed: 13 bytes, laid out as
    a frame whose time-of-day has its seconds on a multiple of [PERIOD]. *)
Definition well_formed (buf : list byte) (len : Z) : Prop :=
  len = 13
  /\ exists t a b, buf = frame t a b /\ 0 <= t < 2 ^ 32
                   /\ (t mod 100) mod PERIOD = 0.

(** What every reachable state of the pet node satisfies, with the driver
    calls made so far. *)
Definition pet_inv (st : PetState * list RadioCall) : Prop :=
  length (payload (fst st)) = 13%nat
  /\ (txInProgress (fst st) = true ->
      transmissionState (tx (fst st)) = RADIOLIB_ERR_NONE)
  /\ (forall buf len, In (StartTransmit buf len) (snd st) -> well_formed buf len)
  /\ (finishes (snd st) + (if txInProgress (fst st) then 1 else 0)
      <= attempts (snd st))%nat.

(** A text with no white space at either end. *)
Definition trimmed (s : text) : Prop :=
  trim_left s = s /\ trim_left (rev s) = rev s.

(** The texts printed on the display, in order. *)
Definition lcd_printed (calls : list LcdCall) : list text :=
  flat_map (fun c => match c with LcdPrint s => [s] | _ => [] end) calls.

(** The responses among the calls of a handler. *)
Definition responses (calls : list NodoUsuario.PortalCall)
    : list (Z * text * text) :=
  flat_map (fun c => match c with
                     | NodoUsuario.Send code ty body => [(code, ty, body)]
                     | _ => []
                     end) calls.


(** Every call that closes a transmission comes right after a call that
    starts one; [prev] is the call before the list, if any. *)
Fixpoint finish_follows_start (prev : option RadioCall) (calls : list RadioCall)
    : bool :=
  match calls with
  | [] => true
  | c :: calls' =>
      (if is_finish c
       then match prev with Some p => is_start p | None => false end
       else true)
      && finish_follows_start (Some c) calls'
  end.

(** The times-of-day of the payloads handed to the driver, in order. *)
Definition sent_times (calls : list RadioCall) : list Z :=
  flat_map (fun c => match c with
                     | StartTransmit buf _ => [Bytes.load_u32 buf 1]
                     | _ => []
                     end) calls.

(** Each element differs from the one before it, the first from [prev]. *)
Fixpoint changes (prev : Z) (l : list Z) : Prop :=
  match l with
  | [] => True
  | t :: l' => t <> prev /\ changes t l'
  end.

(** What the calls made so far look like, with the node's state. *)
Definition pet_trace_inv (st : PetState * list RadioCall) : Prop :=
  length (payload (fst st)) = 13%nat
  /\ finish_follows_start None (snd st) = true
  /\ (txInProgress (fst st) = true ->
      exists buf len, last (map Some (snd st)) None = Some (StartTransmit buf len)).

(** The sample at the opposite latitude and longitude. *)
Definition mirrored (info : GpsInfo) : GpsInfo :=
  {| lat := (- lat info)%float; lon := (- lon info)%float;
     hhmmss := hhmmss info; valid := valid info |}.


Section Scheduler.

Variable RADIOLIB_ERR_INVALID_PAYLOAD : Z.



End Scheduler.

(** The number of frames that a list of driver calls reads. *)
Definition frames_read (ev : list RadioCall) : nat :=
  length (filter (fun c => match c with ReadData _ => true | _ => false end) ev).

(** ** Further sample data *)

(** The frame of the scenario's position at 12:00:10. *)
Definition frame_120010 : list byte := frame 120010 4041680 (-370380).

(** The frame of the scenario, read without error at -92 dBm and 6 dB. *)
Definition rx_madrid : RxReply :=
  {| packetLength := 13; readStatus := RADIOLIB_ERR_NONE;
     readBuf := madrid_frame; rssi := (-92)%float; snr := 6%float |}.

(** The user node 296 ms before its millisecond counter wraps, the
    credentials just saved. *)
Definition user_saved : NodoUsuario.UserState :=
  {| NodoUsuario.rx := RxState_init; NodoUsuario.lastPrint := 0;
     NodoUsuario.pendingReset := true;
     NodoUsuario.pendingResetTime := 4294967000;
     NodoUsuario.config :=
       Some (Print_println (str "Casa") ++ Print_println (str "clave 123")) |}.

(** * Properties *)

(** ** Machine integers and bytes *)

Lemma to_int32_id (x : Z) : Int.in_int32 x -> Int.to_int32 x = x.
Proof.
  unfold Int.in_int32, Int.to_int32. intros H.
  rewrite Z.mod_small; lia.
Qed.

Lemma to_int32_range (x : Z) : Int.in_int32 (Int.to_int32 x).
Proof.
  unfold Int.in_int32, Int.to_int32.
  pose proof (Z.mod_pos_bound (x + 2 ^ 31) (2 ^ 32)). lia.
Qed.

Lemma to_int32_mod (x : Z) : Int.to_int32 (x mod 2 ^ 32) = Int.to_int32 x.
Proof.
  unfold Int.to_int32. f_equal.
  rewrite Z.add_mod_idemp_l by lia. reflexivity.
Qed.

Lemma byte_to_Z_range (b : byte) : 0 <= Bytes.byte_to_Z b < 256.
Proof.
  unfold Bytes.byte_to_Z. pose proof (Byte.to_N_bounded b). lia.
Qed.

Lemma byte_to_of_Z (x : Z) : Bytes.byte_to_Z (Bytes.byte_of_Z x) = x mod 256.
Proof.
  unfold Bytes.byte_to_Z, Bytes.byte_of_Z.
  pose proof (Z.mod_pos_bound x 256 ltac:(lia)) as Hx.
  destruct (Byte.of_N (Z.to_N (x mod 256))) as [b|] eqn:E.
  - apply Byte.to_of_N in E. rewrite E. lia.
  - apply Byte.of_N_None_iff in E. lia.
Qed.

Lemma byte_of_to_Z (b : byte) : Bytes.byte_of_Z (Bytes.byte_to_Z b) = b.
Proof.
  unfold Bytes.byte_to_Z, Bytes.byte_of_Z.
  pose proof (Byte.to_N_bounded b) as Hb.
  rewrite Z.mod_small by lia.
  rewrite N2Z.id, Byte.of_to_N. reflexivity.
Qed.

Lemma byte_to_Z_1 (b : byte) : Bytes.byte_to_Z b = 1 <-> b = x01.
Proof.
  split.
  - intros H. rewrite <- (byte_of_to_Z b), H. reflexivity.
  - intros ->. reflexivity.
Qed.

(** The four little-endian digits of [x] in base 256 make up [x mod 2^32]. *)
Lemma le_digits (x : Z) :
  x mod 256 + 2 ^ 8 * ((x / 2 ^ 8) mod 256)
  + 2 ^ 16 * ((x / 2 ^ 16) mod 256) + 2 ^ 24 * ((x / 2 ^ 24) mod 256)
  = x mod 2 ^ 32.
Proof.
  change (2 ^ 32) with (2 ^ 8 * (2 ^ 8 * (2 ^ 8 * 2 ^ 8))).
  rewrite !Z.rem_mul_r by lia.
  rewrite !Z.div_div by lia.
  change (2 ^ 8 * 2 ^ 8) with (2 ^ 16).
  change (2 ^ 16 * 2 ^ 8) with (2 ^ 24).
  change (2 ^ 8) with 256. lia.
Qed.

(** Reading back the four bytes written for [x], wherever they lie. *)
Lemma load_le32 (pre post : list byte) (x : Z) :
  Bytes.load_u32 (pre ++ Bytes.le32 x ++ post) (length pre) = x mod 2 ^ 32.
Proof.
  unfold Bytes.load_u32, Bytes.get.
  rewrite <- (Nat.add_0_r (length pre)) at 1.
  rewrite !app_nth2_plus.
  cbn [Bytes.le32 nth app].
  rewrite !byte_to_of_Z. apply le_digits.
Qed.

(** ** The frame that [GPS_buildBinaryPayload] writes *)

Lemma frame_length h a b : length (frame h a b) = 13%nat.
Proof. reflexivity. Qed.

Lemma frame_marker h a b post : Bytes.get (frame h a b ++ post) 0 = x01.
Proof. reflexivity. Qed.

Lemma frame_hhmmss h a b post :
  Bytes.load_u32 (frame h a b ++ post) 1 = Int.to_uint32 h.
Proof.
  unfold frame. rewrite <- !app_assoc.
  apply (load_le32 [x01]).
Qed.

Lemma frame_lat h a b post :
  Bytes.load_i32 (frame h a b ++ post) 5 = Int.to_int32 a.
Proof.
  unfold Bytes.load_i32, frame. rewrite <- !app_assoc.
  rewrite (app_assoc [x01] (Bytes.le32 h)).
  rewrite (load_le32 ([x01] ++ Bytes.le32 h)).
  apply to_int32_mod.
Qed.

Lemma frame_lon h a b post :
  Bytes.load_i32 (frame h a b ++ post) 9 = Int.to_int32 b.
Proof.
  unfold Bytes.load_i32, frame. rewrite <- !app_assoc.
  rewrite (app_assoc (Bytes.le32 h)), (app_assoc [x01]).
  rewrite (load_le32 ([x01] ++ Bytes.le32 h ++ Bytes.le32 a)).
  apply to_int32_mod.
Qed.

(** On a buffer of at least 13 bytes the four stores lay the frame over
    the first 13 bytes and leave the rest alone. *)
Lemma stores_frame (buf : list byte) (h a b : Z) :
  (13 <= length buf)%nat ->
  Bytes.store (Bytes.store (Bytes.store (Bytes.store buf 0 [Bytes.byte_of_Z 1])
                 1 (Bytes.le32 h)) 5 (Bytes.le32 a)) 9 (Bytes.le32 b)
  = frame h a b ++ skipn 13 buf.
Proof.
  intros H.
  do 13 (destruct buf as [|? buf]; [simpl in H; lia|]).
  reflexivity.
Qed.

Lemma build_ok (info : GpsInfo) (buf : list byte) (outSize : Z) :
  valid info = true -> 13 <= outSize -> (13 <= length buf)%nat ->
  GPS_buildBinaryPayload info (Some buf) outSize
  = (13, Some (frame (hhmmss info)
                     (Double.lround (lat info * 100000)%float)
                     (Double.lround (lon info * 100000)%float)
               ++ skipn 13 buf)).
Proof.
  intros Hv Hs Hl. unfold GPS_buildBinaryPayload.
  rewrite Hv. destruct (outSize <? 13) eqn:E; [lia|].
  cbn [orb negb]. rewrite stores_frame by exact Hl. reflexivity.
Qed.

Lemma build_fail (info : GpsInfo) (out : option (list byte)) (outSize : Z) :
  out = None \/ outSize < 13 \/ valid info = false ->
  GPS_buildBinaryPayload info out outSize = (0, out).
Proof.
  intros H. unfold GPS_buildBinaryPayload.
  destruct out as [buf|]; [|reflexivity].
  destruct H as [H|[H|H]]; [discriminate| |].
  - destruct (outSize <? 13) eqn:E; [reflexivity|lia].
  - rewrite H. rewrite orb_true_r. reflexivity.
Qed.

Lemma parse_ok (buf : list byte) (out : GpsInfo) :
  Bytes.get buf 0 = x01 ->
  GPS_parsePayload (Some buf) 13 out
  = (true,
     {| lat := (Double.of_int32 (Bytes.load_i32 buf 5) / 100000)%float;
        lon := (Double.of_int32 (Bytes.load_i32 buf 9) / 100000)%float;
        hhmmss := Bytes.load_u32 buf 1;
        valid := true |}).
Proof.
  intros H. unfold GPS_parsePayload. rewrite H. reflexivity.
Qed.

(** ** The wire codec *)

(** C6. [GPS_buildBinaryPayload] returns 0 and writes nothing when the
    sample is invalid or the destination holds fewer than 13 bytes (or is
    null); otherwise it returns 13 and the buffer then holds the marker
    byte 1 at offset 0 and, little-endian, the time-of-day at offset 1, the
    32-bit integer [lround(lat * 100000.0)] at offset 5 and
    [lround(lon * 100000.0)] at offset 9, the bytes from 13 on untouched. *)
Theorem GPS_buildBinaryPayload_spec
    (info : GpsInfo) (out : option (list byte)) (outSize : Z) :
  let r := GPS_buildBinaryPayload info out outSize in
  let latFixed := Double.lround (lat info * 100000)%float in
  let lonFixed := Double.lround (lon info * 100000)%float in
  (out = None \/ outSize < 13 \/ valid info = false -> r = (0, out))
  /\ (forall buf,
        out = Some buf -> valid info = true ->
        13 <= outSize <= Z.of_nat (length buf) ->
        exists buf',
          r = (13, Some buf')
          /\ length buf' = length buf
          /\ Bytes.get buf' 0 = x01
          /\ Bytes.load_u32 buf' 1 = Int.to_uint32 (hhmmss info)
          /\ Bytes.load_i32 buf' 5 = latFixed
          /\ Bytes.load_i32 buf' 9 = lonFixed
          /\ firstn 13 buf'
             = [x01] ++ Bytes.le32 (hhmmss info)
                     ++ Bytes.le32 latFixed ++ Bytes.le32 lonFixed
          /\ skipn 13 buf' = skipn 13 buf).
Proof.
  cbv zeta. split.
  - apply build_fail.
  - intros buf -> Hv Hs.
    assert (Hl : (13 <= length buf)%nat) by lia.
    eexists. split; [apply build_ok; [exact Hv|lia|exact Hl]|].
    split; [|split; [|split; [|split; [|split; [|split]]]]].
    + rewrite length_app, frame_length, length_skipn. lia.
    + apply frame_marker.
    + apply frame_hhmmss.
    + rewrite frame_lat. apply to_int32_id, to_int32_range.
    + rewrite frame_lon. apply to_int32_id, to_int32_range.
    + reflexivity.
    + reflexivity.
Qed.

(** The scenario of the specification: the sample 40.4168, -3.7038 at
    211507 is laid out as marker 01, then 211507, 4041680 and -370380. *)
Lemma GPS_buildBinaryPayload_madrid :
  GPS_buildBinaryPayload madrid None 13 = (0, None)
  /\ exists buf',
       GPS_buildBinaryPayload madrid (Some (repeat x00 13)) 13 = (13, Some buf')
       /\ length buf' = 13%nat
       /\ Bytes.get buf' 0 = x01
       /\ Bytes.load_u32 buf' 1 = 211507
       /\ Bytes.load_i32 buf' 5 = 4041680
       /\ Bytes.load_i32 buf' 9 = -370380
       /\ firstn 13 buf' = madrid_frame
       /\ skipn 13 buf' = [].
Proof.
  split.
  - apply (proj1 (GPS_buildBinaryPayload_spec madrid None 13)).
    left. reflexivity.
  - apply (proj2 (GPS_buildBinaryPayload_spec madrid (Some (repeat x00 13)) 13)
             (repeat x00 13)).
    + reflexivity.
    + reflexivity.
    + simpl. lia.
Defined.

(** C5. [GPS_parsePayload] fails exactly when the pointer is null, the
    length is not 13 or the first byte is not 1, and then leaves [out]
    alone; otherwise it sets the time-of-day to the little-endian unsigned
    32-bit integer at offset 1, latitude and longitude to the little-endian
    two's-complement 32-bit integers at offsets 5 and 9, converted to
    double and divided by 100000.0, and marks the sample valid. *)
Theorem GPS_parsePayload_spec
    (inp : option (list byte)) (len : Z) (out : GpsInfo) :
  let r := GPS_parsePayload inp len out in
  let signed u := if u <? 2 ^ 31 then u else u - 2 ^ 32 in
  let word buf off :=
    Bytes.byte_to_Z (nth off buf x00)
    + 256 * Bytes.byte_to_Z (nth (off + 1) buf x00)
    + 65536 * Bytes.byte_to_Z (nth (off + 2) buf x00)
    + 16777216 * Bytes.byte_to_Z (nth (off + 3) buf x00) in
  (fst r = false <->
     inp = None \/ len <> 13
     \/ exists buf, inp = Some buf /\ nth 0 buf x00 <> x01)
  /\ (fst r = false -> snd r = out)
  /\ (forall buf,
        inp = Some buf -> fst r = true ->
        hhmmss (snd r) = word buf 1%nat
        /\ lat (snd r) = (Double.of_int32 (signed (word buf 5%nat)) / 100000)%float
        /\ lon (snd r) = (Double.of_int32 (signed (word buf 9%nat)) / 100000)%float
        /\ valid (snd r) = true).
Proof.
  cbv zeta.
  assert (Hsigned : forall buf off,
             Bytes.load_i32 buf off
             = if Bytes.load_u32 buf off <? 2 ^ 31
               then Bytes.load_u32 buf off
               else Bytes.load_u32 buf off - 2 ^ 32).
  { intros buf off. unfold Bytes.load_i32, Int.to_int32.
    assert (0 <= Bytes.load_u32 buf off < 2 ^ 32).
    { unfold Bytes.load_u32.
      pose proof (byte_to_Z_range (Bytes.get buf off)).
      pose proof (byte_to_Z_range (Bytes.get buf (off + 1))).
      pose proof (byte_to_Z_range (Bytes.get buf (off + 2))).
      pose proof (byte_to_Z_range (Bytes.get buf (off + 3))). lia. }
    destruct (Bytes.load_u32 buf off <? 2 ^ 31) eqn:E.
    - rewrite Z.mod_small; lia.
    - replace (Bytes.load_u32 buf off + 2 ^ 31)
        with (Bytes.load_u32 buf off - 2 ^ 31 + 1 * 2 ^ 32) by lia.
      rewrite Z.mod_add by lia. rewrite Z.mod_small; lia. }
  unfold GPS_parsePayload.
  destruct inp as [buf|].
  2:{ cbn. split; [|split].
      - split; auto.
      - reflexivity.
      - intros ? H; discriminate H. }
  destruct (len =? 13) eqn:El; cbn [negb].
  2:{ cbn. split; [|split].
      - split; [|reflexivity]. intros _. right. left. lia.
      - reflexivity.
      - intros ? _ H; discriminate H. }
  destruct (Bytes.byte_to_Z (Bytes.get buf 0) =? 1) eqn:Em; cbn [negb fst snd].
  - apply Z.eqb_eq, byte_to_Z_1 in Em. split; [|split].
    + split; [discriminate|].
      intros [H|[H|(b & H & Hb)]]; [discriminate|lia|].
      injection H as <-. elim Hb. exact Em.
    + discriminate.
    + intros b H _. injection H as <-. cbn [lat lon hhmmss valid].
      rewrite !Hsigned. repeat split.
  - split; [|split].
    + split; [|reflexivity].
      intros _. right. right. exists buf. split; [reflexivity|].
      intros H. apply byte_to_Z_1 in H. unfold Bytes.get in Em. lia.
    + reflexivity.
    + intros ? _ H; discriminate H.
Qed.

(** Decoding the frame of the scenario gives back 211507 and the doubles
    4041680 / 100000.0 and -370380 / 100000.0, which are the coordinates of
    the scenario; a frame of 12 bytes is refused. *)
Lemma GPS_parsePayload_madrid :
  fst (GPS_parsePayload (Some madrid_frame) 13 GpsInfo_zero) = true
  /\ hhmmss (snd (GPS_parsePayload (Some madrid_frame) 13 GpsInfo_zero)) = 211507
  /\ lat (snd (GPS_parsePayload (Some madrid_frame) 13 GpsInfo_zero))
     = lat madrid
  /\ lon (snd (GPS_parsePayload (Some madrid_frame) 13 GpsInfo_zero))
     = lon madrid
  /\ valid (snd (GPS_parsePayload (Some madrid_frame) 13 GpsInfo_zero)) = true
  /\ snd (GPS_parsePayload (Some (removelast madrid_frame)) 12 GpsInfo_zero)
     = GpsInfo_zero.
Proof.
  pose proof (GPS_parsePayload_spec (Some madrid_frame) 13 GpsInfo_zero) as H.
  pose proof (GPS_parsePayload_spec (Some (removelast madrid_frame)) 12
                GpsInfo_zero) as H'.
  cbv zeta in H, H'.
  destruct H as (_ & _ & H). destruct H' as (_ & H' & _).
  destruct (H madrid_frame eq_refl eq_refl) as (H1 & H2 & H3 & H4).
  split; [reflexivity|].
  split; [exact H1|]. split; [exact H2|]. split; [exact H3|].
  split; [exact H4|]. exact (H' eq_refl).
Defined.

(** ** The receive session and the sample cache *)

Lemma rx_read_len_bounds (reported : Z) : 1 <= rx_read_len reported <= 64.
Proof.
  unfold rx_read_len, LORA_MAX_READ.
  destruct (Int.to_int16 reported <=? 0) eqn:E1.
  - cbn. lia.
  - destruct (64 <? Int.to_int16 reported) eqn:E2; lia.
Qed.

Lemma rxTick_idle (r : RxReply) (st : RxState) :
  s_rxFlag st = false -> LORA_rxTick r st = (st, []).
Proof. intros H. unfold LORA_rxTick. rewrite H. reflexivity. Qed.

(** The sample the cache holds after a tick. *)
Lemma rxTick_sample (r : RxReply) (st : RxState) :
  s_lastGps (fst (LORA_rxTick r st))
  = if s_rxFlag st && (readStatus r =? RADIOLIB_ERR_NONE)
       && (rx_read_len (packetLength r) =? 13)
       && (Bytes.byte_to_Z (Bytes.get (readBuf r) 0) =? 1)
    then snd (GPS_parsePayload (Some (readBuf r)) 13 GpsInfo_zero)
    else s_lastGps st.
Proof.
  unfold LORA_rxTick.
  destruct (s_rxFlag st); [|reflexivity]. cbn [negb andb].
  destruct (readStatus r =? RADIOLIB_ERR_NONE); [|reflexivity]. cbn [andb].
  destruct (rx_read_len (packetLength r) =? 13); [|reflexivity]. cbn [andb].
  destruct (Bytes.byte_to_Z (Bytes.get (readBuf r) 0) =? 1) eqn:Em;
    [|reflexivity].
  apply Z.eqb_eq, byte_to_Z_1 in Em.
  rewrite (parse_ok _ _ Em). reflexivity.
Qed.

(** The metrics the cache holds after a tick. *)
Lemma rxTick_metrics (r : RxReply) (st : RxState) :
  (s_lastRssi (fst (LORA_rxTick r st)), s_lastSnr (fst (LORA_rxTick r st)))
  = if s_rxFlag st && (readStatus r =? RADIOLIB_ERR_NONE)
    then (rssi r, snr r)
    else (s_lastRssi st, s_lastSnr st).
Proof.
  unfold LORA_rxTick.
  destruct (s_rxFlag st); [|reflexivity]. cbn [negb andb].
  destruct (readStatus r =? RADIOLIB_ERR_NONE); [|reflexivity].
  destruct (_ && _); [|reflexivity].
  destruct (GPS_parsePayload _ _ _) as [ok gi].
  destruct (ok && valid gi); reflexivity.
Qed.

(** C8. With the frame-ready flag clear, [LORA_rxTick] does nothing: it
    makes no call to the driver, so no read, and the cached sample, the
    recorded metrics and the flag are what they were. *)
Theorem LORA_rxTick_flag_clear (r : RxReply) (st : RxState) :
  s_rxFlag st = false ->
  snd (LORA_rxTick r st) = []
  /\ filter is_read (snd (LORA_rxTick r st)) = []
  /\ fst (LORA_rxTick r st) = st
  /\ LORA_lastValidGPS (fst (LORA_rxTick r st)) = LORA_lastValidGPS st.
Proof.
  intros H. rewrite (rxTick_idle r st H). repeat split.
Qed.

Lemma LORA_rxTick_flag_clear_example :
  snd (LORA_rxTick rx_short_frame rx_cached) = []
  /\ filter is_read (snd (LORA_rxTick rx_short_frame rx_cached)) = []
  /\ fst (LORA_rxTick rx_short_frame rx_cached) = rx_cached
  /\ LORA_lastValidGPS (fst (LORA_rxTick rx_short_frame rx_cached))
     = LORA_lastValidGPS rx_cached.
Proof.
  apply (LORA_rxTick_flag_clear rx_short_frame rx_cached). reflexivity.
Defined.

(** C9. Whatever length the driver reports, [LORA_rxTick] asks it for at
    least 1 and at most [LORA_MAX_READ = 64] bytes, the capacity of its
    buffer: a length that is zero or negative as an [int16_t] becomes 64, a
    length above 64 becomes 64, and any other length is kept. *)
Theorem LORA_rxTick_read_bounded (reported : Z) :
  1 <= rx_read_len reported <= LORA_MAX_READ
  /\ (Int.to_int16 reported <= 0 -> rx_read_len reported = 64)
  /\ (64 < Int.to_int16 reported -> rx_read_len reported = 64)
  /\ (0 < Int.to_int16 reported <= 64 ->
      rx_read_len reported = Int.to_int16 reported)
  /\ (0 <= reported < 2 ^ 15 -> Int.to_int16 reported = reported)
  /\ (forall r st n,
        packetLength r = reported ->
        In (ReadData n) (snd (LORA_rxTick r st)) ->
        n = rx_read_len reported /\ 1 <= n <= 64).
Proof.
  split; [apply rx_read_len_bounds|].
  unfold rx_read_len, LORA_MAX_READ.
  split; [|split; [|split; [|split]]].
  - intros H. destruct (Int.to_int16 reported <=? 0) eqn:E; [reflexivity|lia].
  - intros H. destruct (Int.to_int16 reported <=? 0) eqn:E; [lia|].
    destruct (64 <? Int.to_int16 reported) eqn:E'; lia.
  - intros H. destruct (Int.to_int16 reported <=? 0) eqn:E; [lia|].
    destruct (64 <? Int.to_int16 reported) eqn:E'; lia.
  - intros H. unfold Int.to_int16. rewrite Z.mod_small; lia.
  - intros r st n <- Hin.
    assert (n = rx_read_len (packetLength r)) as ->.
    { unfold LORA_rxTick in Hin.
      destruct (negb (s_rxFlag st)); [destruct Hin|].
      destruct (readStatus r =? RADIOLIB_ERR_NONE); cbn in Hin;
        intuition (try discriminate); congruence. }
    split; [reflexivity|apply rx_read_len_bounds].
Qed.

Lemma LORA_rxTick_read_bounded_example :
  rx_read_len 0 = 64 /\ rx_read_len 200 = 64 /\ rx_read_len 13 = 13
  /\ rx_read_len 65535 = 64.
Proof.
  destruct (LORA_rxTick_read_bounded 0) as (_ & H0 & _).
  destruct (LORA_rxTick_read_bounded 200) as (_ & _ & H200 & _).
  destruct (LORA_rxTick_read_bounded 13) as (_ & _ & _ & H13 & _).
  destruct (LORA_rxTick_read_bounded 65535) as (_ & Hm & _).
  split; [apply H0; vm_compute; discriminate|].
  split; [apply H200; reflexivity|].
  split; [apply H13; vm_compute; split; [reflexivity|discriminate]|].
  apply Hm; vm_compute; discriminate.
Defined.

(** A tick never invalidates the cache. *)
Lemma rxTick_valid (r : RxReply) (st : RxState) :
  valid (s_lastGps st) = true ->
  valid (s_lastGps (fst (LORA_rxTick r st))) = true.
Proof.
  intros Hv. rewrite rxTick_sample.
  destruct (_ && _) eqn:E; [|exact Hv].
  apply andb_prop in E. destruct E as [_ Em].
  apply Z.eqb_eq, byte_to_Z_1 in Em.
  rewrite (parse_ok _ _ Em). reflexivity.
Qed.

(** Nor does any sequence of interrupts and ticks. *)
Lemma rx_run_valid (evs : list RxEvent) (st : RxState) :
  valid (s_lastGps st) = true -> valid (s_lastGps (rx_run evs st)) = true.
Proof.
  unfold rx_run. revert st.
  induction evs as [|e evs IH]; intros st Hv; cbn [fold_left].
  - exact Hv.
  - apply IH. destruct e as [|r]; cbn [rx_step].
    + exact Hv.
    + apply rxTick_valid. exact Hv.
Qed.

(** C4, as the code has it.  Once the cache holds a valid sample, a tick
    on a malformed frame leaves the cached sample as it was, and no tick,
    nor any sequence of interrupts and ticks, makes the cache invalid
    again.  The recorded signal
    strength and signal-to-noise ratio are those of the last frame the
    driver read without error, malformed or not: they stay unchanged only
    when the flag was clear or the read failed. *)
Theorem LORA_rxTick_keeps_sample (r : RxReply) (st : RxState) :
  valid (s_lastGps st) = true ->
  valid (s_lastGps (fst (LORA_rxTick r st))) = true
  /\ (forall evs, valid (s_lastGps (rx_run evs st)) = true)
  /\ (malformed r ->
      s_lastGps (fst (LORA_rxTick r st)) = s_lastGps st
      /\ (s_lastRssi (fst (LORA_rxTick r st)), s_lastSnr (fst (LORA_rxTick r st)))
         = if s_rxFlag st && (readStatus r =? RADIOLIB_ERR_NONE)
           then (rssi r, snr r)
           else (s_lastRssi st, s_lastSnr st)).
Proof.
  intros Hv. split; [apply rxTick_valid; exact Hv|].
  split; [intros evs; apply rx_run_valid; exact Hv|].
  - intros Hm. split; [|apply rxTick_metrics].
    rewrite rxTick_sample.
    destruct (s_rxFlag st); [|reflexivity]. cbn [andb].
    destruct (readStatus r =? RADIOLIB_ERR_NONE) eqn:Es; [|reflexivity].
    destruct (rx_read_len (packetLength r) =? 13) eqn:El; [|reflexivity].
    destruct (Bytes.byte_to_Z (Bytes.get (readBuf r) 0) =? 1) eqn:Em;
      [|reflexivity].
    apply Z.eqb_eq in Es, El, Em. apply byte_to_Z_1 in Em.
    destruct Hm as [H|[H|H]]; contradiction.
Qed.

Lemma LORA_rxTick_keeps_sample_example :
  valid (s_lastGps (fst (LORA_rxTick rx_short_frame rx_pending))) = true
  /\ s_lastGps (fst (LORA_rxTick rx_short_frame rx_pending)) = madrid
  /\ (s_lastRssi (fst (LORA_rxTick rx_short_frame rx_pending)),
      s_lastSnr (fst (LORA_rxTick rx_short_frame rx_pending)))
     = ((-100)%float, (-3)%float).
Proof.
  destruct (LORA_rxTick_keeps_sample rx_short_frame rx_pending eq_refl)
    as (H1 & _ & H2).
  split; [exact H1|]. apply H2.
  left. vm_compute. discriminate.
Defined.

(** C4 as stated fails: the malformed 5-byte frame, read without error,
    replaces the metrics that went with the cached sample. *)
Lemma LORA_rxTick_metrics_overwritten :
  valid (s_lastGps rx_pending) = true
  /\ malformed rx_short_frame
  /\ LORA_lastValidGPS rx_pending = Some (madrid, (-80)%float, 7%float)
  /\ LORA_lastValidGPS (fst (LORA_rxTick rx_short_frame rx_pending))
     = Some (madrid, (-100)%float, (-3)%float)
  /\ s_lastRssi (fst (LORA_rxTick rx_short_frame rx_pending))
     <> s_lastRssi rx_pending
  /\ s_lastSnr (fst (LORA_rxTick rx_short_frame rx_pending))
     <> s_lastSnr rx_pending.
Proof.
  split; [reflexivity|].
  split; [left; vm_compute; discriminate|].
  split; [reflexivity|]. split; [reflexivity|].
  split; intros H.
  - apply (f_equal (fun x => PrimFloat.eqb x (-80))) in H.
    vm_compute in H. discriminate H.
  - apply (f_equal (fun x => PrimFloat.eqb x 7)) in H.
    vm_compute in H. discriminate H.
Qed.

(** C10. [GPS_parsePayload] accepts every 13-byte input whose first byte is
    1 and marks the sample valid, with no check of the decoded ranges; a
    receive tick that reads such a frame stores the sample in the cache.
    The frame carrying 999999, 91 degrees and 181 degrees is accepted and
    cached like any other. *)
Theorem GPS_parsePayload_no_range_check :
  (forall buf out,
      length buf = 13%nat -> Bytes.get buf 0 = x01 ->
      fst (GPS_parsePayload (Some buf) 13 out) = true
      /\ valid (snd (GPS_parsePayload (Some buf) 13 out)) = true)
  /\ (forall r st,
        s_rxFlag st = true -> readStatus r = RADIOLIB_ERR_NONE ->
        rx_read_len (packetLength r) = 13 -> Bytes.get (readBuf r) 0 = x01 ->
        LORA_lastValidGPS (fst (LORA_rxTick r st))
        = Some (snd (GPS_parsePayload (Some (readBuf r)) 13 GpsInfo_zero),
                rssi r, snr r))
  /\ (let gi := snd (GPS_parsePayload (Some wild_frame) 13 GpsInfo_zero) in
      length wild_frame = 13%nat
      /\ fst (GPS_parsePayload (Some wild_frame) 13 GpsInfo_zero) = true
      /\ valid gi = true
      /\ hhmmss gi = 999999 /\ 235959 < hhmmss gi
      /\ lat gi = 91%float /\ (90 <? lat gi)%float = true
      /\ lon gi = 181%float /\ (180 <? lon gi)%float = true
      /\ forall rssi snr,
           LORA_lastValidGPS
             (fst (LORA_rxTick (wild_reply rssi snr) (onPacketISR RxState_init)))
           = Some (gi, rssi, snr)).
Proof.
  split; [|split].
  - intros buf out _ Hm. rewrite (parse_ok _ _ Hm). split; reflexivity.
  - intros r st Hf Hs Hl Hm.
    unfold LORA_lastValidGPS.
    pose proof (rxTick_metrics r st) as HM.
    rewrite rxTick_sample.
    rewrite Hf, Hs, Hl in *. apply byte_to_Z_1 in Hm. rewrite Hm in *.
    cbn [andb Z.eqb Pos.eqb] in *.
    injection HM as -> ->.
    apply byte_to_Z_1 in Hm. rewrite (parse_ok _ _ Hm). reflexivity.
  - cbv zeta. repeat (split; [vm_compute; reflexivity|]).
    intros rssi snr. reflexivity.
Qed.

(** ** The transmit session and the scheduler *)

Section PetNodeFacts.

(** The value of [RADIOLIB_ERR_INVALID_PAYLOAD], whatever it is. *)
Variable INVALID_PAYLOAD : Z.


Lemma getInfo_valid (gps : TinyGPS) :
  GPS_hasFix gps = true -> valid (GPS_getInfo gps) = true.
Proof.
  unfold GPS_hasFix, GPS_getInfo. intros ->. reflexivity.
Qed.

Lemma to_uint8_ss (t : Z) : Int.to_uint8 (t mod 100) = t mod 100.
Proof.
  unfold Int.to_uint8.
  pose proof (Z.mod_pos_bound t 100 ltac:(lia)).
  apply Z.mod_small. lia.
Qed.


Lemma loop_send_busy (gps : TinyGPS) (reply : Z) (s : PetState) :
  txInProgress s = true -> loop_send INVALID_PAYLOAD gps reply s = (s, []).
Proof.
  intros Hp. unfold loop_send. rewrite Hp.
  destruct (GPS_hasFix gps); [|reflexivity].
  rewrite andb_false_r. reflexivity.
Qed.



Lemma loop_unfold (gps : TinyGPS) (reply : Z) (s : PetState) :
  loop INVALID_PAYLOAD gps reply s
  = (fst (loop_send INVALID_PAYLOAD gps reply (fst (loop_close s))),
     snd (loop_close s) ++ snd (loop_send INVALID_PAYLOAD gps reply (fst (loop_close s)))).
Proof.
  unfold loop. destruct (loop_close s) as [s1 ev1]. cbn [fst snd].
  destruct (loop_send INVALID_PAYLOAD gps reply s1). reflexivity.
Qed.

Lemma attempts_app (a b : list RadioCall) :
  attempts (a ++ b) = (attempts a + attempts b)%nat.
Proof. unfold attempts. rewrite filter_app, length_app. reflexivity. Qed.



(** In flight, an iteration of the control loop does nothing at all. *)
Lemma loop_in_flight (gps : TinyGPS) (reply : Z) (s : PetState) :
  in_flight s -> loop INVALID_PAYLOAD gps reply s = (s, []).
Proof.
  intros [Hp Hd]. rewrite loop_unfold.
  assert (E : loop_close s = (s, [])).
  { unfold loop_close, LORA_isTxDone. rewrite Hp, Hd. reflexivity. }
  rewrite E. cbn [fst snd]. rewrite (loop_send_busy gps reply s Hp).
  reflexivity.
Qed.

(** C2, as the code has it.  [LORA_startTx] has no in-flight check: for a
    payload of 1 to 256 bytes it clears the completion flag, asks the
    driver to transmit, and records and returns the driver's status,
    whatever the state of the session.  At most one transmission is
    outstanding because the scheduler holds back: while a transmission is
    in flight an iteration of [loop] makes no driver call and leaves the
    completion flag, the recorded status and everything else unchanged. *)
Theorem loop_holds_back_in_flight (gps : TinyGPS) (reply : Z) (s : PetState) :
  in_flight s ->
  snd (loop INVALID_PAYLOAD gps reply s) = []
  /\ fst (loop INVALID_PAYLOAD gps reply s) = s
  /\ LORA_isTxDone (tx (fst (loop INVALID_PAYLOAD gps reply s))) = LORA_isTxDone (tx s)
  /\ LORA_lastState (tx (fst (loop INVALID_PAYLOAD gps reply s))) = LORA_lastState (tx s)
  /\ (forall buf len st,
        1 <= len <= 256 ->
        LORA_startTx INVALID_PAYLOAD (Some buf) len reply st
        = (reply =? RADIOLIB_ERR_NONE,
           {| transmittedFlag := false; transmissionState := reply |},
           [StartTransmit buf len])).
Proof.
  intros H. rewrite (loop_in_flight gps reply s H). cbn [fst snd].
  repeat split.
  intros buf len st Hlen. unfold LORA_startTx.
  destruct (len =? 0) eqn:E0; [lia|].
  destruct (256 <? len) eqn:E1; [lia|]. reflexivity.
Qed.


End PetNodeFacts.

Lemma loop_holds_back_in_flight_example :
  snd (loop 0 (gps_at 12 0 10) RADIOLIB_ERR_NONE pet_in_flight) = []
  /\ fst (loop 0 (gps_at 12 0 10) RADIOLIB_ERR_NONE pet_in_flight) = pet_in_flight
  /\ LORA_isTxDone
       (tx (fst (loop 0 (gps_at 12 0 10) RADIOLIB_ERR_NONE pet_in_flight)))
     = false
  /\ LORA_lastState
       (tx (fst (loop 0 (gps_at 12 0 10) RADIOLIB_ERR_NONE pet_in_flight)))
     = RADIOLIB_ERR_NONE
  /\ LORA_startTx 0 (Some madrid_frame) 13 RADIOLIB_ERR_NONE (tx pet_in_flight)
     = (true,
        {| transmittedFlag := false; transmissionState := RADIOLIB_ERR_NONE |},
        [StartTransmit madrid_frame 13]).
Proof.
  destruct (loop_holds_back_in_flight 0 (gps_at 12 0 10) RADIOLIB_ERR_NONE
              pet_in_flight (conj eq_refl eq_refl))
    as (H1 & H2 & H3 & H4 & H5).
  split; [exact H1|]. split; [exact H2|]. split; [exact H3|].
  split; [exact H4|].
  apply (H5 madrid_frame 13 (tx pet_in_flight)). lia.
Defined.

(** C2 as stated fails: with a transmission in flight, a second
    [LORA_startTx] on a 13-byte payload that the driver accepts is not
    rejected, and one that the driver refuses overwrites the recorded
    status of the outstanding transmission. *)
Lemma LORA_startTx_while_in_flight :
  ~ (forall (err : Z) (buf : list byte) (reply : Z) (st : TxState),
        1 <= Z.of_nat (length buf) <= 256 ->
        transmittedFlag st = false ->
        transmissionState st = RADIOLIB_ERR_NONE ->
        let '(ok, st', _) :=
          LORA_startTx err (Some buf) (Z.of_nat (length buf)) reply st in
        ok = false /\ st' = st).
Proof.
  intros H.
  specialize (H 0 madrid_frame RADIOLIB_ERR_NONE (tx pet_in_flight)).
  cbn in H. destruct H as [H _]; [lia|reflexivity|reflexivity|].
  discriminate H.
Qed.

(** The scenario as one run from start-up, the driver accepting every send
    and the completion interrupt firing between iterations: the fixes at
    seconds 00, 05, 10 and 07 start 1, 0, 1 and 0 transmissions. *)
Example loop_scenario_period_10 :
  let tick h m sec s := loop 0 (gps_at h m sec) RADIOLIB_ERR_NONE s in
  let s1 := fst (tick 12 0 0 PetState_init) in
  let s2 := fst (tick 12 0 5 (pet_isr s1)) in
  let s3 := fst (tick 12 0 10 (pet_isr s2)) in
  map (fun ev => attempts ev)
      [snd (tick 12 0 0 PetState_init); snd (tick 12 0 5 (pet_isr s1));
       snd (tick 12 0 10 (pet_isr s2)); snd (tick 12 0 7 (pet_isr s3))]
  = [1; 0; 1; 0]%nat
  /\ lastSentHHMMSS s3 = 120010.
Proof. vm_compute. split; reflexivity. Qed.


(** ** Binary64 arithmetic *)

Import Double.

(** *** Powers of two *)

Lemma bpow_pos (e : Z) : (0 < bpow e)%Q.
Proof. apply Qpower_0_lt. reflexivity. Qed.

Lemma bpow_add (a b : Z) : (bpow (a + b) == bpow a * bpow b)%Q.
Proof. apply Qpower_plus. discriminate. Qed.

Lemma bpow_Z (e : Z) : 0 <= e -> (bpow e == inject_Z (2 ^ e))%Q.
Proof. intros H. unfold bpow. rewrite Zpower_Qpower by exact H. reflexivity. Qed.

Lemma bpow_le (a b : Z) : a <= b -> (bpow a <= bpow b)%Q.
Proof.
  intros H. replace b with (a + (b - a)) by lia.
  rewrite bpow_add, (bpow_Z (b - a)) by lia.
  pose proof (bpow_pos a).
  assert (1 <= inject_Z (2 ^ (b - a)))%Q.
  { change 1%Q with (inject_Z 1). rewrite <- Zle_Qle.
    pose proof (Z.pow_pos_nonneg 2 (b - a)). lia. }
  nra.
Qed.

Lemma bpow_opp (p : Z) : (bpow (- p) * bpow p == 1)%Q.
Proof.
  rewrite <- bpow_add. replace (- p + p) with 0 by lia. reflexivity.
Qed.

Lemma Qfloor_unique (x : Q) (n : Z) :
  (inject_Z n <= x)%Q -> (x < inject_Z (n + 1))%Q -> Qfloor x = n.
Proof.
  intros H1 H2.
  pose proof (Qfloor_le x) as F1. pose proof (Qlt_floor x) as F2.
  assert (n < Qfloor x + 1).
  { rewrite Zlt_Qlt. eapply Qle_lt_trans; eauto. }
  assert (Qfloor x < n + 1).
  { rewrite Zlt_Qlt. eapply Qle_lt_trans; eauto. }
  lia.
Qed.

(** [round_half_up_pos m e] is [floor (m * 2^e + 1/2)]. *)
Lemma round_half_up_pos_bounds (m : positive) (e : Z) :
  (inject_Z (round_half_up_pos m e) <= inject_Z (Z.pos m) * bpow e + (1 # 2)
   /\ inject_Z (Z.pos m) * bpow e + (1 # 2) < inject_Z (round_half_up_pos m e + 1))%Q.
Proof.
  unfold round_half_up_pos. destruct e as [|p|p].
  - change (bpow 0) with 1%Q. rewrite Z.pow_0_r, Z.mul_1_r, inject_Z_plus.
    change (inject_Z 1) with 1%Q. split; lra.
  - rewrite inject_Z_plus, inject_Z_mult, <- bpow_Z by lia.
    change (inject_Z 1) with 1%Q. split; lra.
  - set (d := 2 ^ Z.pos p). set (h := 2 ^ (Z.pos p - 1)).
    assert (Hd : d = 2 * h).
    { unfold d, h. rewrite <- Z.pow_succ_r by lia. f_equal. lia. }
    assert (Hh : 0 < h) by (apply Z.pow_pos_nonneg; lia).
    set (n := (Z.pos m + h) / d).
    assert (Hn : d * n <= Z.pos m + h < d * n + d).
    { pose proof (Z.div_mod (Z.pos m + h) d ltac:(lia)) as E.
      pose proof (Z.mod_pos_bound (Z.pos m + h) d ltac:(lia)).
      fold n in E. lia. }
    pose proof (bpow_opp (Z.pos p)) as Hb.
    change (- Z.pos p) with (Z.neg p) in Hb.
    rewrite (bpow_Z (Z.pos p)) in Hb by lia. fold d in Hb.
    pose proof (bpow_pos (Z.neg p)) as Hp.
    set (b := bpow (Z.neg p)) in *.
    assert (Hd' : (inject_Z d == 2 * inject_Z h)%Q).
    { rewrite Hd, inject_Z_mult. reflexivity. }
    destruct Hn as [Hn1 Hn2].
    rewrite Zle_Qle in Hn1. rewrite Zlt_Qlt in Hn2.
    rewrite !inject_Z_plus, !inject_Z_mult in *.
    change (inject_Z 1) with 1%Q.
    clearbody b n d h.
    assert (Hhb : (inject_Z h * b == 1 # 2)%Q).
    { rewrite Hd' in Hb. lra. }
    assert (Hnb : (inject_Z d * inject_Z n * b == inject_Z n)%Q).
    { transitivity (inject_Z n * (b * inject_Z d))%Q; [ring|].
      rewrite Hb. ring. }
    assert (Hdb : (inject_Z d * b == 1)%Q) by (rewrite <- Hb; ring).
    split.
    + assert ((inject_Z d * inject_Z n) * b <= (inject_Z (Z.pos m) + inject_Z h) * b)%Q
        by (apply Qmult_le_compat_r; lra).
      lra.
    + assert ((inject_Z (Z.pos m) + inject_Z h) * b
              < (inject_Z d * inject_Z n + inject_Z d) * b)%Q
        by (apply Qmult_lt_compat_r; lra).
      lra.
Qed.

(** *** Rounding to an integer *)

(** The model of [lround] is rounding half away from zero. *)
Lemma SFlround_spec (x : spec_float) : SFlround x = round_half_away (SF2Q x).
Proof.
  destruct x as [s|s| |s m e]; try reflexivity.
  unfold SFlround, SF2Q, round_half_away.
  destruct (round_half_up_pos_bounds m e) as [H1 H2].
  pose proof (bpow_pos e) as Hb.
  assert (Hm : (0 < inject_Z (Z.pos m))%Q).
  { change 0%Q with (inject_Z 0). rewrite <- Zlt_Qlt. lia. }
  assert (Hv : (0 < inject_Z (Z.pos m) * bpow e)%Q) by nra.
  destruct s; cbn [cond_Zopp].
  - destruct (Qle_bool 0 (inject_Z (- Z.pos m) * bpow e)) eqn:E.
    + apply Qle_bool_iff in E. rewrite inject_Z_opp in E. lra.
    + f_equal. symmetry. apply Qfloor_unique; rewrite inject_Z_opp; lra.
  - destruct (Qle_bool 0 (inject_Z (Z.pos m) * bpow e)) eqn:E.
    + symmetry. apply Qfloor_unique; lra.
    + assert (Qle_bool 0 (inject_Z (Z.pos m) * bpow e) = true)
        by (apply Qle_bool_iff; lra).
      congruence.
Qed.

Lemma round_half_away_error (q : Q) :
  (Qabs (inject_Z (round_half_away q) - q) <= 1 # 2)%Q.
Proof.
  unfold round_half_away. apply Qabs_Qle_condition.
  destruct (Qle_bool 0 q).
  - pose proof (Qfloor_le (q + (1 # 2))). pose proof (Qlt_floor (q + (1 # 2))).
    rewrite inject_Z_plus in *. change (inject_Z 1) with 1%Q in *. split; lra.
  - pose proof (Qfloor_le (- q + (1 # 2))). pose proof (Qlt_floor (- q + (1 # 2))).
    rewrite inject_Z_opp. rewrite inject_Z_plus in *.
    change (inject_Z 1) with 1%Q in *. split; lra.
Qed.

Lemma round_half_away_tie (k : Z) :
  0 <= k ->
  round_half_away (inject_Z k + (1 # 2)) = k + 1
  /\ round_half_away (- (inject_Z k + (1 # 2))) = - (k + 1).
Proof.
  intros Hk. unfold round_half_away.
  assert (Hq : (0 <= inject_Z k)%Q).
  { change 0%Q with (inject_Z 0). rewrite <- Zle_Qle. exact Hk. }
  split.
  - destruct (Qle_bool 0 (inject_Z k + (1 # 2))) eqn:E.
    + apply Qfloor_unique; rewrite !inject_Z_plus;
        change (inject_Z 1) with 1%Q; lra.
    + assert (Qle_bool 0 (inject_Z k + (1 # 2)) = true)
        by (apply Qle_bool_iff; lra).
      congruence.
  - destruct (Qle_bool 0 (- (inject_Z k + (1 # 2)))) eqn:E.
    + apply Qle_bool_iff in E. lra.
    + f_equal. apply Qfloor_unique; rewrite !inject_Z_plus;
        change (inject_Z 1) with 1%Q; lra.
Qed.

(** *** Digits *)

Lemma digits2_pos_bounds (p : positive) :
  2 ^ (Z.pos (digits2_pos p) - 1) <= Z.pos p < 2 ^ Z.pos (digits2_pos p).
Proof.
  induction p as [p IH|p IH|]; cbn [digits2_pos].
  - rewrite Pos2Z.inj_succ.
    replace (Z.succ (Z.pos (digits2_pos p)) - 1)
      with (Z.succ (Z.pos (digits2_pos p) - 1)) by lia.
    rewrite !Z.pow_succ_r by lia. lia.
  - rewrite Pos2Z.inj_succ.
    replace (Z.succ (Z.pos (digits2_pos p)) - 1)
      with (Z.succ (Z.pos (digits2_pos p) - 1)) by lia.
    rewrite !Z.pow_succ_r by lia. lia.
  - cbn. lia.
Qed.

Lemma Zdigits2_le (m k : Z) : 0 <= k -> 0 <= m < 2 ^ k -> Zdigits2 m <= k.
Proof.
  intros Hk [H0 H]. destruct m as [|p|p]; cbn [Zdigits2]; [lia| |lia].
  destruct (digits2_pos_bounds p) as [H1 _].
  destruct (Z_le_gt_dec (Z.pos (digits2_pos p)) k) as [|G]; [assumption|].
  assert (2 ^ k <= 2 ^ (Z.pos (digits2_pos p) - 1))
    by (apply Z.pow_le_mono_r; lia).
  lia.
Qed.

(** *** Shifting right *)

Lemma shr_1_m (r : shr_record) : 0 <= shr_m r -> shr_m (shr_1 r) = shr_m r / 2.
Proof.
  destruct r as [m r s]. cbn [shr_m]. intros H. unfold shr_1.
  destruct m as [|[p|p|]|p]; cbn [shr_m]; try lia.
  - reflexivity.
  - rewrite Pos2Z.inj_xI. apply Z.div_unique with 1; lia.
  - rewrite Pos2Z.inj_xO. apply Z.div_unique with 0; lia.
  - reflexivity.
Qed.

Lemma iter_pos_shr_m (p : positive) (r : shr_record) :
  0 <= shr_m r ->
  shr_m (iter_pos shr_1 p r) = shr_m r / 2 ^ Z.pos p.
Proof.
  revert r. induction p as [p IH|p IH|]; intros r H; cbn [iter_pos].
  - assert (H1 : 0 <= shr_m (shr_1 r)).
    { rewrite shr_1_m by exact H. apply Z.div_pos; lia. }
    assert (H2 : 0 <= shr_m (iter_pos shr_1 p (shr_1 r))).
    { rewrite IH by exact H1. apply Z.div_pos; [lia|]. apply Z.pow_pos_nonneg; lia. }
    rewrite IH, IH, shr_1_m by assumption.
    rewrite !Z.div_div by (try apply Z.pow_pos_nonneg; lia).
    f_equal.
    replace (Z.pos p~1) with (1 + Z.pos p + Z.pos p) by lia.
    rewrite !Z.pow_add_r by lia. lia.
  - assert (H2 : 0 <= shr_m (iter_pos shr_1 p r)).
    { rewrite IH by exact H. apply Z.div_pos; [lia|]. apply Z.pow_pos_nonneg; lia. }
    rewrite IH, IH by assumption.
    rewrite !Z.div_div by (try apply Z.pow_pos_nonneg; lia).
    f_equal.
    replace (Z.pos p~0) with (Z.pos p + Z.pos p) by lia.
    rewrite !Z.pow_add_r by lia. lia.
  - apply shr_1_m. exact H.
Qed.

Lemma shr_m_of_loc (m : Z) (l : location) : shr_m (shr_record_of_loc m l) = m.
Proof. destruct l as [|[]]; reflexivity. Qed.

Lemma shr_fexp_spec (m e : Z) (l : location) :
  0 <= m ->
  snd (shr_fexp prec emax m e l) = Z.max e (fexp prec emax (Zdigits2 m + e))
  /\ shr_m (fst (shr_fexp prec emax m e l))
     = m / 2 ^ (snd (shr_fexp prec emax m e l) - e).
Proof.
  intros H. unfold shr_fexp, shr.
  destruct (fexp prec emax (Zdigits2 m + e) - e) as [|p|p] eqn:E; cbn [fst snd].
  - split; [lia|]. rewrite Z.sub_diag, Z.pow_0_r, Z.div_1_r.
    apply shr_m_of_loc.
  - split; [lia|]. rewrite iter_pos_shr_m by (rewrite shr_m_of_loc; exact H).
    rewrite shr_m_of_loc. f_equal. f_equal. lia.
  - split; [lia|]. rewrite Z.sub_diag, Z.pow_0_r, Z.div_1_r.
    apply shr_m_of_loc.
Qed.

Lemma round_nearest_even_bounds (m : Z) (l : location) :
  m <= round_nearest_even m l <= m + 1.
Proof.
  unfold round_nearest_even. destruct l as [|[]]; try lia.
  destruct (Z.even m); lia.
Qed.

Lemma scale_bounds (bk be iq im : Q) :
  (0 < be -> bk * iq <= im -> im < bk * iq + bk ->
   iq * (be * bk) <= im * be /\ im * be < (iq + 1) * (be * bk))%Q.
Proof.
  intros Hbe H1 H2. split.
  - assert (bk * iq * be <= im * be)%Q by (apply Qmult_le_compat_r; lra).
    lra.
  - assert (im * be < (bk * iq + bk) * be)%Q by (apply Qmult_lt_compat_r; lra).
    lra.
Qed.

(** Dropping [k] low bits, as a rational inequality. *)
Lemma floor_shift (m e k : Z) :
  0 <= m -> 0 <= k ->
  (inject_Z (m / 2 ^ k) * bpow (e + k) <= inject_Z m * bpow e
   /\ inject_Z m * bpow e < (inject_Z (m / 2 ^ k) + 1) * bpow (e + k))%Q.
Proof.
  intros Hm Hk.
  assert (Hd : 0 < 2 ^ k) by (apply Z.pow_pos_nonneg; lia).
  pose proof (Z.div_mod m (2 ^ k) ltac:(lia)) as E.
  pose proof (Z.mod_pos_bound m (2 ^ k) Hd) as B.
  set (q := m / 2 ^ k) in *.
  assert (H1 : 2 ^ k * q <= m) by lia.
  assert (H2 : m < 2 ^ k * q + 2 ^ k) by lia.
  rewrite Zle_Qle in H1. rewrite Zlt_Qlt in H2.
  rewrite inject_Z_plus, !inject_Z_mult, <- !bpow_Z in * by lia.
  rewrite bpow_add.
  apply scale_bounds; [apply bpow_pos|assumption|assumption].
Qed.

(** *** Rounding to binary64 *)

Lemma fexp64_eq (e : Z) : fexp64 e = Z.max (e - 53) (-1074).
Proof. reflexivity. Qed.

Lemma fexp64_mono (a b : Z) : a <= b -> fexp64 a <= fexp64 b.
Proof. rewrite !fexp64_eq. lia. Qed.

Lemma inject_Z_scaled_le (a b : Z) (e : Z) :
  a <= b -> (inject_Z a * bpow e <= inject_Z b * bpow e)%Q.
Proof.
  intros H. apply Qmult_le_compat_r.
  - rewrite <- Zle_Qle. exact H.
  - apply Qlt_le_weak, bpow_pos.
Qed.

(** What [binary_round_aux] returns for a magnitude [mx * 2^ex] below
    [2^D]: a zero or a finite number of the given sign, within two units in
    the last place of the magnitude. *)
Lemma binary_round_aux_bounds (s : bool) (mx ex : Z) (lx : location) (D : Z) :
  0 <= mx < 2 ^ (D - ex) -> ex <= fexp64 D -> -1074 <= D <= 1023 ->
  exists M e : Z,
    0 <= M /\ e <= fexp64 (D + 1)
    /\ binary_round_aux prec emax s mx ex lx
       = match M with Z.pos m => S754_finite s m e | _ => S754_zero s end
    /\ (inject_Z mx * bpow ex - 2 * bpow (fexp64 (D + 1)) < inject_Z M * bpow e
        /\ inject_Z M * bpow e <= inject_Z mx * bpow ex + bpow (fexp64 (D + 1)))%Q.
Proof.
  intros [Hm0 Hmx] Hex HD.
  assert (HDex : 0 <= D - ex).
  { destruct (Z_lt_le_dec (D - ex) 0) as [L|]; [|assumption].
    rewrite Z.pow_neg_r in Hmx by exact L. lia. }
  unfold binary_round_aux.
  destruct (shr_fexp_spec mx ex lx Hm0) as [He1 Hm1].
  destruct (shr_fexp prec emax mx ex lx) as [r1 e1]. cbn [fst snd] in He1, Hm1.
  fold (fexp64 (Zdigits2 mx + ex)) in He1.
  assert (Hd : Zdigits2 mx <= D - ex) by (apply Zdigits2_le; lia).
  pose proof (fexp64_mono (Zdigits2 mx + ex) D ltac:(lia)) as Hf1.
  assert (HE0 : fexp64 D <= D) by (rewrite fexp64_eq; lia).
  pose proof (fexp64_mono D (D + 1) ltac:(lia)) as HE.
  assert (He1' : ex <= e1 <= fexp64 D) by lia.
  set (m1 := shr_m r1) in *.
  assert (Hm1' : 0 <= m1 < 2 ^ (D - e1)).
  { rewrite Hm1. split.
    - apply Z.div_pos; [lia|]. apply Z.pow_pos_nonneg; lia.
    - apply Z.div_lt_upper_bound; [apply Z.pow_pos_nonneg; lia|].
      rewrite <- Z.pow_add_r by lia.
      replace (e1 - ex + (D - e1)) with (D - ex) by lia. exact Hmx. }
  pose proof (round_nearest_even_bounds m1 (loc_of_shr_record r1)) as Hm2.
  set (m2 := round_nearest_even m1 (loc_of_shr_record r1)) in *.
  assert (Hm2' : 0 <= m2 < 2 ^ (D + 1 - e1)).
  { split; [lia|].
    replace (D + 1 - e1) with (Z.succ (D - e1)) by lia.
    rewrite Z.pow_succ_r by lia. lia. }
  destruct (shr_fexp_spec m2 e1 loc_Exact (proj1 Hm2')) as [He3 Hm3].
  destruct (shr_fexp prec emax m2 e1 loc_Exact) as [r3 e3].
  cbn [fst snd] in He3, Hm3.
  fold (fexp64 (Zdigits2 m2 + e1)) in He3.
  assert (Hd2 : Zdigits2 m2 <= D + 1 - e1) by (apply Zdigits2_le; lia).
  pose proof (fexp64_mono (Zdigits2 m2 + e1) (D + 1) ltac:(lia)) as Hf3.
  assert (He3' : e1 <= e3 <= fexp64 (D + 1)) by lia.
  set (m3 := shr_m r3) in *.
  assert (Hm3' : 0 <= m3).
  { rewrite Hm3. apply Z.div_pos; [lia|]. apply Z.pow_pos_nonneg; lia. }
  exists m3, e3.
  split; [exact Hm3'|]. split; [lia|]. split.
  - destruct m3 as [|m|m]; [reflexivity| |lia].
    assert ((e3 <=? emax - prec) = true) as ->; [|reflexivity].
    apply Z.leb_le. change (emax - prec) with 971.
    rewrite fexp64_eq in He3'. lia.
  - destruct (floor_shift mx ex (e1 - ex) Hm0 ltac:(lia)) as [F1 F2].
    rewrite <- Hm1 in F1, F2. replace (ex + (e1 - ex)) with e1 in F1, F2 by lia.
    destruct (floor_shift m2 e1 (e3 - e1) (proj1 Hm2') ltac:(lia)) as [F3 F4].
    rewrite <- Hm3 in F3, F4. replace (e1 + (e3 - e1)) with e3 in F3, F4 by lia.
    pose proof (inject_Z_scaled_le m1 m2 e1 (proj1 Hm2)) as G1.
    pose proof (inject_Z_scaled_le m2 (m1 + 1) e1 (proj2 Hm2)) as G2.
    rewrite inject_Z_plus in G2. change (inject_Z 1) with 1%Q in G2.
    pose proof (bpow_le e1 (fexp64 (D + 1)) ltac:(lia)) as B1.
    pose proof (bpow_le e3 (fexp64 (D + 1)) ltac:(lia)) as B3.
    pose proof (bpow_pos e1) as P1. pose proof (bpow_pos e3) as P3.
    clearbody m1 m2 m3.
    generalize dependent (bpow (fexp64 (D + 1))).
    generalize dependent (bpow e1). generalize dependent (bpow e3).
    generalize dependent (bpow ex).
    intros. split; lra.
Qed.

(** *** Comparisons *)

Lemma lt_bpow_Z (m e k : Z) :
  e <= k -> (inject_Z m * bpow e < bpow k)%Q -> m < 2 ^ (k - e).
Proof.
  intros Hek H. replace k with (k - e + e) in H by lia.
  rewrite bpow_add, (bpow_Z (k - e)) in H by lia.
  rewrite Zlt_Qlt. pose proof (bpow_pos e).
  eapply Qmult_lt_r; eauto.
Qed.

Lemma valid_digits (s : bool) (m : positive) (e : Z) :
  valid_binary (S754_finite s m e) = true ->
  Z.pos m < 2 ^ 53 /\ -1074 <= e <= 971.
Proof.
  cbn [SpecFloat.valid_binary]. unfold bounded, canonical_mantissa.
  intros H. apply andb_prop in H. destruct H as [H1 H2].
  apply Z.eqb_eq in H1. apply Z.leb_le in H2.
  change (fexp prec emax (Z.pos (digits2_pos m) + e))
    with (fexp64 (Z.pos (digits2_pos m) + e)) in H1.
  rewrite fexp64_eq in H1. change (emax - prec) with 971 in H2.
  destruct (digits2_pos_bounds m) as [_ Hd].
  split; [|lia].
  assert (2 ^ Z.pos (digits2_pos m) <= 2 ^ 53)
    by (apply Z.pow_le_mono_r; lia).
  lia.
Qed.

(** A valid number between [-c] and [c], for a normal constant [c], is a
    zero or a finite number of magnitude at most [c]. *)
Lemma SFleb_abs_bound (x : spec_float) (mc : positive) (ec : Z) :
  2 ^ 52 <= Z.pos mc ->
  valid_binary x = true ->
  SFleb (S754_finite true mc ec) x = true ->
  SFleb x (S754_finite false mc ec) = true ->
  match x with
  | S754_zero _ => True
  | S754_finite _ m e =>
      (inject_Z (Z.pos m) * bpow e <= inject_Z (Z.pos mc) * bpow ec)%Q
  | _ => False
  end.
Proof.
  intros Hc Hv Hlo Hhi.
  destruct x as [s|s| |s m e]; [exact I| | |].
  - destruct s; cbn in Hlo, Hhi; [discriminate Hlo|discriminate Hhi].
  - cbn in Hhi. discriminate Hhi.
  - destruct (valid_digits s m e Hv) as [Hm He].
    assert (H : e < ec \/ e = ec /\ (m <= mc)%positive).
    { unfold SFleb, SFcompare in Hlo, Hhi. destruct s.
      - destruct (Z.compare_spec ec e) as [E|E|E]; [|discriminate Hlo|left; lia].
        right. split; [lia|].
        change (Pos.compare_cont Eq mc m) with (Pos.compare mc m) in Hlo.
        destruct (Pos.compare_spec mc m) as [E'|E'|E']; cbn in Hlo;
          [lia|discriminate Hlo|lia].
      - destruct (Z.compare_spec e ec) as [E|E|E]; [|left; lia|discriminate Hhi].
        right. split; [lia|].
        change (Pos.compare_cont Eq m mc) with (Pos.compare m mc) in Hhi.
        destruct (Pos.compare_spec m mc) as [E'|E'|E']; cbn in Hhi;
          [lia|lia|discriminate Hhi]. }
    destruct H as [H|[-> H]].
    + apply Qle_trans with (inject_Z (2 ^ 53) * bpow e)%Q;
        [apply inject_Z_scaled_le; lia|].
      apply Qle_trans with (inject_Z (2 ^ 52) * bpow (e + 1))%Q.
      * rewrite bpow_add. change (bpow 1) with 2%Q.
        change (inject_Z (2 ^ 53)) with (inject_Z (2 ^ 52) * 2)%Q at 1.
        pose proof (bpow_pos e). lra.
      * apply Qle_trans with (inject_Z (2 ^ 52) * bpow ec)%Q.
        -- apply Qmult_le_l; [reflexivity|]. apply bpow_le. lia.
        -- apply inject_Z_scaled_le. exact Hc.
    + apply inject_Z_scaled_le. lia.
Qed.

(** *** The scale factor 100000.0 *)

Lemma Prim2SF_1e5 : Prim2SF 100000 = SF_1e5.
Proof. reflexivity. Qed.

Lemma SF_1e5_value : (inject_Z 6871947673600000 * bpow (-36) == 100000)%Q.
Proof. reflexivity. Qed.

Lemma bpow_lt_inv (a b : Z) : (bpow a < bpow b)%Q -> a < b.
Proof.
  intros H. destruct (Z_lt_le_dec a b) as [|L]; [assumption|].
  pose proof (bpow_le b a L). lra.
Qed.

(** The product of a number of magnitude at most 180 by 100000.0. *)
Lemma SFmul_1e5 (s : bool) (m : positive) (e : Z) :
  (inject_Z (Z.pos m) * bpow e <= 180)%Q ->
  exists M e' : Z,
    0 <= M /\ e' <= -27
    /\ SFmul prec emax (S754_finite s m e) SF_1e5
       = match M with Z.pos p => S754_finite s p e' | _ => S754_zero s end
    /\ (100000 * (inject_Z (Z.pos m) * bpow e) - 2 * bpow (-27)
        < inject_Z M * bpow e'
        /\ inject_Z M * bpow e'
           <= 100000 * (inject_Z (Z.pos m) * bpow e) + bpow (-27))%Q.
Proof.
  intros HV.
  assert (Hm : (1 <= inject_Z (Z.pos m))%Q).
  { change 1%Q with (inject_Z 1). rewrite <- Zle_Qle. lia. }
  pose proof (bpow_pos e) as Hbe.
  assert (He : e < 8).
  { apply bpow_lt_inv. change (bpow 8) with 256%Q. nra. }
  assert (HX : (inject_Z (Z.pos (m * 6871947673600000)) * bpow (e + -36)
                == 100000 * (inject_Z (Z.pos m) * bpow e))%Q).
  { rewrite Pos2Z.inj_mul, inject_Z_mult, bpow_add.
    rewrite <- SF_1e5_value. ring. }
  unfold SFmul, SF_1e5. rewrite xorb_false_r.
  destruct (binary_round_aux_bounds s (Z.pos (m * 6871947673600000)) (e + -36)
              loc_Exact 25) as (M & e' & HM & He' & Hr & B1 & B2).
  - split; [lia|]. apply lt_bpow_Z; [lia|].
    rewrite HX. change (bpow 25) with 33554432%Q. lra.
  - rewrite fexp64_eq. lia.
  - lia.
  - exists M, e'. rewrite HX in B1, B2.
    change (fexp64 (25 + 1)) with (-27) in *.
    repeat split; assumption.
Qed.

(** *** Conversion of an integer *)

Lemma binary_round_aux_canonical (s : bool) (m : positive) (e : Z) :
  fexp64 (Z.pos (digits2_pos m) + e) = e -> e <= 971 ->
  binary_round_aux prec emax s (Z.pos m) e loc_Exact = S754_finite s m e.
Proof.
  intros Hc He. unfold binary_round_aux, shr_fexp.
  cbn [Zdigits2 shr_record_of_loc].
  change (fexp prec emax (Z.pos (digits2_pos m) + e))
    with (fexp64 (Z.pos (digits2_pos m) + e)).
  rewrite Hc, Z.sub_diag. cbn [shr shr_m loc_of_shr_record round_nearest_even].
  cbn [Zdigits2 shr_record_of_loc].
  change (fexp prec emax (Z.pos (digits2_pos m) + e))
    with (fexp64 (Z.pos (digits2_pos m) + e)).
  rewrite Hc, Z.sub_diag. cbn [shr shr_m].
  assert ((e <=? emax - prec) = true) as ->; [|reflexivity].
  apply Z.leb_le. exact He.
Qed.

Lemma digits2_pos_shift (m d : positive) :
  digits2_pos (Pos.iter xO m d) = (digits2_pos m + d)%positive.
Proof.
  induction d as [|d IH] using Pos.peano_ind.
  - cbn. lia.
  - rewrite Pos.iter_succ. cbn [digits2_pos]. rewrite IH. lia.
Qed.

Lemma Zpos_shift (m d : positive) :
  Z.pos (Pos.iter xO m d) = Z.pos m * 2 ^ Z.pos d.
Proof.
  pose proof (shift_pos_correct d m) as H. unfold shift_pos in H.
  rewrite H. rewrite Z.mul_comm. reflexivity.
Qed.

(** A positive integer below [2^53] converts exactly. *)
Lemma binary_normalize_pos (s : bool) (m : positive) :
  Z.pos (digits2_pos m) < 53 ->
  let k := Z.to_pos (53 - Z.pos (digits2_pos m)) in
  binary_round prec emax s m 0 = S754_finite s (Pos.iter xO m k) (Z.neg k).
Proof.
  intros Hd k. unfold binary_round, shl_align.
  rewrite Z.add_0_r.
  change (fexp prec emax (Z.pos (digits2_pos m)))
    with (fexp64 (Z.pos (digits2_pos m))).
  assert (Hf : fexp64 (Z.pos (digits2_pos m)) = Z.neg k).
  { rewrite fexp64_eq. unfold k. lia. }
  rewrite Hf, Z.sub_0_r.
  apply binary_round_aux_canonical; [|lia].
  rewrite digits2_pos_shift, fexp64_eq. unfold k. lia.
Qed.

(** *** Division by 100000.0 *)

(** The quotient by 100000.0 of a number of magnitude below [2^25]. *)
Lemma SFdiv_1e5 (s : bool) (m : positive) (e : Z) :
  Z.pos (digits2_pos m) + e <= 25 ->
  exists M e' : Z,
    0 <= M
    /\ SFdiv prec emax (S754_finite s m e) SF_1e5
       = match M with Z.pos p => S754_finite s p e' | _ => S754_zero s end
    /\ ((inject_Z (Z.pos m) * bpow e) * (1 # 100000) - 3 * bpow (-43)
        < inject_Z M * bpow e'
        /\ inject_Z M * bpow e'
           <= (inject_Z (Z.pos m) * bpow e) * (1 # 100000) + bpow (-43))%Q.
Proof.
  intros Hd.
  unfold SFdiv, SF_1e5, SFdiv_core_binary. rewrite xorb_false_r.
  cbn [Zdigits2].
  change (Z.pos (digits2_pos 6871947673600000) + -36) with 17.
  change (fexp prec emax (Z.pos (digits2_pos m) + e - 17))
    with (fexp64 (Z.pos (digits2_pos m) + e - 17)).
  set (e1 := Z.min (fexp64 (Z.pos (digits2_pos m) + e - 17)) (e - -36)).
  assert (He1 : e1 <= -45).
  { unfold e1. rewrite fexp64_eq. lia. }
  set (k := e - -36 - e1).
  assert (Hk : 0 <= k) by (unfold k, e1; lia).
  set (m' := match k with
             | 0 => Z.pos m
             | Z.pos _ => Z.shiftl (Z.pos m) k
             | Z.neg _ => 0
             end).
  assert (Hm' : m' = Z.pos m * 2 ^ k).
  { unfold m'. destruct k as [|p|p] eqn:E; [lia| |lia].
    apply Z.shiftl_mul_pow2. lia. }
  pose proof (Z_div_mod m' 6871947673600000 ltac:(lia)) as Hdm.
  destruct (Z.div_eucl m' 6871947673600000) as [q r].
  destruct Hdm as [Hq Hr].
  assert (Hq0 : 0 <= q) by nia.
  (* the quotient, as a rational *)
  set (V := (inject_Z (Z.pos m) * bpow e)%Q).
  assert (HV : (V < 33554432)%Q).
  { destruct (digits2_pos_bounds m) as [_ Hu].
    apply Qlt_le_trans with (inject_Z (2 ^ Z.pos (digits2_pos m)) * bpow e)%Q.
    - apply Qmult_lt_compat_r; [apply bpow_pos|]. rewrite <- Zlt_Qlt. exact Hu.
    - rewrite <- bpow_Z, <- bpow_add by lia.
      change 33554432%Q with (bpow 25). apply bpow_le. lia. }
  assert (HY : (inject_Z q * bpow e1 * 100000 <= V
                /\ V < (inject_Z q * bpow e1 + bpow e1) * 100000)%Q).
  { assert (Hs : (inject_Z m' * bpow (e1 + -36) == V)%Q).
    { rewrite Hm', inject_Z_mult, <- bpow_Z by lia. unfold V.
      rewrite <- Qmult_assoc, <- bpow_add. replace (k + (e1 + -36)) with e by (unfold k; lia).
      reflexivity. }
    assert (H1 : 6871947673600000 * q <= m') by lia.
    assert (H2 : m' < 6871947673600000 * q + 6871947673600000) by lia.
    rewrite Zle_Qle in H1. rewrite Zlt_Qlt in H2.
    rewrite inject_Z_plus, inject_Z_mult in *.
    pose proof (bpow_pos (e1 + -36)) as Hb.
    assert (G1 : (inject_Z 6871947673600000 * inject_Z q * bpow (e1 + -36)
                  <= inject_Z m' * bpow (e1 + -36))%Q)
      by (apply Qmult_le_compat_r; lra).
    assert (G2 : (inject_Z m' * bpow (e1 + -36)
                  < (inject_Z 6871947673600000 * inject_Z q
                     + inject_Z 6871947673600000) * bpow (e1 + -36))%Q)
      by (apply Qmult_lt_compat_r; lra).
    rewrite Hs in G1, G2. rewrite bpow_add in G1, G2.
    rewrite <- SF_1e5_value.
    clearbody V. split; lra. }
  destruct HY as [HY1 HY2].
  pose proof (bpow_le e1 (-45) He1) as Hb45. pose proof (bpow_pos e1) as Hb1.
  destruct (binary_round_aux_bounds s q e1 (new_location 6871947673600000 r) 9)
    as (M & e' & HM & He' & Hres & B1 & B2).
  - split; [exact Hq0|]. apply lt_bpow_Z; [lia|].
    change (bpow 9) with 512%Q. lra.
  - rewrite fexp64_eq. lia.
  - lia.
  - exists M, e'. split; [exact HM|]. split; [exact Hres|].
    change (fexp64 (9 + 1)) with (-43) in *.
    change (bpow (-45)) with (1 # 35184372088832)%Q in Hb45.
    change (bpow (-43)) with (1 # 8796093022208)%Q in *.
    split; lra.
Qed.

(** *** Encode then decode, on one coordinate *)

Lemma SF2Q_finite (s : bool) (m : positive) (e : Z) :
  (SF2Q (S754_finite s m e) == sgn s (inject_Z (Z.pos m) * bpow e))%Q.
Proof.
  unfold SF2Q, sgn. destruct s; cbn [cond_Zopp]; [|reflexivity].
  change (- Z.pos m) with (Z.opp (Z.pos m)). rewrite inject_Z_opp. ring.
Qed.

Lemma SF2Q_result (s : bool) (M e : Z) :
  0 <= M ->
  (SF2Q match M with Z.pos p => S754_finite s p e | _ => S754_zero s end
   == sgn s (inject_Z M * bpow e))%Q.
Proof.
  intros H. destruct M as [|p|p]; [|apply SF2Q_finite|lia].
  unfold SF2Q, sgn. destruct s; ring.
Qed.

Lemma Qabs_sgn_diff (s : bool) (a b : Q) :
  (Qabs (sgn s a - sgn s b) == Qabs (a - b))%Q.
Proof.
  unfold sgn. destruct s; [|reflexivity].
  setoid_replace (- a - - b)%Q with (- (a - b))%Q by ring.
  apply Qabs_opp.
Qed.

Lemma SF_roundtrip_error (s : bool) (m : positive) (e : Z) :
  (inject_Z (Z.pos m) * bpow e <= 180)%Q ->
  let n := SFlround (SFmul prec emax (S754_finite s m e) SF_1e5) in
  -18000000 <= n <= 18000000
  /\ (Qabs (SF2Q (SFmul prec emax (S754_finite s m e) SF_1e5)
            - 100000 * SF2Q (S754_finite s m e)) <= 1 # 67108864)%Q
  /\ (Qabs (SF2Q (SFdiv prec emax (SF_of_Z n) SF_1e5) - SF2Q (S754_finite s m e))
      <= tolerance)%Q.
Proof.
  intros HV n.
  destruct (SFmul_1e5 s m e HV) as (M & ep & HM & Hep & Hp & P1 & P2).
  assert (HP : (Qabs (SF2Q (SFmul prec emax (S754_finite s m e) SF_1e5)
                      - 100000 * SF2Q (S754_finite s m e)) <= 1 # 67108864)%Q).
  { rewrite Hp, SF2Q_result, SF2Q_finite by exact HM.
    setoid_replace (100000 * sgn s (inject_Z (Z.pos m) * bpow e))%Q
      with (sgn s (100000 * (inject_Z (Z.pos m) * bpow e)))%Q
      by (unfold sgn; destruct s; ring).
    rewrite Qabs_sgn_diff. change (bpow (-27)) with (1 # 134217728)%Q in P1, P2.
    apply Qabs_Qle_condition. split; lra. }
  set (V := (inject_Z (Z.pos m) * bpow e)%Q) in *.
  assert (HV0 : (0 < V)%Q).
  { unfold V. pose proof (bpow_pos e).
    assert (0 < inject_Z (Z.pos m))%Q by reflexivity. nra. }
  set (P := (inject_Z M * bpow ep)%Q) in *.
  (* the rounded magnitude *)
  set (a := match M with Z.pos p => round_half_up_pos p ep | _ => 0 end).
  assert (Hn : n = cond_Zopp s a).
  { unfold n, a. rewrite Hp. destruct M as [|p|p]; destruct s; reflexivity. }
  assert (Ha : (inject_Z a <= P + (1 # 2) /\ P + (1 # 2) < inject_Z (a + 1))%Q).
  { unfold a, P. destruct M as [|p|p]; [|apply round_half_up_pos_bounds|lia].
    change (inject_Z 0) with 0%Q. change (inject_Z (0 + 1)) with 1%Q.
    split; lra. }
  destruct Ha as [Ha1 Ha2].
  change (bpow (-27)) with (1 # 134217728)%Q in P1, P2.
  assert (Ha0 : 0 <= a).
  { assert (0 < a + 1); [|lia]. rewrite Zlt_Qlt. change (inject_Z 0) with 0%Q.
    assert (0 <= P)%Q; [|lra]. unfold P. pose proof (bpow_pos ep).
    assert (0 <= inject_Z M)%Q by (change 0%Q with (inject_Z 0); rewrite <- Zle_Qle; lia).
    nra. }
  assert (Ha18 : a <= 18000000).
  { assert (a < 18000001); [|lia]. rewrite Zlt_Qlt.
    change (inject_Z 18000001) with 18000001%Q. lra. }
  split; [rewrite Hn; destruct s; cbn [cond_Zopp]; lia|].
  split; [exact HP|]. clear HP.
  rewrite SF2Q_finite. fold V.
  rewrite inject_Z_plus in Ha2. change (inject_Z 1) with 1%Q in Ha2.
  clearbody a. destruct a as [|b|b]; [| |lia].
  - (* the coordinate rounds to 0 *)
    assert (n = 0) as -> by (rewrite Hn; destruct s; reflexivity).
    cbn [SF_of_Z SFdiv SF_1e5 SF2Q xorb].
    change (inject_Z 0) with 0%Q in *.
    setoid_replace (0 - sgn s V)%Q with (sgn s (0 - V))%Q
      by (unfold sgn; destruct s; ring).
    unfold tolerance, sgn. destruct s; apply Qabs_Qle_condition; split; lra.
  - (* a non-zero fixed-point value *)
    set (k := Z.to_pos (53 - Z.pos (digits2_pos b))).
    assert (Hda : Z.pos (digits2_pos b) <= 25).
    { change (Z.pos (digits2_pos b)) with (Zdigits2 (Z.pos b)).
      apply Zdigits2_le; lia. }
    assert (Hf : SF_of_Z n = S754_finite s (Pos.iter xO b k) (Z.neg k)).
    { rewrite Hn. destruct s; reflexivity. }
    rewrite Hf.
    destruct (SFdiv_1e5 s (Pos.iter xO b k) (Z.neg k))
      as (Md & ed & HMd & Hd & D1 & D2).
    { rewrite digits2_pos_shift. unfold k. lia. }
    rewrite Hd, SF2Q_result by exact HMd. rewrite Qabs_sgn_diff.
    assert (Hval : (inject_Z (Z.pos (Pos.iter xO b k)) * bpow (Z.neg k)
                    == inject_Z (Z.pos b))%Q).
    { rewrite Zpos_shift, inject_Z_mult, <- bpow_Z by lia.
      rewrite <- Qmult_assoc, <- bpow_add.
      change (Z.pos k + Z.neg k) with (Z.pos k - Z.pos k).
      rewrite Z.sub_diag. change (bpow 0) with 1%Q. ring. }
    rewrite Hval in D1, D2.
    change (bpow (-43)) with (1 # 8796093022208)%Q in D1, D2.
    unfold tolerance. apply Qabs_Qle_condition. split; lra.
Qed.

(** *** Primitive floats *)

Lemma Prim2SF_of_uint63 (n : Z) :
  0 <= n < 2 ^ 32 ->
  Prim2SF (PrimFloat.of_uint63 (Uint63.of_Z n))
  = match n with
    | Z.pos a => SF_of_Z (Z.pos a)
    | _ => S754_zero false
    end.
Proof.
  intros Hn. rewrite of_uint63_spec, Uint63.of_Z_spec.
  rewrite Z.mod_small by (change Uint63.wB with (2 ^ 63); lia).
  destruct n as [|a|a]; [reflexivity| |lia].
  unfold binary_normalize, SF_of_Z. apply binary_normalize_pos.
  assert (Zdigits2 (Z.pos a) <= 32) by (apply Zdigits2_le; lia).
  cbn [Zdigits2] in *. lia.
Qed.

Lemma Prim2SF_of_int32 (n : Z) :
  - 2 ^ 31 <= n < 2 ^ 31 -> Prim2SF (of_int32 n) = SF_of_Z n.
Proof.
  intros Hn. unfold of_int32. destruct (n <? 0) eqn:E.
  - rewrite opp_spec, Prim2SF_of_uint63 by lia.
    destruct n as [|a|a]; [lia|lia|]. reflexivity.
  - rewrite Prim2SF_of_uint63 by lia.
    destruct n as [|a|a]; [reflexivity|reflexivity|discriminate E].
Qed.

(** Encoding and decoding one coordinate [x] with [-c <= x <= c], for a
    constant [c] of at most 180. *)
Lemma coordinate_roundtrip (x c : float) (mc : positive) (ec : Z) :
  Prim2SF c = S754_finite false mc ec ->
  2 ^ 52 <= Z.pos mc ->
  (inject_Z (Z.pos mc) * bpow ec <= 180)%Q ->
  PrimFloat.leb (PrimFloat.opp c) x = true ->
  PrimFloat.leb x c = true ->
  let n := lround_Z (x * 100000)%float in
  -18000000 <= n <= 18000000
  /\ is_finite (x * 100000)%float = true
  /\ (Qabs (value (x * 100000)%float - 100000 * value x) <= 1 # 67108864)%Q
  /\ (Qabs (value (of_int32 n / 100000)%float - value x) <= tolerance)%Q.
Proof.
  intros Hc Hmc Hc180 Hlo Hhi n.
  rewrite leb_spec in Hlo, Hhi. rewrite opp_spec, Hc in Hlo. rewrite Hc in Hhi.
  cbn [SFopp negb] in Hlo.
  pose proof (SFleb_abs_bound (Prim2SF x) mc ec Hmc (Prim2SF_valid x) Hlo Hhi)
    as Hx.
  unfold n, lround_Z, value, is_finite.
  rewrite !div_spec, !mul_spec, Prim2SF_1e5.
  unfold SF64mul, SF64div.
  destruct (Prim2SF x) as [s|s| |s m e]; try contradiction.
  - (* a zero *)
    cbn [SFmul SF_1e5 SFlround]. split; [lia|]. split; [reflexivity|].
    rewrite Prim2SF_of_int32 by lia.
    cbn [SF_of_Z SFdiv SF_1e5 SF2Q xorb].
    unfold tolerance. split; apply Qabs_Qle_condition; split; lra.
  - destruct (SF_roundtrip_error s m e) as (Hn & Hprod & Herr).
    { eapply Qle_trans; eauto. }
    split; [exact Hn|]. split.
    { destruct (SFmul_1e5 s m e) as (M & e' & _ & _ & -> & _).
      - eapply Qle_trans; eauto.
      - destruct M; reflexivity. }
    split; [exact Hprod|].
    rewrite Prim2SF_of_int32 by lia. exact Herr.
Qed.

(** ** The fixed-point fields and the round trip *)

Lemma lround_fits (x : float) :
  Int.in_int32 (lround_Z x) -> Double.lround x = lround_Z x.
Proof. intros H. unfold Double.lround. apply to_int32_id. exact H. Qed.

Lemma lround_Z_spec (x : float) : lround_Z x = round_half_away (value x).
Proof. apply SFlround_spec. Qed.

Lemma coordinate_roundtrip_90 (x : float) :
  PrimFloat.leb (-90) x = true -> PrimFloat.leb x 90 = true ->
  -18000000 <= lround_Z (x * 100000)%float <= 18000000
  /\ is_finite (x * 100000)%float = true
  /\ (Qabs (value (x * 100000)%float - 100000 * value x) <= 1 # 67108864)%Q
  /\ (Qabs (value (of_int32 (lround_Z (x * 100000)%float) / 100000)%float
            - value x) <= tolerance)%Q.
Proof.
  intros Hlo Hhi.
  apply (coordinate_roundtrip x 90 6333186975989760 (-46));
    [reflexivity|vm_compute; discriminate|vm_compute; discriminate
    |exact Hlo|exact Hhi].
Qed.

Lemma coordinate_roundtrip_180 (x : float) :
  PrimFloat.leb (-180) x = true -> PrimFloat.leb x 180 = true ->
  -18000000 <= lround_Z (x * 100000)%float <= 18000000
  /\ is_finite (x * 100000)%float = true
  /\ (Qabs (value (x * 100000)%float - 100000 * value x) <= 1 # 67108864)%Q
  /\ (Qabs (value (of_int32 (lround_Z (x * 100000)%float) / 100000)%float
            - value x) <= tolerance)%Q.
Proof.
  intros Hlo Hhi.
  apply (coordinate_roundtrip x 180 6333186975989760 (-45));
    [reflexivity|vm_compute; discriminate|vm_compute; discriminate
    |exact Hlo|exact Hhi].
Qed.

(** C7, as the code has it.  For every valid sample with latitude in
    [-90,90] and longitude in [-180,180], the two fixed-point fields that
    [GPS_buildBinaryPayload] writes are the binary64 products
    [lat * 100000.0] and [lon * 100000.0] rounded to the nearest integer,
    halfway cases away from zero: each field is within 1/2 of the product
    as computed, a product of [k + 1/2] goes to [k + 1] and one of
    [-(k + 1/2)] to [-(k + 1)].  The product is itself rounded to
    binary64 (by at most [2^-26] here), so that the quantization error
    against the original coordinate is at most [tolerance] =
    0.5e-5 + 1e-12 degrees. *)
Theorem GPS_buildBinaryPayload_rounding (info : GpsInfo) (buf : list byte) :
  valid info = true -> length buf = 13%nat ->
  PrimFloat.leb (-90) (lat info) = true -> PrimFloat.leb (lat info) 90 = true ->
  PrimFloat.leb (-180) (lon info) = true -> PrimFloat.leb (lon info) 180 = true ->
  let p_lat := (lat info * 100000)%float in
  let p_lon := (lon info * 100000)%float in
  exists out,
    GPS_buildBinaryPayload info (Some buf) 13 = (13, Some out)
    /\ is_finite p_lat = true /\ is_finite p_lon = true
    /\ Bytes.load_i32 out 5 = round_half_away (value p_lat)
    /\ Bytes.load_i32 out 9 = round_half_away (value p_lon)
    /\ (Qabs (inject_Z (Bytes.load_i32 out 5) - value p_lat) <= 1 # 2)%Q
    /\ (Qabs (inject_Z (Bytes.load_i32 out 9) - value p_lon) <= 1 # 2)%Q
    /\ (Qabs (value p_lat - 100000 * value (lat info)) <= 1 # 67108864)%Q
    /\ (Qabs (value p_lon - 100000 * value (lon info)) <= 1 # 67108864)%Q
    /\ (Qabs (inject_Z (Bytes.load_i32 out 5) * (1 # 100000) - value (lat info))
        <= tolerance)%Q
    /\ (Qabs (inject_Z (Bytes.load_i32 out 9) * (1 # 100000) - value (lon info))
        <= tolerance)%Q
    /\ (forall k, 0 <= k ->
          round_half_away (inject_Z k + (1 # 2)) = k + 1
          /\ round_half_away (- (inject_Z k + (1 # 2))) = - (k + 1)).
Proof.
  intros Hv Hl Hla1 Hla2 Hlo1 Hlo2 p_lat p_lon.
  destruct (coordinate_roundtrip_90 (lat info) Hla1 Hla2) as (Na & Fa & Pa & _).
  destruct (coordinate_roundtrip_180 (lon info) Hlo1 Hlo2) as (No & Fo & Po & _).
  fold p_lat in Na, Fa, Pa. fold p_lon in No, Fo, Po.
  eexists. split; [apply build_ok; [exact Hv|lia|lia]|].
  rewrite frame_lat, frame_lon.
  fold p_lat p_lon.
  rewrite !to_int32_id by apply to_int32_range.
  rewrite !lround_fits by (unfold Int.in_int32; lia).
  rewrite !lround_Z_spec.
  pose proof (round_half_away_error (value p_lat)) as E1.
  pose proof (round_half_away_error (value p_lon)) as E2.
  split; [exact Fa|]. split; [exact Fo|].
  split; [reflexivity|]. split; [reflexivity|].
  split; [exact E1|]. split; [exact E2|].
  split; [exact Pa|]. split; [exact Po|].
  apply Qabs_Qle_condition in E1, E2, Pa, Po. unfold tolerance.
  split; [|split; [|exact round_half_away_tie]];
    apply Qabs_Qle_condition; split; lra.
Qed.

(** The fix at 0.000005, -0.000005 degrees scales to the ties 0.5 and
    -0.5, and is written as 1 and -1. *)
Lemma GPS_buildBinaryPayload_rounding_ties :
  value (lat half_unit_fix * 100000)%float == 1 # 2
  /\ value (lon half_unit_fix * 100000)%float == - (1 # 2)
  /\ exists out,
       GPS_buildBinaryPayload half_unit_fix (Some (repeat x00 13)) 13
       = (13, Some out)
       /\ Bytes.load_i32 out 5 = 1 /\ Bytes.load_i32 out 9 = -1
       /\ (Qabs (inject_Z (Bytes.load_i32 out 5) * (1 # 100000)
                 - value (lat half_unit_fix)) <= tolerance)%Q.
Proof.
  split; [reflexivity|]. split; [reflexivity|].
  destruct (GPS_buildBinaryPayload_rounding half_unit_fix (repeat x00 13)
              eq_refl eq_refl eq_refl eq_refl eq_refl eq_refl)
    as (out & H1 & _ & _ & H2 & H3 & _ & _ & _ & _ & H4 & _).
  exists out. split; [exact H1|]. split; [exact H2|]. split; [exact H3|exact H4].
Defined.

(** C7 as stated fails on its bound: for the latitude 40.416815 (the
    double nearest to it) the exact product by 100000 lies just below the
    tie 4041681.5 and rounds to 4041681, the binary64 product is the tie
    itself, and the field written is 4041682, more than 0.5e-5 degrees
    away from the latitude. *)
Lemma GPS_buildBinaryPayload_double_rounding :
  valid tie_fix = true
  /\ round_half_away (100000 * value (lat tie_fix)) = 4041681
  /\ value (lat tie_fix * 100000)%float == 4041681 + (1 # 2)
  /\ exists out,
       GPS_buildBinaryPayload tie_fix (Some (repeat x00 13)) 13 = (13, Some out)
       /\ Bytes.load_i32 out 5 = 4041682
       /\ ~ (Qabs (inject_Z (Bytes.load_i32 out 5) * (1 # 100000)
                   - value (lat tie_fix)) <= 5 # 1000000)%Q.
Proof.
  split; [reflexivity|].
  split; [vm_compute; reflexivity|].
  split; [vm_compute; reflexivity|].
  eexists.
  split; [vm_compute; reflexivity|].
  split; [vm_compute; reflexivity|].
  intros H. vm_compute in H. apply H. reflexivity.
Qed.

(** C1, as the code has it.  For every sample with valid=true, latitude in
    [-90,90], longitude in [-180,180] and time-of-day in [0,235959],
    encoding it into a 13-byte buffer and decoding the result succeeds
    and reproduces the time-of-day exactly and the latitude and longitude
    each within [tolerance] = 0.5e-5 + 1e-12 degrees of the original. *)
Theorem roundtrip_within_tolerance
    (info out0 : GpsInfo) (buf : list byte) :
  valid info = true ->
  PrimFloat.leb (-90) (lat info) = true -> PrimFloat.leb (lat info) 90 = true ->
  PrimFloat.leb (-180) (lon info) = true -> PrimFloat.leb (lon info) 180 = true ->
  0 <= hhmmss info <= 235959 ->
  length buf = 13%nat ->
  exists bytes out,
    GPS_buildBinaryPayload info (Some buf) 13 = (13, Some bytes)
    /\ GPS_parsePayload (Some bytes) 13 out0 = (true, out)
    /\ valid out = true
    /\ hhmmss out = hhmmss info
    /\ (Qabs (value (lat out) - value (lat info)) <= tolerance)%Q
    /\ (Qabs (value (lon out) - value (lon info)) <= tolerance)%Q.
Proof.
  intros Hv Hla1 Hla2 Hlo1 Hlo2 Hh Hl.
  destruct (coordinate_roundtrip_90 (lat info) Hla1 Hla2) as (Na & _ & _ & Ea).
  destruct (coordinate_roundtrip_180 (lon info) Hlo1 Hlo2) as (No & _ & _ & Eo).
  eexists. eexists.
  split; [apply build_ok; [exact Hv|lia|lia]|].
  split; [apply parse_ok, frame_marker|].
  cbn [valid hhmmss lat lon].
  rewrite frame_hhmmss, frame_lat, frame_lon.
  rewrite !to_int32_id by apply to_int32_range.
  rewrite !lround_fits by (unfold Int.in_int32; lia).
  split; [reflexivity|].
  split; [unfold Int.to_uint32; apply Z.mod_small; lia|].
  split; assumption.
Qed.

(** On the fix at latitude 40.416815 the round trip stays within the
    tolerance. *)
Lemma roundtrip_within_tolerance_tie_fix :
  exists bytes out,
    GPS_buildBinaryPayload tie_fix (Some (repeat x00 13)) 13 = (13, Some bytes)
    /\ GPS_parsePayload (Some bytes) 13 GpsInfo_zero = (true, out)
    /\ valid out = true
    /\ hhmmss out = 211507
    /\ (Qabs (value (lat out) - value (lat tie_fix)) <= tolerance)%Q
    /\ (Qabs (value (lon out) - value (lon tie_fix)) <= tolerance)%Q.
Proof.
  apply (roundtrip_within_tolerance tie_fix GpsInfo_zero (repeat x00 13));
    try reflexivity.
  simpl. lia.
Defined.

(** C1 as stated fails: the latitude 40.416815 (the double nearest to it,
    within [-90,90]) is sent as 4041682 and comes back as 40.41682, which
    is more than 0.5e-5 away from the original, whether the difference is
    taken exactly or computed and compared in binary64. *)
Lemma roundtrip_exceeds_half_unit :
  valid tie_fix = true
  /\ PrimFloat.leb (-90) (lat tie_fix) = true
  /\ PrimFloat.leb (lat tie_fix) 90 = true
  /\ PrimFloat.leb (-180) (lon tie_fix) = true
  /\ PrimFloat.leb (lon tie_fix) 180 = true
  /\ 0 <= hhmmss tie_fix <= 235959
  /\ exists bytes out,
       GPS_buildBinaryPayload tie_fix (Some (repeat x00 13)) 13
       = (13, Some bytes)
       /\ Bytes.load_i32 bytes 5 = 4041682
       /\ GPS_parsePayload (Some bytes) 13 GpsInfo_zero = (true, out)
       /\ lat out = 0x1.4355a5b9628ccp+5%float
       /\ ~ (Qabs (value (lat out) - value (lat tie_fix)) <= 5 # 1000000)%Q
       /\ PrimFloat.leb (PrimFloat.abs (lat out - lat tie_fix))
            0x1.4f8b588e368f1p-18 = false.
Proof.
  do 5 (split; [reflexivity|]).
  split; [vm_compute; split; discriminate|].
  eexists. eexists.
  split; [vm_compute; reflexivity|].
  split; [vm_compute; reflexivity|].
  split; [vm_compute; reflexivity|].
  split; [vm_compute; reflexivity|].
  split; [|vm_compute; reflexivity].
  intros H. vm_compute in H. apply H. reflexivity.
Qed.

(** * Further properties of the firmware *)

(** ** The wire codec, from the frame's side *)

(** *** Binary64 arithmetic on the whole 32-bit range *)

(** The quotient by 100000.0 of a number of magnitude below [2^32]. *)
Lemma SFdiv_1e5_wide (s : bool) (m : positive) (e : Z) :
  Z.pos (digits2_pos m) + e <= 32 ->
  exists M e' : Z,
    0 <= M
    /\ SFdiv prec emax (S754_finite s m e) SF_1e5
       = match M with Z.pos p => S754_finite s p e' | _ => S754_zero s end
    /\ ((inject_Z (Z.pos m) * bpow e) * (1 # 100000) - 3 * bpow (-36)
        < inject_Z M * bpow e'
        /\ inject_Z M * bpow e'
           <= (inject_Z (Z.pos m) * bpow e) * (1 # 100000) + bpow (-36))%Q.
Proof.
  intros Hd.
  unfold SFdiv, SF_1e5, SFdiv_core_binary. rewrite xorb_false_r.
  cbn [Zdigits2].
  change (Z.pos (digits2_pos 6871947673600000) + -36) with 17.
  change (fexp prec emax (Z.pos (digits2_pos m) + e - 17))
    with (fexp64 (Z.pos (digits2_pos m) + e - 17)).
  set (e1 := Z.min (fexp64 (Z.pos (digits2_pos m) + e - 17)) (e - -36)).
  assert (He1 : e1 <= -38).
  { unfold e1. rewrite fexp64_eq. lia. }
  set (k := e - -36 - e1).
  assert (Hk : 0 <= k) by (unfold k, e1; lia).
  set (m' := match k with
             | 0 => Z.pos m
             | Z.pos _ => Z.shiftl (Z.pos m) k
             | Z.neg _ => 0
             end).
  assert (Hm' : m' = Z.pos m * 2 ^ k).
  { unfold m'. destruct k as [|p|p] eqn:E; [lia| |lia].
    apply Z.shiftl_mul_pow2. lia. }
  pose proof (Z_div_mod m' 6871947673600000 ltac:(lia)) as Hdm.
  destruct (Z.div_eucl m' 6871947673600000) as [q r].
  destruct Hdm as [Hq Hr].
  assert (Hq0 : 0 <= q) by nia.
  set (V := (inject_Z (Z.pos m) * bpow e)%Q).
  assert (HV : (V < 4294967296)%Q).
  { destruct (digits2_pos_bounds m) as [_ Hu].
    apply Qlt_le_trans with (inject_Z (2 ^ Z.pos (digits2_pos m)) * bpow e)%Q.
    - apply Qmult_lt_compat_r; [apply bpow_pos|]. rewrite <- Zlt_Qlt. exact Hu.
    - rewrite <- bpow_Z, <- bpow_add by lia.
      change 4294967296%Q with (bpow 32). apply bpow_le. lia. }
  assert (HY : (inject_Z q * bpow e1 * 100000 <= V
                /\ V < (inject_Z q * bpow e1 + bpow e1) * 100000)%Q).
  { assert (Hs : (inject_Z m' * bpow (e1 + -36) == V)%Q).
    { rewrite Hm', inject_Z_mult, <- bpow_Z by lia. unfold V.
      rewrite <- Qmult_assoc, <- bpow_add. replace (k + (e1 + -36)) with e by (unfold k; lia).
      reflexivity. }
    assert (H1 : 6871947673600000 * q <= m') by lia.
    assert (H2 : m' < 6871947673600000 * q + 6871947673600000) by lia.
    rewrite Zle_Qle in H1. rewrite Zlt_Qlt in H2.
    rewrite inject_Z_plus, inject_Z_mult in *.
    pose proof (bpow_pos (e1 + -36)) as Hb.
    assert (G1 : (inject_Z 6871947673600000 * inject_Z q * bpow (e1 + -36)
                  <= inject_Z m' * bpow (e1 + -36))%Q)
      by (apply Qmult_le_compat_r; lra).
    assert (G2 : (inject_Z m' * bpow (e1 + -36)
                  < (inject_Z 6871947673600000 * inject_Z q
                     + inject_Z 6871947673600000) * bpow (e1 + -36))%Q)
      by (apply Qmult_lt_compat_r; lra).
    rewrite Hs in G1, G2. rewrite bpow_add in G1, G2.
    rewrite <- SF_1e5_value.
    clearbody V. split; lra. }
  destruct HY as [HY1 HY2].
  pose proof (bpow_le e1 (-38) He1) as Hb38. pose proof (bpow_pos e1) as Hb1.
  destruct (binary_round_aux_bounds s q e1 (new_location 6871947673600000 r) 16)
    as (M & e' & HM & He' & Hres & B1 & B2).
  - split; [exact Hq0|]. apply lt_bpow_Z; [lia|].
    change (bpow 16) with 65536%Q. lra.
  - rewrite fexp64_eq. lia.
  - lia.
  - exists M, e'. split; [exact HM|]. split; [exact Hres|].
    change (fexp64 (16 + 1)) with (-36) in *.
    change (bpow (-38)) with (1 # 274877906944)%Q in Hb38.
    change (bpow (-36)) with (1 # 68719476736)%Q in *.
    split; lra.
Qed.

(** The product by 100000.0 of a number of magnitude at most 21475. *)
Lemma SFmul_1e5_wide (s : bool) (m : positive) (e : Z) :
  (inject_Z (Z.pos m) * bpow e <= 21475)%Q ->
  exists M e' : Z,
    0 <= M
    /\ SFmul prec emax (S754_finite s m e) SF_1e5
       = match M with Z.pos p => S754_finite s p e' | _ => S754_zero s end
    /\ (100000 * (inject_Z (Z.pos m) * bpow e) - 2 * bpow (-20)
        < inject_Z M * bpow e'
        /\ inject_Z M * bpow e'
           <= 100000 * (inject_Z (Z.pos m) * bpow e) + bpow (-20))%Q.
Proof.
  intros HV.
  assert (Hm : (1 <= inject_Z (Z.pos m))%Q).
  { change 1%Q with (inject_Z 1). rewrite <- Zle_Qle. lia. }
  pose proof (bpow_pos e) as Hbe.
  assert (He : e < 15).
  { apply bpow_lt_inv. change (bpow 15) with 32768%Q. nra. }
  assert (HX : (inject_Z (Z.pos (m * 6871947673600000)) * bpow (e + -36)
                == 100000 * (inject_Z (Z.pos m) * bpow e))%Q).
  { rewrite Pos2Z.inj_mul, inject_Z_mult, bpow_add.
    rewrite <- SF_1e5_value. ring. }
  unfold SFmul, SF_1e5. rewrite xorb_false_r.
  destruct (binary_round_aux_bounds s (Z.pos (m * 6871947673600000)) (e + -36)
              loc_Exact 32) as (M & e' & HM & He' & Hr & B1 & B2).
  - split; [lia|]. apply lt_bpow_Z; [lia|].
    rewrite HX. change (bpow 32) with 4294967296%Q. lra.
  - rewrite fexp64_eq. lia.
  - lia.
  - exists M, e'. rewrite HX in B1, B2.
    change (fexp64 (32 + 1)) with (-20) in *.
    repeat split; assumption.
Qed.

(** The double of a non-zero 32-bit magnitude, divided by 100000.0. *)
Lemma SFdiv_of_pos (s : bool) (a : positive) :
  Z.pos a <= 2 ^ 31 ->
  let k := Z.to_pos (53 - Z.pos (digits2_pos a)) in
  exists (p : positive) (e' : Z),
    SFdiv prec emax (S754_finite s (Pos.iter xO a k) (Z.neg k)) SF_1e5
    = S754_finite s p e'
    /\ (inject_Z (Z.pos a) * (1 # 100000) - 3 * bpow (-36)
        < inject_Z (Z.pos p) * bpow e'
        /\ inject_Z (Z.pos p) * bpow e'
           <= inject_Z (Z.pos a) * (1 # 100000) + bpow (-36))%Q.
Proof.
  intros Ha k.
  assert (Hda : Z.pos (digits2_pos a) <= 32).
  { change (Z.pos (digits2_pos a)) with (Zdigits2 (Z.pos a)).
    apply Zdigits2_le; lia. }
  destruct (SFdiv_1e5_wide s (Pos.iter xO a k) (Z.neg k))
    as (M & e' & HM & Hd & D1 & D2).
  { rewrite digits2_pos_shift. unfold k. lia. }
  assert (Hval : (inject_Z (Z.pos (Pos.iter xO a k)) * bpow (Z.neg k)
                  == inject_Z (Z.pos a))%Q).
  { rewrite Zpos_shift, inject_Z_mult, <- bpow_Z by lia.
    rewrite <- Qmult_assoc, <- bpow_add.
    change (Z.pos k + Z.neg k) with (Z.pos k - Z.pos k).
    rewrite Z.sub_diag. change (bpow 0) with 1%Q. ring. }
  rewrite Hval in D1, D2.
  assert (H1 : (1 <= inject_Z (Z.pos a))%Q).
  { change 1%Q with (inject_Z 1). rewrite <- Zle_Qle. lia. }
  change (bpow (-36)) with (1 # 68719476736)%Q in *.
  destruct M as [|p|p]; [|exists p, e'; repeat split; assumption|lia].
  exfalso. change (inject_Z 0) with 0%Q in D1. lra.
Qed.

(** Decoding a fixed-point value and encoding it again gives it back. *)
Lemma SF_reencode (n : Z) :
  - 2 ^ 31 <= n < 2 ^ 31 ->
  SFlround (SFmul prec emax (SFdiv prec emax (SF_of_Z n) SF_1e5) SF_1e5) = n.
Proof.
  intros Hn.
  assert (G : forall s a, Z.pos a <= 2 ^ 31 ->
                SFlround (SFmul prec emax
                            (SFdiv prec emax (SF_of_Z (cond_Zopp s (Z.pos a))) SF_1e5)
                            SF_1e5)
                = cond_Zopp s (Z.pos a)).
  { intros s a Ha.
    assert (Hf : SF_of_Z (cond_Zopp s (Z.pos a))
                 = S754_finite s (Pos.iter xO a (Z.to_pos (53 - Z.pos (digits2_pos a))))
                     (Z.neg (Z.to_pos (53 - Z.pos (digits2_pos a)))))
      by (destruct s; reflexivity).
    rewrite Hf.
    destruct (SFdiv_of_pos s a Ha) as (p & e' & -> & D1 & D2).
    assert (HA : (inject_Z (Z.pos a) <= 2147483648)%Q).
    { change 2147483648%Q with (inject_Z (2 ^ 31)). rewrite <- Zle_Qle. exact Ha. }
    change (bpow (-36)) with (1 # 68719476736)%Q in *.
    destruct (SFmul_1e5_wide s p e') as (M & em & HM & -> & P1 & P2); [lra|].
    change (bpow (-20)) with (1 # 1048576)%Q in *.
    set (X := (inject_Z (Z.pos p) * bpow e')%Q) in *.
    set (P := (inject_Z M * bpow em)%Q) in *.
    set (r := match M with Z.pos q => round_half_up_pos q em | _ => 0 end).
    assert (Hr : (inject_Z r <= P + (1 # 2) /\ P + (1 # 2) < inject_Z (r + 1))%Q).
    { unfold r, P. destruct M as [|q|q]; [|apply round_half_up_pos_bounds|lia].
      change (inject_Z 0) with 0%Q. change (inject_Z (0 + 1)) with 1%Q.
      split; lra. }
    assert (Hres : SFlround match M with
                            | Z.pos q => S754_finite s q em
                            | _ => S754_zero s
                            end = cond_Zopp s r).
    { unfold r. destruct M as [|q|q]; destruct s; reflexivity. }
    rewrite Hres. f_equal.
    destruct Hr as [R1 R2].
    rewrite inject_Z_plus in R2. change (inject_Z 1) with 1%Q in R2.
    clearbody X P r.
    assert (r < Z.pos a + 1).
    { rewrite Zlt_Qlt, inject_Z_plus. change (inject_Z 1) with 1%Q. lra. }
    assert (Z.pos a < r + 1).
    { rewrite Zlt_Qlt, inject_Z_plus. change (inject_Z 1) with 1%Q. lra. }
    lia. }
  destruct n as [|a|a].
  - reflexivity.
  - apply (G false a). lia.
  - apply (G true a). lia.
Qed.

(** What a decoded coordinate is: a zero or a finite number, of magnitude
    at most 21475. *)
Lemma SF_decoded_finite (n : Z) :
  - 2 ^ 31 <= n < 2 ^ 31 ->
  match SFdiv prec emax (SF_of_Z n) SF_1e5 with
  | S754_zero _ => True
  | S754_finite _ _ _ => True
  | _ => False
  end
  /\ (Qabs (SF2Q (SFdiv prec emax (SF_of_Z n) SF_1e5) - inject_Z n * (1 # 100000))
      <= 3 # 68719476736)%Q.
Proof.
  intros Hn.
  assert (G : forall s a, Z.pos a <= 2 ^ 31 ->
     match SFdiv prec emax (SF_of_Z (cond_Zopp s (Z.pos a))) SF_1e5 with
     | S754_zero _ => True
     | S754_finite _ _ _ => True
     | _ => False
     end
     /\ (Qabs (SF2Q (SFdiv prec emax (SF_of_Z (cond_Zopp s (Z.pos a))) SF_1e5)
               - inject_Z (cond_Zopp s (Z.pos a)) * (1 # 100000))
         <= 3 # 68719476736)%Q).
  { intros s a Ha.
    assert (Hf : SF_of_Z (cond_Zopp s (Z.pos a))
                 = S754_finite s (Pos.iter xO a (Z.to_pos (53 - Z.pos (digits2_pos a))))
                     (Z.neg (Z.to_pos (53 - Z.pos (digits2_pos a)))))
      by (destruct s; reflexivity).
    rewrite Hf.
    destruct (SFdiv_of_pos s a Ha) as (p & e' & -> & D1 & D2).
    split; [exact I|].
    rewrite SF2Q_finite.
    setoid_replace (inject_Z (cond_Zopp s (Z.pos a)) * (1 # 100000))%Q
      with (sgn s (inject_Z (Z.pos a) * (1 # 100000)))%Q.
    2:{ unfold sgn. destruct s; cbn [cond_Zopp]; [|reflexivity].
        change (- Z.pos a) with (Z.opp (Z.pos a)). rewrite inject_Z_opp. ring. }
    rewrite Qabs_sgn_diff.
    change (bpow (-36)) with (1 # 68719476736)%Q in *.
    apply Qabs_Qle_condition. split; lra. }
  destruct n as [|a|a].
  - split; [exact I|]. vm_compute. discriminate.
  - apply (G false a). lia.
  - apply (G true a). lia.
Qed.

(** *** Decode then encode *)

Lemma byte_of_Z_mod (x : Z) : Bytes.byte_of_Z (x mod 256) = Bytes.byte_of_Z x.
Proof. unfold Bytes.byte_of_Z. rewrite Z.mod_mod by lia. reflexivity. Qed.

(** The bytes of a word depend on its residue modulo [2^32] only. *)
Lemma le32_mod (x : Z) : Bytes.le32 (x mod 2 ^ 32) = Bytes.le32 x.
Proof.
  assert (H : forall k, 0 <= k <= 24 ->
              Bytes.byte_of_Z ((x mod 2 ^ 32) / 2 ^ k) = Bytes.byte_of_Z (x / 2 ^ k)).
  { intros k Hk. rewrite <- byte_of_Z_mod, <- (byte_of_Z_mod (x / 2 ^ k)).
    f_equal.
    rewrite <- !Z.shiftr_div_pow2 by lia.
    change 256 with (2 ^ 8). rewrite <- !Z.land_ones by lia.
    apply Z.bits_inj'. intros i Hi.
    rewrite !Z.land_spec, !Z.shiftr_spec, Z.land_spec by lia.
    destruct (Z.ltb_spec i 8) as [L|L].
    - rewrite (Z.ones_spec_low 32) by lia. rewrite andb_true_r. reflexivity.
    - rewrite (Z.ones_spec_high 8) by lia. rewrite !andb_false_r. reflexivity. }
  unfold Bytes.le32.
  rewrite (H 8), (H 16), (H 24) by lia.
  pose proof (H 0 ltac:(lia)) as H0.
  rewrite Z.pow_0_r, !Z.div_1_r in H0. rewrite H0. reflexivity.
Qed.

Lemma le32_to_int32 (x : Z) : Bytes.le32 (Int.to_int32 x) = Bytes.le32 x.
Proof.
  rewrite <- (le32_mod (Int.to_int32 x)), <- (le32_mod x). f_equal.
  unfold Int.to_int32.
  rewrite Zminus_mod_idemp_l.
  replace (x + 2 ^ 31 - 2 ^ 31) with x by lia. reflexivity.
Qed.

(** The four bytes of the word that four bytes make up. *)
Lemma le32_of_bytes (c0 c1 c2 c3 : byte) :
  Bytes.le32 (Bytes.byte_to_Z c0 + 2 ^ 8 * Bytes.byte_to_Z c1
              + 2 ^ 16 * Bytes.byte_to_Z c2 + 2 ^ 24 * Bytes.byte_to_Z c3)
  = [c0; c1; c2; c3].
Proof.
  unfold Bytes.le32.
  pose proof (byte_to_Z_range c0) as H0.
  pose proof (byte_to_Z_range c1) as H1.
  pose proof (byte_to_Z_range c2) as H2.
  pose proof (byte_to_Z_range c3) as H3.
  set (b0 := Bytes.byte_to_Z c0) in *.
  set (b1 := Bytes.byte_to_Z c1) in *.
  set (b2 := Bytes.byte_to_Z c2) in *.
  set (b3 := Bytes.byte_to_Z c3) in *.
  set (w := b0 + 2 ^ 8 * b1 + 2 ^ 16 * b2 + 2 ^ 24 * b3).
  rewrite <- (byte_of_Z_mod w), <- (byte_of_Z_mod (w / 2 ^ 8)),
    <- (byte_of_Z_mod (w / 2 ^ 16)), <- (byte_of_Z_mod (w / 2 ^ 24)).
  assert (E0 : w mod 256 = b0).
  { unfold w.
    replace (b0 + 2 ^ 8 * b1 + 2 ^ 16 * b2 + 2 ^ 24 * b3)
      with (b0 + (b1 + 256 * b2 + 65536 * b3) * 256) by lia.
    rewrite Z.mod_add by lia. apply Z.mod_small. lia. }
  assert (E1 : (w / 2 ^ 8) mod 256 = b1).
  { unfold w.
    replace (b0 + 2 ^ 8 * b1 + 2 ^ 16 * b2 + 2 ^ 24 * b3)
      with (b0 + (b1 + 256 * b2 + 65536 * b3) * 2 ^ 8) by lia.
    rewrite Z.div_add by lia. rewrite (Z.div_small b0) by lia.
    replace (0 + (b1 + 256 * b2 + 65536 * b3))
      with (b1 + (b2 + 256 * b3) * 256) by lia.
    rewrite Z.mod_add by lia. apply Z.mod_small. lia. }
  assert (E2 : (w / 2 ^ 16) mod 256 = b2).
  { unfold w.
    replace (b0 + 2 ^ 8 * b1 + 2 ^ 16 * b2 + 2 ^ 24 * b3)
      with (b0 + 256 * b1 + (b2 + 256 * b3) * 2 ^ 16) by lia.
    rewrite Z.div_add by lia. rewrite (Z.div_small (b0 + 256 * b1)) by lia.
    replace (0 + (b2 + 256 * b3)) with (b2 + b3 * 256) by lia.
    rewrite Z.mod_add by lia. apply Z.mod_small. lia. }
  assert (E3 : (w / 2 ^ 24) mod 256 = b3).
  { unfold w.
    replace (b0 + 2 ^ 8 * b1 + 2 ^ 16 * b2 + 2 ^ 24 * b3)
      with (b0 + 256 * b1 + 65536 * b2 + b3 * 2 ^ 24) by lia.
    rewrite Z.div_add by lia.
    rewrite (Z.div_small (b0 + 256 * b1 + 65536 * b2)) by lia.
    apply Z.mod_small. lia. }
  rewrite E0, E1, E2, E3. unfold b0, b1, b2, b3.
  rewrite !byte_of_to_Z. reflexivity.
Qed.

(** Writing back the word read at [off] writes the four bytes found there. *)
Lemma le32_load_u32 (buf : list byte) (off : nat) :
  Bytes.le32 (Bytes.load_u32 buf off)
  = [Bytes.get buf off; Bytes.get buf (off + 1);
     Bytes.get buf (off + 2); Bytes.get buf (off + 3)].
Proof. apply le32_of_bytes. Qed.

Lemma load_i32_range (buf : list byte) (off : nat) :
  - 2 ^ 31 <= Bytes.load_i32 buf off < 2 ^ 31.
Proof. apply to_int32_range. Qed.

(** The frame made of the three fields read from a 13-byte buffer whose
    first byte is 1 is that buffer. *)
Lemma frame_of_fields (buf : list byte) :
  length buf = 13%nat -> Bytes.get buf 0 = x01 ->
  frame (Bytes.load_u32 buf 1) (Bytes.load_i32 buf 5) (Bytes.load_i32 buf 9) = buf.
Proof.
  intros Hl Hm. unfold frame, Bytes.load_i32.
  rewrite !le32_to_int32, !le32_load_u32.
  do 13 (destruct buf as [|? buf]; [discriminate Hl|]).
  destruct buf; [|discriminate Hl].
  cbn in Hm. subst. reflexivity.
Qed.

(** Decoding a fixed-point field and encoding the result gives the field. *)
Lemma lround_of_int32 (n : Z) :
  - 2 ^ 31 <= n < 2 ^ 31 ->
  Double.lround (of_int32 n / 100000 * 100000)%float = n.
Proof.
  intros Hn. unfold Double.lround, lround_Z.
  rewrite mul_spec, div_spec, Prim2SF_1e5, Prim2SF_of_int32 by exact Hn.
  unfold SF64mul, SF64div. rewrite SF_reencode by exact Hn.
  apply to_int32_id. exact Hn.
Qed.

(** X1. Decoding loses nothing of a frame: for every 13-byte frame whose
    first byte is 1, [GPS_parsePayload] succeeds and
    [GPS_buildBinaryPayload] on the decoded sample writes the same 13
    bytes again, whatever the three fields hold, the bytes of the
    destination from 13 on untouched. *)
Theorem GPS_parsePayload_then_build (buf dst : list byte) (out0 : GpsInfo) :
  length buf = 13%nat -> Bytes.get buf 0 = x01 -> (13 <= length dst)%nat ->
  exists out,
    GPS_parsePayload (Some buf) 13 out0 = (true, out)
    /\ GPS_buildBinaryPayload out (Some dst) 13 = (13, Some (buf ++ skipn 13 dst)).
Proof.
  intros Hl Hm Hd. eexists. split; [apply parse_ok; exact Hm|].
  rewrite build_ok by (try reflexivity; try lia; exact Hd).
  cbn [lat lon hhmmss].
  rewrite !lround_of_int32 by apply load_i32_range.
  rewrite frame_of_fields by assumption. reflexivity.
Qed.

(** The frame of the scenario decodes and encodes to itself. *)
Lemma GPS_parsePayload_then_build_madrid :
  exists out,
    GPS_parsePayload (Some madrid_frame) 13 GpsInfo_zero = (true, out)
    /\ GPS_buildBinaryPayload out (Some (repeat x00 13)) 13
       = (13, Some (madrid_frame ++ skipn 13 (repeat x00 13))).
Proof.
  apply (GPS_parsePayload_then_build madrid_frame (repeat x00 13) GpsInfo_zero);
    [reflexivity|reflexivity|simpl; lia].
Defined.

(** *** The decoded sample *)

Lemma decoded_coordinate (n : Z) :
  - 2 ^ 31 <= n < 2 ^ 31 ->
  is_finite (of_int32 n / 100000)%float = true
  /\ (Qabs (value (of_int32 n / 100000)%float - inject_Z n * (1 # 100000))
      <= 3 # 68719476736)%Q
  /\ (Qabs (value (of_int32 n / 100000)%float) <= 21475)%Q.
Proof.
  intros Hn. unfold is_finite, value.
  rewrite div_spec, Prim2SF_1e5, Prim2SF_of_int32 by exact Hn.
  unfold SF64div.
  destruct (SF_decoded_finite n Hn) as [Hf He].
  split; [|split].
  - destruct (SFdiv prec emax (SF_of_Z n) SF_1e5); try reflexivity; contradiction.
  - exact He.
  - set (v := SF2Q (SFdiv prec emax (SF_of_Z n) SF_1e5)) in *. clearbody v.
    assert (H1 : (- (2147483648) <= inject_Z n)%Q).
    { change (- (2147483648))%Q with (inject_Z (- 2 ^ 31)). rewrite <- Zle_Qle. lia. }
    assert (H2 : (inject_Z n <= 2147483648)%Q).
    { change 2147483648%Q with (inject_Z (2 ^ 31)). rewrite <- Zle_Qle. lia. }
    apply Qabs_Qle_condition in He. destruct He as [He1 He2].
    apply Qabs_Qle_condition. split; lra.
Qed.

(** X2. Whatever a frame holds, the sample decoded from it is made of
    numbers: for every buffer of 13 bytes whose first byte is 1, the
    latitude and the longitude that [GPS_parsePayload] hands out are
    finite doubles (no NaN, no infinity), each within [3 * 2^-36] of its
    32-bit field divided by 100000 and of magnitude at most 21475, and the
    time-of-day is below [2^32]. *)
Theorem GPS_parsePayload_finite (buf : list byte) (out0 : GpsInfo) :
  (13 <= length buf)%nat -> Bytes.get buf 0 = x01 ->
  let out := snd (GPS_parsePayload (Some buf) 13 out0) in
  is_finite (lat out) = true /\ is_finite (lon out) = true
  /\ (Qabs (value (lat out) - inject_Z (Bytes.load_i32 buf 5) * (1 # 100000))
      <= 3 # 68719476736)%Q
  /\ (Qabs (value (lon out) - inject_Z (Bytes.load_i32 buf 9) * (1 # 100000))
      <= 3 # 68719476736)%Q
  /\ (Qabs (value (lat out)) <= 21475)%Q
  /\ (Qabs (value (lon out)) <= 21475)%Q
  /\ 0 <= hhmmss out < 2 ^ 32.
Proof.
  intros _ Hm. cbv zeta. rewrite (parse_ok _ _ Hm). cbn [snd lat lon hhmmss].
  destruct (decoded_coordinate (Bytes.load_i32 buf 5) (load_i32_range buf 5))
    as (A1 & A2 & A3).
  destruct (decoded_coordinate (Bytes.load_i32 buf 9) (load_i32_range buf 9))
    as (B1 & B2 & B3).
  split; [exact A1|]. split; [exact B1|]. split; [exact A2|].
  split; [exact B2|]. split; [exact A3|]. split; [exact B3|].
  unfold Bytes.load_u32.
  pose proof (byte_to_Z_range (Bytes.get buf 1)).
  pose proof (byte_to_Z_range (Bytes.get buf (1 + 1))).
  pose proof (byte_to_Z_range (Bytes.get buf (1 + 2))).
  pose proof (byte_to_Z_range (Bytes.get buf (1 + 3))).
  lia.
Qed.

(** The frame with out-of-range fields decodes to finite numbers too. *)
Lemma GPS_parsePayload_finite_wild :
  is_finite (lat (snd (GPS_parsePayload (Some wild_frame) 13 GpsInfo_zero))) = true
  /\ (Qabs (value (lon (snd (GPS_parsePayload (Some wild_frame) 13 GpsInfo_zero))))
      <= 21475)%Q.
Proof.
  destruct (GPS_parsePayload_finite wild_frame GpsInfo_zero)
    as (H1 & _ & _ & _ & _ & H6 & _); [simpl; lia|reflexivity|].
  split; [exact H1|exact H6].
Defined.

(** *** The opposite coordinates *)

(** Rounding to binary64 does not look at the sign. *)
Lemma binary_round_aux_opp (s : bool) (m e : Z) (l : location) :
  binary_round_aux prec emax (negb s) m e l
  = SFopp (binary_round_aux prec emax s m e l).
Proof.
  unfold binary_round_aux.
  destruct (shr_fexp prec emax m e l) as [r1 e1].
  destruct (shr_fexp prec emax _ e1 loc_Exact) as [r2 e2].
  destruct (shr_m r2); [reflexivity| |reflexivity].
  destruct (e2 <=? emax - prec); reflexivity.
Qed.

Lemma SFmul_1e5_opp (x : spec_float) :
  SFmul prec emax (SFopp x) SF_1e5 = SFopp (SFmul prec emax x SF_1e5).
Proof.
  destruct x as [s|s| |s m e];
    [destruct s; reflexivity|destruct s; reflexivity|reflexivity|].
  unfold SFopp at 1, SFmul, SF_1e5. rewrite !xorb_false_r.
  apply binary_round_aux_opp.
Qed.

Lemma SFlround_opp (x : spec_float) : SFlround (SFopp x) = - SFlround x.
Proof.
  destruct x as [s|s| |s m e]; try reflexivity.
  cbn [SFopp SFlround]. destruct s; cbn [negb cond_Zopp]; lia.
Qed.

(** The field of the opposite coordinate, before the conversion to 32
    bits, is the opposite field. *)
Lemma lround_Z_opp (x : float) :
  lround_Z (- x * 100000)%float = - lround_Z (x * 100000)%float.
Proof.
  unfold lround_Z. rewrite !mul_spec, opp_spec, Prim2SF_1e5.
  unfold SF64mul. rewrite SFmul_1e5_opp. apply SFlround_opp.
Qed.

(** X3. The encoder treats the two hemispheres alike: for a valid sample
    with latitude in [-90,90] and longitude in [-180,180], the fields that
    [GPS_buildBinaryPayload] writes for the opposite latitude and
    longitude are the opposites of the fields it writes for the sample,
    and the time-of-day field is the same. *)
Theorem GPS_buildBinaryPayload_mirror (info : GpsInfo) (buf : list byte) :
  valid info = true -> length buf = 13%nat ->
  PrimFloat.leb (-90) (lat info) = true -> PrimFloat.leb (lat info) 90 = true ->
  PrimFloat.leb (-180) (lon info) = true -> PrimFloat.leb (lon info) 180 = true ->
  exists out out',
    GPS_buildBinaryPayload info (Some buf) 13 = (13, Some out)
    /\ GPS_buildBinaryPayload (mirrored info) (Some buf) 13 = (13, Some out')
    /\ Bytes.load_i32 out' 5 = - Bytes.load_i32 out 5
    /\ Bytes.load_i32 out' 9 = - Bytes.load_i32 out 9
    /\ Bytes.load_u32 out' 1 = Bytes.load_u32 out 1.
Proof.
  intros Hv Hl Hla1 Hla2 Hlo1 Hlo2.
  destruct (coordinate_roundtrip_90 (lat info) Hla1 Hla2) as (Na & _).
  destruct (coordinate_roundtrip_180 (lon info) Hlo1 Hlo2) as (No & _).
  eexists. eexists.
  split; [apply build_ok; [exact Hv|lia|lia]|].
  split; [apply build_ok; [exact Hv|lia|lia]|].
  cbn [mirrored lat lon hhmmss].
  rewrite !frame_hhmmss, !frame_lat, !frame_lon.
  rewrite !to_int32_id by apply to_int32_range.
  rewrite (lround_fits (lat info * 100000)%float) by (unfold Int.in_int32; lia).
  rewrite (lround_fits (lon info * 100000)%float) by (unfold Int.in_int32; lia).
  rewrite !lround_fits by (rewrite lround_Z_opp; unfold Int.in_int32; lia).
  rewrite !lround_Z_opp. repeat split.
Qed.

(** The scenario's position and its opposite. *)
Lemma GPS_buildBinaryPayload_mirror_madrid :
  exists out out',
    GPS_buildBinaryPayload madrid (Some (repeat x00 13)) 13 = (13, Some out)
    /\ GPS_buildBinaryPayload (mirrored madrid) (Some (repeat x00 13)) 13
       = (13, Some out')
    /\ Bytes.load_i32 out' 5 = - Bytes.load_i32 out 5
    /\ Bytes.load_i32 out' 9 = - Bytes.load_i32 out 9
    /\ Bytes.load_u32 out' 1 = Bytes.load_u32 out 1.
Proof.
  apply (GPS_buildBinaryPayload_mirror madrid (repeat x00 13)); reflexivity.
Defined.

(** ** The pet node as a whole *)

Lemma to_uint32_id (x : Z) : 0 <= x < 2 ^ 32 -> Int.to_uint32 x = x.
Proof. intros H. unfold Int.to_uint32. apply Z.mod_small. exact H. Qed.

Lemma to_uint32_range (x : Z) : 0 <= Int.to_uint32 x < 2 ^ 32.
Proof. unfold Int.to_uint32. apply Z.mod_pos_bound. lia. Qed.

Lemma getInfo_hhmmss_range (gps : TinyGPS) :
  0 <= hhmmss (GPS_getInfo gps) < 2 ^ 32.
Proof.
  unfold GPS_getInfo. destruct (_ && _); cbn [hhmmss GpsInfo_zero].
  - apply to_uint32_range.
  - lia.
Qed.

(** X4. With a fix, the time-of-day that [GPS_getInfo] hands out is
    [hour * 10000 + minute * 100 + second] with no wrap-around, for the
    parser's [uint8_t] hour and two-digit minute and second; the three
    are read back from it by division, and the seconds that [loop]
    extracts as [(uint8_t)(hhmmss % 100)] are the parser's.  A time of day
    up to 23:59:59 gives at most 235959. *)
Theorem GPS_getInfo_time_digits (gps : TinyGPS) :
  GPS_hasFix gps = true ->
  0 <= time_hour gps < 256 -> 0 <= time_minute gps < 100 ->
  0 <= time_second gps < 100 ->
  let t := hhmmss (GPS_getInfo gps) in
  t = time_hour gps * 10000 + time_minute gps * 100 + time_second gps
  /\ t / 10000 = time_hour gps
  /\ (t / 100) mod 100 = time_minute gps
  /\ t mod 100 = time_second gps
  /\ Int.to_uint8 (t mod 100) = time_second gps
  /\ (time_hour gps < 24 -> time_minute gps < 60 -> time_second gps < 60 ->
      t <= 235959).
Proof.
  intros Hf Hh Hm Hs t.
  assert (Ht : t = time_hour gps * 10000 + time_minute gps * 100 + time_second gps).
  { unfold t, GPS_getInfo. unfold GPS_hasFix in Hf. rewrite Hf. cbn [hhmmss].
    apply to_uint32_id. lia. }
  split; [exact Ht|].
  assert (H1 : t / 10000 = time_hour gps).
  { rewrite Ht. symmetry. apply (Z.div_unique _ _ _ (time_minute gps * 100 + time_second gps)); lia. }
  assert (H2 : (t / 100) mod 100 = time_minute gps).
  { rewrite Ht.
    replace (time_hour gps * 10000 + time_minute gps * 100 + time_second gps)
      with (time_second gps + (time_hour gps * 100 + time_minute gps) * 100) by lia.
    rewrite Z.div_add by lia. rewrite (Z.div_small (time_second gps)) by lia.
    replace (0 + (time_hour gps * 100 + time_minute gps))
      with (time_minute gps + time_hour gps * 100) by lia.
    rewrite Z.mod_add by lia. apply Z.mod_small. lia. }
  assert (H3 : t mod 100 = time_second gps).
  { rewrite Ht.
    replace (time_hour gps * 10000 + time_minute gps * 100 + time_second gps)
      with (time_second gps + (time_hour gps * 100 + time_minute gps) * 100) by lia.
    rewrite Z.mod_add by lia. apply Z.mod_small. lia. }
  split; [exact H1|]. split; [exact H2|]. split; [exact H3|].
  split.
  - rewrite H3. unfold Int.to_uint8. apply Z.mod_small. lia.
  - intros. lia.
Qed.

(** The parser at 21:15:07 gives 211507, whose seconds are 7. *)
Lemma GPS_getInfo_time_digits_211507 :
  hhmmss (GPS_getInfo (gps_at 21 15 7)) = 211507
  /\ hhmmss (GPS_getInfo (gps_at 21 15 7)) mod 100 = 7.
Proof.
  destruct (GPS_getInfo_time_digits (gps_at 21 15 7)) as (H1 & _ & _ & H4 & _);
    [reflexivity|simpl; lia|simpl; lia|simpl; lia|].
  split; [exact H1|exact H4].
Defined.

Section PetLoopFacts.

Variable INVALID_PAYLOAD : Z.

(** X5. [LORA_startTx] returns [true] exactly when the status that
    [LORA_lastState] then reports is [RADIOLIB_ERR_NONE] (the driver's
    invalid-payload code being another value).  When it returns [true] the
    driver was asked once to transmit the given buffer, of 1 to 256 bytes,
    and [LORA_isTxDone] answers [false]; a null pointer, a length of 0 or a
    length above 256 is refused without a call to the driver, the status
    becomes [RADIOLIB_ERR_INVALID_PAYLOAD] and the completion flag is left
    as it was. *)
Theorem LORA_startTx_status
    (payload : option (list byte)) (len reply : Z) (st : TxState) :
  INVALID_PAYLOAD <> RADIOLIB_ERR_NONE -> 0 <= len ->
  let r := LORA_startTx INVALID_PAYLOAD payload len reply st in
  let ok := fst (fst r) in
  let st' := snd (fst r) in
  (ok = true <-> LORA_lastState st' = RADIOLIB_ERR_NONE)
  /\ (ok = true ->
      exists buf, payload = Some buf /\ 1 <= len <= 256
                  /\ snd r = [StartTransmit buf len]
                  /\ LORA_isTxDone st' = false)
  /\ (payload = None \/ len = 0 \/ 256 < len ->
      ok = false /\ snd r = []
      /\ LORA_lastState st' = INVALID_PAYLOAD
      /\ LORA_isTxDone st' = LORA_isTxDone st).
Proof.
  intros Hne Hlen. cbv zeta. unfold LORA_startTx, LORA_lastState, LORA_isTxDone.
  destruct payload as [buf|].
  - destruct (len =? 0) eqn:E0; cbn [orb].
    + cbn. split; [|split].
      * split; [discriminate|]. intros H. elim Hne. exact H.
      * discriminate.
      * intros _. repeat split.
    + destruct (256 <? len) eqn:E1; cbn.
      * split; [|split].
        -- split; [discriminate|]. intros H. elim Hne. exact H.
        -- discriminate.
        -- intros _. repeat split.
      * split; [|split].
        -- apply Z.eqb_eq.
        -- intros _. exists buf. repeat split; lia.
        -- intros [H|[H|H]]; [discriminate H|lia|lia].
  - cbn. split; [|split].
    + split; [discriminate|]. intros H. elim Hne. exact H.
    + discriminate.
    + intros _. repeat split.
Qed.

(** The payload that [loop_send] builds from the parser's fix. *)
Lemma loop_send_spec (gps : TinyGPS) (reply : Z) (s : PetState) :
  (13 <= length (payload s))%nat ->
  let info := GPS_getInfo gps in
  let buf := frame (hhmmss info) (Double.lround (lat info * 100000)%float)
                   (Double.lround (lon info * 100000)%float)
             ++ skipn 13 (payload s) in
  loop_send INVALID_PAYLOAD gps reply s
  = if GPS_hasFix gps && negb (txInProgress s) && due (hhmmss info) s then
      ({| payload := buf;
          lastSentHHMMSS := if reply =? RADIOLIB_ERR_NONE then hhmmss info
                            else lastSentHHMMSS s;
          txInProgress := (reply =? RADIOLIB_ERR_NONE);
          tx := {| transmittedFlag := false; transmissionState := reply |} |},
       [StartTransmit buf 13])
    else (s, []).
Proof.
  intros Hl info buf. unfold loop_send.
  destruct (GPS_hasFix gps) eqn:Hf; [|reflexivity].
  rewrite (getInfo_valid _ Hf). cbn [andb].
  destruct (txInProgress s) eqn:Hp; [reflexivity|]. cbn [negb andb].
  rewrite to_uint8_ss. fold info. unfold due.
  destruct (negb (hhmmss info =? lastSentHHMMSS s)
            && ((hhmmss info mod 100) mod PERIOD =? 0)); [|reflexivity].
  rewrite (build_ok info (payload s) 13 (getInfo_valid _ Hf) ltac:(lia) Hl).
  fold buf. cbn.
  destruct (reply =? RADIOLIB_ERR_NONE); reflexivity.
Qed.

(** One iteration of [loop], from a state whose payload buffer has its 13
    bytes. *)
Lemma loop_spec (gps : TinyGPS) (reply : Z) (s : PetState) :
  length (payload s) = 13%nat ->
  let info := GPS_getInfo gps in
  let buf := frame (hhmmss info) (Double.lround (lat info * 100000)%float)
                   (Double.lround (lon info * 100000)%float) in
  let closing := txInProgress s && transmittedFlag (tx s) in
  let busy := txInProgress s && negb (transmittedFlag (tx s)) in
  let ev1 := if closing then [FinishTransmit] else [] in
  loop INVALID_PAYLOAD gps reply s
  = if GPS_hasFix gps && negb busy && due (hhmmss info) s then
      ({| payload := buf;
          lastSentHHMMSS := if reply =? RADIOLIB_ERR_NONE then hhmmss info
                            else lastSentHHMMSS s;
          txInProgress := (reply =? RADIOLIB_ERR_NONE);
          tx := {| transmittedFlag := false; transmissionState := reply |} |},
       ev1 ++ [StartTransmit buf 13])
    else if closing then
      ({| payload := payload s; lastSentHHMMSS := lastSentHHMMSS s;
          txInProgress := false;
          tx := {| transmittedFlag := true;
                   transmissionState := transmissionState (tx s) |} |},
       [FinishTransmit])
    else (s, []).
Proof.
  intros Hl. cbv zeta. rewrite loop_unfold.
  assert (Hs : skipn 13 (payload s) = []).
  { apply skipn_all2. lia. }
  unfold loop_close, LORA_isTxDone, LORA_finishTx.
  destruct (txInProgress s) eqn:Hp, (transmittedFlag (tx s)) eqn:Hd;
    cbn [andb negb fst snd].
  - set (s1 := {| payload := payload s; lastSentHHMMSS := lastSentHHMMSS s;
                  txInProgress := false;
                  tx := {| transmittedFlag := true;
                           transmissionState := transmissionState (tx s) |} |}).
    rewrite (loop_send_spec gps reply s1) by (cbn [payload s1]; lia).
    change (due (hhmmss (GPS_getInfo gps)) s1)
      with (due (hhmmss (GPS_getInfo gps)) s).
    change (txInProgress s1) with false. change (payload s1) with (payload s).
    change (lastSentHHMMSS s1) with (lastSentHHMMSS s).
    rewrite Hs, app_nil_r. cbn [negb andb]. rewrite andb_true_r.
    destruct (GPS_hasFix gps && due (hhmmss (GPS_getInfo gps)) s); reflexivity.
  - rewrite loop_send_spec by lia. rewrite Hp. cbn [negb andb].
    rewrite andb_false_r. reflexivity.
  - rewrite loop_send_spec by lia. rewrite Hp, Hs, app_nil_r.
    cbn [negb andb]. rewrite andb_true_r.
    destruct (GPS_hasFix gps && due (hhmmss (GPS_getInfo gps)) s); reflexivity.
  - rewrite loop_send_spec by lia. rewrite Hp, Hs, app_nil_r.
    cbn [negb andb]. rewrite andb_true_r.
    destruct (GPS_hasFix gps && due (hhmmss (GPS_getInfo gps)) s); reflexivity.
Qed.

Lemma pet_run_snoc (evs : list (PetEvent)) (e : PetEvent) (s : PetState) :
  pet_run INVALID_PAYLOAD (evs ++ [e]) s
  = pet_step INVALID_PAYLOAD (pet_run INVALID_PAYLOAD evs s) e.
Proof. unfold pet_run. rewrite fold_left_app. reflexivity. Qed.

End PetLoopFacts.

(** A null payload is refused; the frame of the scenario is handed to the
    driver, whose refusal (-2) is what [LORA_lastState] then reports. *)
Lemma LORA_startTx_status_example :
  fst (fst (LORA_startTx (-1) None 13 0 (tx pet_in_flight))) = false
  /\ LORA_lastState (snd (fst (LORA_startTx (-1) None 13 0 (tx pet_in_flight))))
     = -1
  /\ ~ LORA_lastState
        (snd (fst (LORA_startTx (-1) (Some madrid_frame) 13 (-2)
                     (tx pet_in_flight))))
      = RADIOLIB_ERR_NONE.
Proof.
  destruct (LORA_startTx_status (-1) None 13 0 (tx pet_in_flight))
    as (_ & _ & H); [discriminate|lia|].
  destruct (LORA_startTx_status (-1) (Some madrid_frame) 13 (-2)
              (tx pet_in_flight)) as (H' & _); [discriminate|lia|].
  destruct (H (or_introl eq_refl)) as (H1 & _ & H3 & _).
  split; [exact H1|]. split; [exact H3|].
  intros E. apply H' in E. discriminate E.
Defined.

Section PetRunFacts.

Variable INVALID_PAYLOAD : Z.

Lemma finishes_app (a b : list RadioCall) :
  finishes (a ++ b) = (finishes a + finishes b)%nat.
Proof. unfold finishes. rewrite filter_app, length_app. reflexivity. Qed.

Lemma setup_state (state : Z) :
  payload (fst (setup state)) = repeat x00 13
  /\ lastSentHHMMSS (fst (setup state)) = 0
  /\ txInProgress (fst (setup state)) = false.
Proof.
  unfold setup, LORA_begin.
  destruct (negb (state =? RADIOLIB_ERR_NONE)); repeat split.
Qed.

Lemma due_seconds (t : Z) (s : PetState) :
  due t s = true -> (t mod 100) mod PERIOD = 0.
Proof.
  unfold due. intros H. apply andb_prop in H. destruct H as [_ H].
  apply Z.eqb_eq. exact H.
Qed.

Lemma pet_step_inv (st : PetState * list RadioCall) (e : PetEvent) :
  pet_inv st -> pet_inv (pet_step INVALID_PAYLOAD st e).
Proof.
  destruct st as [s tr]. unfold pet_inv. cbn [fst snd].
  intros (Hl & Hs & Hw & Hb).
  destruct e as [|gps reply]; cbn [pet_step fst snd].
  - unfold pet_isr, onPacketSentISR.
    cbn [payload txInProgress tx transmissionState].
    split; [exact Hl|]. split; [exact Hs|]. split; [exact Hw|exact Hb].
  - rewrite (loop_spec INVALID_PAYLOAD gps reply s Hl).
    set (info := GPS_getInfo gps).
    set (buf := frame (hhmmss info) (Double.lround (lat info * 100000)%float)
                      (Double.lround (lon info * 100000)%float)).
    destruct (GPS_hasFix gps
              && negb (txInProgress s && negb (transmittedFlag (tx s)))
              && due (hhmmss info) s) eqn:Efire.
    + apply andb_prop in Efire. destruct Efire as [Efire Hdue].
      apply andb_prop in Efire. destruct Efire as [_ Hbusy].
      cbn [fst snd payload txInProgress tx transmissionState].
      split; [reflexivity|]. split; [apply Z.eqb_eq|]. split.
      * intros b len Hin. rewrite !in_app_iff in Hin.
        destruct Hin as [Hin|[Hin|Hin]].
        -- apply Hw. exact Hin.
        -- destruct (txInProgress s && transmittedFlag (tx s));
             cbn in Hin; [destruct Hin as [Hin|[]]; discriminate Hin|destruct Hin].
        -- cbn in Hin. destruct Hin as [Hin|[]]. injection Hin as <- <-.
           split; [reflexivity|].
           exists (hhmmss info), (Double.lround (lat info * 100000)%float),
             (Double.lround (lon info * 100000)%float).
           split; [reflexivity|]. split; [apply getInfo_hhmmss_range|].
           apply (due_seconds _ s). exact Hdue.
      * rewrite !finishes_app, !attempts_app.
        destruct (txInProgress s) eqn:Hp, (transmittedFlag (tx s)) eqn:Hd;
          cbn [andb negb] in *; try discriminate Hbusy;
          destruct (reply =? RADIOLIB_ERR_NONE); cbn; cbn in Hb; lia.
    + destruct (txInProgress s && transmittedFlag (tx s)) eqn:Eclose;
        cbn [fst snd payload txInProgress tx transmissionState].
      * split; [exact Hl|]. split; [discriminate|]. split.
        -- intros b len Hin. rewrite in_app_iff in Hin.
           destruct Hin as [Hin|Hin]; [apply Hw; exact Hin|].
           cbn in Hin. destruct Hin as [Hin|[]]. discriminate Hin.
        -- rewrite finishes_app, attempts_app.
           apply andb_prop in Eclose. destruct Eclose as [Hp _].
           rewrite Hp in Hb. cbn. cbn in Hb. lia.
      * rewrite app_nil_r.
        split; [exact Hl|]. split; [exact Hs|]. split; [exact Hw|exact Hb].
Qed.

Lemma pet_run_inv (state : Z) (evs : list PetEvent) :
  pet_inv (pet_run INVALID_PAYLOAD evs (fst (setup state))).
Proof.
  induction evs as [|e evs IH] using rev_ind.
  - destruct (setup_state state) as (Hp & _ & Ht).
    unfold pet_run. cbn [fold_left]. unfold pet_inv. cbn [fst snd].
    rewrite Hp, Ht.
    split; [reflexivity|]. split; [discriminate|]. split.
    + intros b len [].
    + cbn. lia.
  - rewrite pet_run_snoc. apply pet_step_inv. exact IH.
Qed.

(** X6. Whatever [radio.begin] returned in [setup], and after any
    sequence of completion interrupts and iterations of [loop] with any
    parser states and driver answers: while [txInProgress] is set, the
    status that [LORA_lastState] reports is [RADIOLIB_ERR_NONE].  So the
    status that [loop] tests when it closes a transmission is always that
    one, and its failure report is never reached. *)
Theorem pet_run_status_none (state : Z) (evs : list PetEvent) :
  txInProgress (fst (pet_run INVALID_PAYLOAD evs (fst (setup state)))) = true ->
  LORA_lastState (tx (fst (pet_run INVALID_PAYLOAD evs (fst (setup state)))))
  = RADIOLIB_ERR_NONE.
Proof. intros H. apply (pet_run_inv state evs). exact H. Qed.

(** X7. Whatever [radio.begin] returned in [setup], and after any
    sequence of completion interrupts and iterations of [loop]: every
    payload the node has handed to [radio.startTransmit] has length 13
    and is a 13-byte frame that [GPS_parsePayload] accepts, marked valid,
    whose time-of-day has its seconds on a multiple of [PERIOD]. *)
Theorem pet_run_sends_frames
    (state : Z) (evs : list PetEvent) (buf : list byte) (len : Z) :
  In (StartTransmit buf len)
     (snd (pet_run INVALID_PAYLOAD evs (fst (setup state)))) ->
  len = 13 /\ length buf = 13%nat
  /\ exists out,
       GPS_parsePayload (Some buf) len GpsInfo_zero = (true, out)
       /\ valid out = true
       /\ (hhmmss out mod 100) mod PERIOD = 0.
Proof.
  intros Hin.
  destruct (pet_run_inv state evs) as (_ & _ & Hw & _).
  destruct (Hw buf len Hin) as (-> & t & a & b & -> & Ht & Hs).
  split; [reflexivity|]. split; [reflexivity|].
  eexists. split; [apply parse_ok; reflexivity|].
  cbn [hhmmss valid]. split; [reflexivity|].
  rewrite <- (app_nil_r (frame t a b)), frame_hhmmss.
  rewrite to_uint32_id by exact Ht. exact Hs.
Qed.

(** X8. After [setup] and any sequence of completion interrupts and
    iterations of [loop], the calls to [radio.finishTransmit], plus one if
    a transmission is in progress, never exceed the calls to
    [radio.startTransmit]; when the driver accepts every send the two are
    equal: every transmission started is closed once, except the one in
    progress. *)
Theorem pet_run_balance (state : Z) (evs : list PetEvent) :
  let s := fst (pet_run INVALID_PAYLOAD evs (fst (setup state))) in
  let calls := snd (pet_run INVALID_PAYLOAD evs (fst (setup state))) in
  (finishes calls + (if txInProgress s then 1 else 0) <= attempts calls)%nat
  /\ (Forall accepts evs ->
      (finishes calls + (if txInProgress s then 1 else 0) = attempts calls)%nat).
Proof.
  cbv zeta. split; [apply (pet_run_inv state evs)|].
  induction evs as [|e evs IH] using rev_ind.
  - intros _. destruct (setup_state state) as (_ & _ & Ht).
    unfold pet_run. cbn [fold_left fst snd]. rewrite Ht. reflexivity.
  - intros Hacc. apply Forall_app in Hacc. destruct Hacc as [Hacc He].
    specialize (IH Hacc). rewrite pet_run_snoc.
    destruct (pet_run_inv state evs) as (Hl & _).
    destruct (pet_run INVALID_PAYLOAD evs (fst (setup state))) as [s tr].
    cbn [fst snd] in *.
    destruct e as [|gps reply]; cbn [pet_step fst snd].
    + exact IH.
    + apply Forall_inv in He. cbn in He. subst reply.
      rewrite (loop_spec INVALID_PAYLOAD gps RADIOLIB_ERR_NONE s Hl).
      destruct (GPS_hasFix gps
                && negb (txInProgress s && negb (transmittedFlag (tx s)))
                && due (hhmmss (GPS_getInfo gps)) s) eqn:Efire.
      * apply andb_prop in Efire. destruct Efire as [Efire _].
        apply andb_prop in Efire. destruct Efire as [_ Hbusy].
        cbn [fst snd txInProgress].
        rewrite !finishes_app, !attempts_app.
        destruct (txInProgress s), (transmittedFlag (tx s));
          cbn [andb negb] in *; try discriminate Hbusy; cbn; cbn in IH; lia.
      * destruct (txInProgress s && transmittedFlag (tx s)) eqn:Eclose;
          cbn [fst snd txInProgress].
        -- rewrite finishes_app, attempts_app.
           apply andb_prop in Eclose. destruct Eclose as [Hp _].
           rewrite Hp in IH. cbn. cbn in IH. lia.
        -- rewrite app_nil_r. exact IH.
Qed.

(** X9. After [setup], as long as the parser shows no fix or a fix
    whose time-of-day is 00:00:00, the node makes no call to the driver:
    the dedupe key [lastSentHHMMSS] starts at 0, which is the time-of-day
    of midnight, so the fix of midnight is taken for one already sent. *)
Theorem pet_run_midnight (state : Z) (evs : list PetEvent) :
  Forall (fun e => shows e = None \/ shows e = Some 0) evs ->
  snd (pet_run INVALID_PAYLOAD evs (fst (setup state))) = []
  /\ lastSentHHMMSS (fst (pet_run INVALID_PAYLOAD evs (fst (setup state)))) = 0
  /\ txInProgress (fst (pet_run INVALID_PAYLOAD evs (fst (setup state)))) = false.
Proof.
  induction evs as [|e evs IH] using rev_ind.
  - intros _. destruct (setup_state state) as (_ & Hk & Ht).
    unfold pet_run. cbn [fold_left fst snd]. auto.
  - intros H. apply Forall_app in H. destruct H as [H He].
    specialize (IH H). rewrite pet_run_snoc.
    destruct (pet_run_inv state evs) as (Hl & _).
    destruct (pet_run INVALID_PAYLOAD evs (fst (setup state))) as [s tr].
    cbn [fst snd] in *. destruct IH as (-> & Hk & Hp).
    destruct e as [|gps reply]; cbn [pet_step fst snd].
    + auto.
    + apply Forall_inv in He. cbn [shows] in He.
      rewrite (loop_spec INVALID_PAYLOAD gps reply s Hl). rewrite Hp.
      cbn [andb negb].
      assert (Hno : GPS_hasFix gps && true && due (hhmmss (GPS_getInfo gps)) s
                    = false).
      { destruct (GPS_hasFix gps); [|reflexivity].
        destruct He as [He|He]; [discriminate He|].
        injection He as ->. unfold due. rewrite Hk. reflexivity. }
      rewrite Hno. cbn [fst snd]. auto.
Qed.

End PetRunFacts.

(** After a failed [radio.begin] (-2) and a send at 12:00:10 that the
    driver accepts, a transmission is in progress and the status is
    [RADIOLIB_ERR_NONE]. *)
Lemma pet_run_status_none_example :
  LORA_lastState
    (tx (fst (pet_run 0 [PetLoop (gps_at 12 0 10) RADIOLIB_ERR_NONE]
                (fst (setup (-2))))))
  = RADIOLIB_ERR_NONE.
Proof.
  apply (pet_run_status_none 0 (-2) [PetLoop (gps_at 12 0 10) RADIOLIB_ERR_NONE]).
  vm_compute. reflexivity.
Defined.

(** The send at 12:00:10 hands the driver the frame of 120010, 4041680
    and -370380. *)
Lemma pet_run_sends_frames_example :
  13 = 13 /\ length frame_120010 = 13%nat
  /\ exists out,
       GPS_parsePayload (Some frame_120010) 13 GpsInfo_zero = (true, out)
       /\ valid out = true
       /\ (hhmmss out mod 100) mod PERIOD = 0.
Proof.
  apply (pet_run_sends_frames 0 0
           [PetLoop (gps_at 12 0 5) RADIOLIB_ERR_NONE; PetIsr;
            PetLoop (gps_at 12 0 10) RADIOLIB_ERR_NONE]
           frame_120010 13).
  vm_compute. left. reflexivity.
Defined.

(** Two iterations at 00:00:00 with an interrupt in between call the
    driver for nothing. *)
Lemma pet_run_midnight_example :
  snd (pet_run 0 [PetLoop (gps_at 0 0 0) RADIOLIB_ERR_NONE; PetIsr;
                  PetLoop (gps_at 0 0 0) RADIOLIB_ERR_NONE] (fst (setup 0)))
  = []
  /\ lastSentHHMMSS
       (fst (pet_run 0 [PetLoop (gps_at 0 0 0) RADIOLIB_ERR_NONE; PetIsr;
                        PetLoop (gps_at 0 0 0) RADIOLIB_ERR_NONE]
               (fst (setup 0)))) = 0
  /\ txInProgress
       (fst (pet_run 0 [PetLoop (gps_at 0 0 0) RADIOLIB_ERR_NONE; PetIsr;
                        PetLoop (gps_at 0 0 0) RADIOLIB_ERR_NONE]
               (fst (setup 0)))) = false.
Proof.
  apply (pet_run_midnight 0 0).
  constructor; [right; reflexivity|].
  constructor; [left; reflexivity|].
  constructor; [right; reflexivity|constructor].
Defined.

(** *** The order of the calls on the driver *)

Lemma last_cons {A : Type} (x d : A) (l : list A) :
  last (x :: l) d = last l x.
Proof.
  revert x d. induction l as [|y l IH]; intros x d; [reflexivity|].
  change (last (x :: y :: l) d) with (last (y :: l) d).
  rewrite !IH. reflexivity.
Qed.

Lemma finish_follows_start_app (p : option RadioCall) (a b : list RadioCall) :
  finish_follows_start p (a ++ b)
  = finish_follows_start p a
    && finish_follows_start (last (map Some a) p) b.
Proof.
  revert p. induction a as [|c a IH]; intros p.
  - reflexivity.
  - cbn [app finish_follows_start map]. rewrite IH, andb_assoc.
    rewrite last_cons. reflexivity.
Qed.

Lemma changes_app (p : Z) (a b : list Z) :
  changes p (a ++ b) <-> changes p a /\ changes (last a p) b.
Proof.
  revert p. induction a as [|t a IH]; intros p.
  - cbn. tauto.
  - cbn [app changes]. rewrite IH.
    rewrite last_cons. tauto.
Qed.

Lemma sent_times_app (a b : list RadioCall) :
  sent_times (a ++ b) = sent_times a ++ sent_times b.
Proof. unfold sent_times. apply flat_map_app. Qed.

Section PetTraceFacts.

Variable INVALID_PAYLOAD : Z.

Lemma last_map_Some_snoc (tr : list RadioCall) (c : RadioCall) (d : option RadioCall) :
  last (map Some (tr ++ [c])) d = Some c.
Proof. rewrite map_app. apply last_last. Qed.

Lemma pet_step_trace_inv (st : PetState * list RadioCall) (e : PetEvent) :
  pet_trace_inv st -> pet_trace_inv (pet_step INVALID_PAYLOAD st e).
Proof.
  destruct st as [s tr]. unfold pet_trace_inv. cbn [fst snd].
  intros (Hl & Hf & Hp).
  destruct e as [|gps reply]; cbn [pet_step fst snd].
  - unfold pet_isr. cbn [payload txInProgress]. auto.
  - rewrite (loop_spec INVALID_PAYLOAD gps reply s Hl).
    set (info := GPS_getInfo gps).
    set (buf := frame (hhmmss info) (Double.lround (lat info * 100000)%float)
                      (Double.lround (lon info * 100000)%float)).
    destruct (GPS_hasFix gps
              && negb (txInProgress s && negb (transmittedFlag (tx s)))
              && due (hhmmss info) s) eqn:Efire.
    + cbn [fst snd payload txInProgress].
      split; [reflexivity|]. split.
      * rewrite finish_follows_start_app, Hf. cbn [andb].
        destruct (txInProgress s && transmittedFlag (tx s)) eqn:Ec.
        -- apply andb_prop in Ec. destruct Ec as [Ep _].
           destruct (Hp Ep) as (b & l & ->). reflexivity.
        -- reflexivity.
      * intros _. exists buf, 13. rewrite app_assoc. apply last_map_Some_snoc.
    + destruct (txInProgress s && transmittedFlag (tx s)) eqn:Ec;
        cbn [fst snd payload txInProgress].
      * split; [exact Hl|]. split; [|discriminate].
        rewrite finish_follows_start_app, Hf. cbn [andb].
        apply andb_prop in Ec. destruct Ec as [Ep _].
        destruct (Hp Ep) as (b & l & ->). reflexivity.
      * rewrite app_nil_r. auto.
Qed.

Lemma pet_run_trace_inv (state : Z) (evs : list PetEvent) :
  pet_trace_inv (pet_run INVALID_PAYLOAD evs (fst (setup state))).
Proof.
  induction evs as [|e evs IH] using rev_ind.
  - destruct (setup_state state) as (Hp & _ & Ht).
    unfold pet_run. cbn [fold_left]. unfold pet_trace_inv. cbn [fst snd].
    rewrite Hp, Ht. split; [reflexivity|]. split; [reflexivity|discriminate].
  - rewrite pet_run_snoc. apply pet_step_trace_inv. exact IH.
Qed.

(** X10. After [setup] and any sequence of completion interrupts and
    iterations of [loop], every call to [radio.finishTransmit] comes
    right after a call to [radio.startTransmit], with no other call on the
    driver in between: the node closes nothing but the transmission it
    last started. *)
Theorem pet_run_finish_follows_start (state : Z) (evs : list PetEvent) :
  let calls := snd (pet_run INVALID_PAYLOAD evs (fst (setup state))) in
  finish_follows_start None calls = true
  /\ (forall pre post,
        calls = pre ++ FinishTransmit :: post ->
        exists pre' buf len, pre = pre' ++ [StartTransmit buf len]).
Proof.
  cbv zeta. destruct (pet_run_trace_inv state evs) as (_ & Hf & _).
  split; [exact Hf|].
  intros pre post E. rewrite E in Hf.
  rewrite finish_follows_start_app in Hf. apply andb_prop in Hf.
  destruct Hf as [_ Hf]. cbn [finish_follows_start is_finish] in Hf.
  apply andb_prop in Hf. destruct Hf as [Hf _].
  destruct pre as [|c pre] using rev_ind; [discriminate Hf|].
  rewrite last_map_Some_snoc in Hf.
  destruct c; try discriminate Hf. eexists. eexists. eexists. reflexivity.
Qed.

(** X11. With a driver that accepts every send, after [setup] and any
    sequence of completion interrupts and iterations of [loop], no two
    consecutive payloads handed to the driver carry the same time-of-day,
    the first one does not carry 00:00:00, and [lastSentHHMMSS] is the
    time-of-day of the last payload handed over. *)
Theorem pet_run_no_repeat (state : Z) (evs : list PetEvent) :
  Forall accepts evs ->
  let s := fst (pet_run INVALID_PAYLOAD evs (fst (setup state))) in
  let calls := snd (pet_run INVALID_PAYLOAD evs (fst (setup state))) in
  changes 0 (sent_times calls)
  /\ lastSentHHMMSS s = last (sent_times calls) 0.
Proof.
  cbv zeta. induction evs as [|e evs IH] using rev_ind.
  - intros _. destruct (setup_state state) as (_ & Hk & _).
    unfold pet_run. cbn [fold_left fst snd]. rewrite Hk. cbn. auto.
  - intros Hacc. apply Forall_app in Hacc. destruct Hacc as [Hacc He].
    specialize (IH Hacc). rewrite pet_run_snoc.
    destruct (pet_run_inv INVALID_PAYLOAD state evs) as (Hl & _).
    destruct (pet_run INVALID_PAYLOAD evs (fst (setup state))) as [s tr].
    cbn [fst snd] in *. destruct IH as [IH1 IH2].
    destruct e as [|gps reply]; cbn [pet_step fst snd].
    + cbn [pet_isr lastSentHHMMSS]. auto.
    + apply Forall_inv in He. cbn in He. subst reply.
      rewrite (loop_spec INVALID_PAYLOAD gps RADIOLIB_ERR_NONE s Hl).
      set (info := GPS_getInfo gps).
      set (buf := frame (hhmmss info) (Double.lround (lat info * 100000)%float)
                        (Double.lround (lon info * 100000)%float)).
      assert (Ht : Bytes.load_u32 buf 1 = hhmmss info).
      { unfold buf. rewrite <- (app_nil_r (frame _ _ _)), frame_hhmmss.
        apply to_uint32_id, getInfo_hhmmss_range. }
      destruct (GPS_hasFix gps
                && negb (txInProgress s && negb (transmittedFlag (tx s)))
                && due (hhmmss info) s) eqn:Efire.
      * apply andb_prop in Efire. destruct Efire as [_ Hdue].
        unfold due in Hdue. apply andb_prop in Hdue. destruct Hdue as [Hne _].
        apply negb_true_iff, Z.eqb_neq in Hne.
        cbn [fst snd lastSentHHMMSS]. change (RADIOLIB_ERR_NONE =? RADIOLIB_ERR_NONE) with true.
        cbn iota.
        assert (Es : sent_times
                       (tr ++ (if txInProgress s && transmittedFlag (tx s)
                               then [FinishTransmit] else [])
                           ++ [StartTransmit buf 13])
                     = sent_times tr ++ [hhmmss info]).
        { rewrite !sent_times_app.
          destruct (txInProgress s && transmittedFlag (tx s));
            unfold sent_times at 2 3; cbn [flat_map app]; rewrite Ht;
            reflexivity. }
        rewrite Es. split.
        -- apply changes_app. split; [exact IH1|].
           cbn. split; [|exact I]. rewrite <- IH2. exact Hne.
        -- rewrite last_last. reflexivity.
      * destruct (txInProgress s && transmittedFlag (tx s));
          cbn [fst snd lastSentHHMMSS].
        -- rewrite sent_times_app. cbn. rewrite app_nil_r. auto.
        -- rewrite app_nil_r. auto.
Qed.

End PetTraceFacts.

(** Two iterations at 12:00:00 and one at 12:00:10 send 120000 and
    120010. *)
Lemma pet_run_no_repeat_example :
  changes 0
    (sent_times
       (snd (pet_run 0 [PetLoop (gps_at 12 0 0) RADIOLIB_ERR_NONE; PetIsr;
                        PetLoop (gps_at 12 0 0) RADIOLIB_ERR_NONE;
                        PetLoop (gps_at 12 0 10) RADIOLIB_ERR_NONE]
               (fst (setup 0)))))
  /\ lastSentHHMMSS
       (fst (pet_run 0 [PetLoop (gps_at 12 0 0) RADIOLIB_ERR_NONE; PetIsr;
                        PetLoop (gps_at 12 0 0) RADIOLIB_ERR_NONE;
                        PetLoop (gps_at 12 0 10) RADIOLIB_ERR_NONE]
               (fst (setup 0))))
     = last (sent_times
               (snd (pet_run 0 [PetLoop (gps_at 12 0 0) RADIOLIB_ERR_NONE; PetIsr;
                                PetLoop (gps_at 12 0 0) RADIOLIB_ERR_NONE;
                                PetLoop (gps_at 12 0 10) RADIOLIB_ERR_NONE]
                       (fst (setup 0))))) 0.
Proof.
  apply (pet_run_no_repeat 0 0).
  constructor; [reflexivity|].
  constructor; [exact I|].
  constructor; [reflexivity|].
  constructor; [reflexivity|constructor].
Defined.

(** *** The scheduler's key *)

Section SchedulerFacts.

Variable INVALID_PAYLOAD : Z.




End SchedulerFacts.


(** ** The receive session *)

(** X12. A tick with the frame-ready flag raised clears the flag, asks
    the driver for the length and the data, for the two metrics exactly
    when the read succeeded, and always ends by re-arming the receiver
    with [radio.startReceive], whatever the frame and the status of the
    read. *)
Theorem LORA_rxTick_rearms (r : RxReply) (st : RxState) :
  s_rxFlag st = true ->
  s_rxFlag (fst (LORA_rxTick r st)) = false
  /\ snd (LORA_rxTick r st)
     = [GetPacketLength; ReadData (rx_read_len (packetLength r))]
       ++ (if readStatus r =? RADIOLIB_ERR_NONE then [GetRSSI; GetSNR] else [])
       ++ [StartReceive]
  /\ last (snd (LORA_rxTick r st)) GetPacketLength = StartReceive.
Proof.
  intros Hf. unfold LORA_rxTick. rewrite Hf. cbn [negb].
  destruct (readStatus r =? RADIOLIB_ERR_NONE).
  - split.
    + destruct (_ && _); [|reflexivity].
      destruct (GPS_parsePayload _ _ _) as [ok gi].
      destruct (ok && valid gi); reflexivity.
    + cbn [snd]. split; reflexivity.
  - cbn [fst snd]. split; [reflexivity|]. split; reflexivity.
Qed.

(** The 5-byte frame is read, with its metrics, and reception re-armed. *)
Lemma LORA_rxTick_rearms_example :
  s_rxFlag (fst (LORA_rxTick rx_short_frame rx_pending)) = false
  /\ snd (LORA_rxTick rx_short_frame rx_pending)
     = [GetPacketLength; ReadData 5; GetRSSI; GetSNR; StartReceive]
  /\ last (snd (LORA_rxTick rx_short_frame rx_pending)) GetPacketLength
     = StartReceive.
Proof.
  apply (LORA_rxTick_rearms rx_short_frame rx_pending). reflexivity.
Defined.

Lemma onPacketISR_idem (st : RxState) :
  onPacketISR (onPacketISR st) = onPacketISR st.
Proof. reflexivity. Qed.

Lemma rxTick_flag (r : RxReply) (st : RxState) :
  s_rxFlag (fst (LORA_rxTick r st)) = false.
Proof.
  unfold LORA_rxTick. destruct (s_rxFlag st) eqn:Hf; cbn [negb].
  - destruct (readStatus r =? RADIOLIB_ERR_NONE); [|reflexivity].
    destruct (_ && _); [|reflexivity].
    destruct (GPS_parsePayload _ _ _) as [ok gi].
    destruct (ok && valid gi); reflexivity.
  - exact Hf.
Qed.

(** X13. The frame-ready flag does not count: any number of reception
    interrupts before a tick leaves the session as one interrupt does;
    the tick that follows asks the driver for the length and for the data
    once, so it reads exactly one frame, and a second tick with no
    interrupt in between makes no call to the driver: one frame is read
    in all, however many receptions were signalled. *)
Theorem rx_interrupts_coalesce (n : nat) (r r' : RxReply) (st : RxState) :
  let raised := rx_run (repeat RxIsr (S n)) st in
  let st1 := fst (LORA_rxTick r raised) in
  raised = onPacketISR st
  /\ snd (LORA_rxTick r raised)
     = [GetPacketLength; ReadData (rx_read_len (packetLength r))]
       ++ (if readStatus r =? RADIOLIB_ERR_NONE then [GetRSSI; GetSNR] else [])
       ++ [StartReceive]
  /\ frames_read (snd (LORA_rxTick r raised)) = 1%nat
  /\ LORA_rxTick r' st1 = (st1, [])
  /\ frames_read (snd (LORA_rxTick r raised) ++ snd (LORA_rxTick r' st1))
     = 1%nat.
Proof.
  cbv zeta.
  assert (H : rx_run (repeat RxIsr (S n)) st = onPacketISR st).
  { unfold rx_run. cbn [repeat fold_left rx_step].
    induction n as [|n IH]; [reflexivity|].
    cbn [repeat fold_left rx_step]. rewrite onPacketISR_idem. exact IH. }
  rewrite H. split; [reflexivity|].
  assert (Hc : snd (LORA_rxTick r (onPacketISR st))
               = [GetPacketLength; ReadData (rx_read_len (packetLength r))]
                 ++ (if readStatus r =? RADIOLIB_ERR_NONE
                     then [GetRSSI; GetSNR] else [])
                 ++ [StartReceive]).
  { unfold LORA_rxTick. cbn [onPacketISR s_rxFlag negb].
    destruct (readStatus r =? RADIOLIB_ERR_NONE); reflexivity. }
  assert (H1 : frames_read (snd (LORA_rxTick r (onPacketISR st))) = 1%nat).
  { rewrite Hc. destruct (readStatus r =? RADIOLIB_ERR_NONE); reflexivity. }
  assert (H2 : LORA_rxTick r' (fst (LORA_rxTick r (onPacketISR st)))
               = (fst (LORA_rxTick r (onPacketISR st)), [])).
  { apply rxTick_idle. apply rxTick_flag. }
  split; [exact Hc|]. split; [exact H1|]. split; [exact H2|].
  rewrite H2. cbn [snd]. rewrite app_nil_r. exact H1.
Qed.

(** What [LORA_lastValidGPS] hands out after a tick that reads a
    well-formed frame. *)
Lemma rxTick_delivers (r : RxReply) (st : RxState) :
  s_rxFlag st = true -> readStatus r = RADIOLIB_ERR_NONE ->
  rx_read_len (packetLength r) = 13 -> Bytes.get (readBuf r) 0 = x01 ->
  LORA_lastValidGPS (fst (LORA_rxTick r st))
  = Some (snd (GPS_parsePayload (Some (readBuf r)) 13 GpsInfo_zero),
          rssi r, snr r).
Proof.
  intros Hf Hs Hl Hm. unfold LORA_lastValidGPS.
  pose proof (rxTick_metrics r st) as HM.
  rewrite rxTick_sample.
  rewrite Hf, Hs, Hl in *. apply byte_to_Z_1 in Hm. rewrite Hm in *.
  cbn [andb Z.eqb Pos.eqb] in *.
  injection HM as -> ->.
  apply byte_to_Z_1 in Hm. rewrite (parse_ok _ _ Hm). reflexivity.
Qed.

(** X14. From the pet node's fix to what the user node reports: when
    the 13 bytes that [GPS_buildBinaryPayload] wrote for a valid sample,
    with latitude in [-90,90] and longitude in [-180,180], are what the
    driver hands to a tick with the flag raised, read without error with
    a length of 13, then [LORA_lastValidGPS] returns a valid sample with
    the same time-of-day, coordinates within [tolerance] of the original
    ones, and the metrics of that frame. *)
Theorem link_delivers
    (info : GpsInfo) (buf : list byte) (r : RxReply) (st : RxState) :
  valid info = true ->
  PrimFloat.leb (-90) (lat info) = true -> PrimFloat.leb (lat info) 90 = true ->
  PrimFloat.leb (-180) (lon info) = true -> PrimFloat.leb (lon info) 180 = true ->
  0 <= hhmmss info < 2 ^ 32 ->
  length buf = 13%nat ->
  GPS_buildBinaryPayload info (Some buf) 13 = (13, Some (readBuf r)) ->
  s_rxFlag st = true -> readStatus r = RADIOLIB_ERR_NONE ->
  packetLength r = 13 ->
  exists gi,
    LORA_lastValidGPS (fst (LORA_rxTick r st)) = Some (gi, rssi r, snr r)
    /\ valid gi = true
    /\ hhmmss gi = hhmmss info
    /\ (Qabs (value (lat gi) - value (lat info)) <= tolerance)%Q
    /\ (Qabs (value (lon gi) - value (lon info)) <= tolerance)%Q.
Proof.
  intros Hv Hla1 Hla2 Hlo1 Hlo2 Hh Hl Hb Hf Hs Hp.
  destruct (coordinate_roundtrip_90 (lat info) Hla1 Hla2) as (Na & _ & _ & Ea).
  destruct (coordinate_roundtrip_180 (lon info) Hlo1 Hlo2) as (No & _ & _ & Eo).
  pose proof (build_ok info buf 13 Hv ltac:(lia) ltac:(lia)) as Hb'.
  rewrite Hb in Hb'.
  assert (E : readBuf r
              = frame (hhmmss info) (Double.lround (lat info * 100000)%float)
                      (Double.lround (lon info * 100000)%float)
                ++ skipn 13 buf) by congruence.
  clear Hb Hb'.
  assert (Hm : Bytes.get (readBuf r) 0 = x01) by (rewrite E; reflexivity).
  eexists. split.
  { apply rxTick_delivers; [exact Hf|exact Hs|rewrite Hp; reflexivity|exact Hm]. }
  rewrite (parse_ok _ _ Hm). cbn [snd valid hhmmss lat lon].
  rewrite E.
  rewrite frame_hhmmss, frame_lat, frame_lon.
  rewrite !to_int32_id by apply to_int32_range.
  rewrite !lround_fits by (unfold Int.in_int32; lia).
  split; [reflexivity|].
  split; [apply to_uint32_id; exact Hh|].
  split; assumption.
Qed.

(** The sample of the scenario, sent and received at -92 dBm and 6 dB. *)
Lemma link_delivers_madrid :
  exists gi,
    LORA_lastValidGPS (fst (LORA_rxTick rx_madrid (onPacketISR RxState_init)))
    = Some (gi, (-92)%float, 6%float)
    /\ valid gi = true
    /\ hhmmss gi = 211507
    /\ (Qabs (value (lat gi) - value (lat madrid)) <= tolerance)%Q
    /\ (Qabs (value (lon gi) - value (lon madrid)) <= tolerance)%Q.
Proof.
  apply (link_delivers madrid (repeat x00 13) rx_madrid (onPacketISR RxState_init));
    try reflexivity.
  simpl. lia.
Defined.

(** A tick that does not read a well-formed frame leaves the sample. *)
Lemma rxTick_sample_cases (r : RxReply) (st : RxState) :
  s_lastGps (fst (LORA_rxTick r st)) = s_lastGps st
  \/ (readStatus r = RADIOLIB_ERR_NONE
      /\ rx_read_len (packetLength r) = 13
      /\ Bytes.get (readBuf r) 0 = x01
      /\ s_lastGps (fst (LORA_rxTick r st))
         = snd (GPS_parsePayload (Some (readBuf r)) 13 GpsInfo_zero)).
Proof.
  rewrite rxTick_sample.
  destruct (s_rxFlag st); [|left; reflexivity]. cbn [andb].
  destruct (readStatus r =? RADIOLIB_ERR_NONE) eqn:Es; [|left; reflexivity].
  destruct (rx_read_len (packetLength r) =? 13) eqn:El; [|left; reflexivity].
  destruct (Bytes.byte_to_Z (Bytes.get (readBuf r) 0) =? 1) eqn:Em;
    [|left; reflexivity].
  right. apply Z.eqb_eq in Es, El, Em. apply byte_to_Z_1 in Em.
  cbn [andb]. auto.
Qed.

Lemma rx_run_snoc (evs : list RxEvent) (e : RxEvent) (st : RxState) :
  rx_run (evs ++ [e]) st = rx_step (rx_run evs st) e.
Proof. unfold rx_run. rewrite fold_left_app. reflexivity. Qed.

(** X15. After any sequence of interrupts and ticks from start-up, the
    cache is either still empty, and [LORA_lastValidGPS] returns nothing,
    or holds exactly what [GPS_parsePayload] decodes from the bytes of one
    of the ticks, read without error with a clamped length of 13 and a
    first byte of 1, and [LORA_lastValidGPS] returns that sample. *)
Theorem rx_run_provenance (evs : list RxEvent) :
  let st := rx_run evs RxState_init in
  (s_lastGps st = GpsInfo_zero /\ LORA_lastValidGPS st = None)
  \/ (exists r,
        In (RxTick r) evs
        /\ readStatus r = RADIOLIB_ERR_NONE
        /\ rx_read_len (packetLength r) = 13
        /\ Bytes.get (readBuf r) 0 = x01
        /\ s_lastGps st = snd (GPS_parsePayload (Some (readBuf r)) 13 GpsInfo_zero)
        /\ exists rssi snr, LORA_lastValidGPS st = Some (s_lastGps st, rssi, snr)).
Proof.
  cbv zeta.
  assert (G : s_lastGps (rx_run evs RxState_init) = GpsInfo_zero
              \/ exists r,
                   In (RxTick r) evs
                   /\ readStatus r = RADIOLIB_ERR_NONE
                   /\ rx_read_len (packetLength r) = 13
                   /\ Bytes.get (readBuf r) 0 = x01
                   /\ s_lastGps (rx_run evs RxState_init)
                      = snd (GPS_parsePayload (Some (readBuf r)) 13 GpsInfo_zero)).
  { induction evs as [|e evs IH] using rev_ind.
    - left. reflexivity.
    - rewrite rx_run_snoc.
      assert (IH' : s_lastGps (rx_run evs RxState_init) = GpsInfo_zero
                    \/ exists r,
                         In (RxTick r) (evs ++ [e])
                         /\ readStatus r = RADIOLIB_ERR_NONE
                         /\ rx_read_len (packetLength r) = 13
                         /\ Bytes.get (readBuf r) 0 = x01
                         /\ s_lastGps (rx_run evs RxState_init)
                            = snd (GPS_parsePayload (Some (readBuf r)) 13 GpsInfo_zero)).
      { destruct IH as [IH|(r & Hin & IH)]; [left; exact IH|].
        right. exists r. split; [apply in_or_app; left; exact Hin|exact IH]. }
      clear IH. destruct e as [|r]; cbn [rx_step].
      + exact IH'.
      + destruct (rxTick_sample_cases r (rx_run evs RxState_init))
          as [E|(H1 & H2 & H3 & H4)].
        * rewrite E. exact IH'.
        * right. exists r.
          split; [apply in_or_app; right; left; reflexivity|]. auto. }
  destruct G as [G|(r & Hin & H1 & H2 & H3 & H4)].
  - left. split; [exact G|]. unfold LORA_lastValidGPS. rewrite G. reflexivity.
  - right. exists r. do 4 (split; [assumption|]). split; [exact H4|].
    unfold LORA_lastValidGPS. rewrite H4, (parse_ok _ _ H3). cbn [snd valid negb].
    eexists. eexists. reflexivity.
Qed.

(** ** Text *)

Lemma trim_left_length (s : text) : (length (trim_left s) <= length s)%nat.
Proof.
  induction s as [|c s IH]; [reflexivity|]. cbn [trim_left].
  destruct (isspace c); cbn [length]; lia.
Qed.

Lemma trim_left_head (s : text) :
  trim_left s = []
  \/ exists c s', trim_left s = c :: s' /\ isspace c = false.
Proof.
  induction s as [|c s IH]; [left; reflexivity|]. cbn [trim_left].
  destruct (isspace c) eqn:E; [exact IH|].
  right. exists c, s. split; [reflexivity|exact E].
Qed.

Lemma trim_left_fixed (c : Ascii.ascii) (s : text) :
  trim_left (c :: s) = c :: s -> isspace c = false.
Proof.
  cbn [trim_left]. destruct (isspace c); [|reflexivity].
  intros H. pose proof (trim_left_length s) as L. rewrite H in L.
  cbn [length] in L. lia.
Qed.

Lemma trim_left_idem (s : text) : trim_left (trim_left s) = trim_left s.
Proof.
  destruct (trim_left_head s) as [->|(c & s' & -> & E)]; [reflexivity|].
  cbn [trim_left]. rewrite E. reflexivity.
Qed.

Lemma trim_left_snoc (a : text) (c : Ascii.ascii) :
  isspace c = false -> trim_left (a ++ [c]) = trim_left a ++ [c].
Proof.
  intros E. induction a as [|x a IH]; cbn [app trim_left].
  - rewrite E. reflexivity.
  - destruct (isspace x); [exact IH|reflexivity].
Qed.

Lemma trim_left_In (x : Ascii.ascii) (s : text) :
  In x (trim_left s) -> In x s.
Proof.
  induction s as [|c s IH]; [intros []|]. cbn [trim_left].
  destruct (isspace c); [|auto]. intros H. right. apply IH. exact H.
Qed.

Lemma String_trim_In (x : Ascii.ascii) (s : text) :
  In x (String_trim s) -> In x s.
Proof.
  unfold String_trim. intros H.
  apply in_rev in H. apply trim_left_In in H. apply in_rev in H.
  apply trim_left_In in H. exact H.
Qed.

(** [String::trim] leaves a text with no white space at either end. *)
Lemma trimmed_trim (s : text) : trimmed (String_trim s).
Proof.
  unfold String_trim, trimmed.
  destruct (trim_left_head s) as [->|(c & s' & -> & E)];
    [split; reflexivity|].
  cbn [rev]. rewrite (trim_left_snoc _ _ E).
  assert (Hz : trim_left (trim_left (rev s')) = trim_left (rev s'))
    by apply trim_left_idem.
  set (z := trim_left (rev s')) in *. clearbody z.
  rewrite rev_app_distr. cbn [rev app]. split.
  - cbn [trim_left]. rewrite E. reflexivity.
  - rewrite rev_involutive, (trim_left_snoc _ _ E), Hz. reflexivity.
Qed.

Lemma String_trim_trimmed (s : text) : trimmed s -> String_trim s = s.
Proof.
  intros [H1 H2]. unfold String_trim. rewrite H1, H2. apply rev_involutive.
Qed.

Lemma String_trim_fixed (s : text) : String_trim s = s <-> trimmed s.
Proof.
  split.
  - intros H. rewrite <- H. apply trimmed_trim.
  - apply String_trim_trimmed.
Qed.

Lemma String_trim_idem (s : text) : String_trim (String_trim s) = String_trim s.
Proof. apply String_trim_trimmed, trimmed_trim. Qed.

(** A line ending in a carriage return trims to what precedes it. *)
Lemma String_trim_line (s : text) :
  trimmed s -> String_trim (s ++ ["013"%char]) = s.
Proof.
  intros [H1 H2]. unfold String_trim. destruct s as [|c s]; [reflexivity|].
  pose proof (trim_left_fixed c s H1) as E.
  change ((c :: s) ++ ["013"%char]) with (c :: (s ++ ["013"%char])).
  cbn [trim_left]. rewrite E.
  change (c :: s ++ ["013"%char]) with ((c :: s) ++ ["013"%char]).
  rewrite rev_app_distr.
  change (rev ["013"%char] ++ rev (c :: s)) with ("013"%char :: rev (c :: s)).
  cbn [trim_left]. change (isspace "013"%char) with true. cbn iota.
  rewrite H2. apply rev_involutive.
Qed.

Lemma readStringUntil_line (t : Ascii.ascii) (a b : text) :
  ~ In t a -> Stream_readStringUntil t (a ++ t :: b) = (a, b).
Proof.
  induction a as [|c a IH]; intros H; cbn [app Stream_readStringUntil].
  - rewrite Ascii.eqb_refl. reflexivity.
  - destruct (Ascii.eqb c t) eqn:E.
    + apply Ascii.eqb_eq in E. elim H. left. exact E.
    + rewrite IH; [reflexivity|]. intros Hin. apply H. right. exact Hin.
Qed.

Lemma readStringUntil_no_terminator (t : Ascii.ascii) (s : text) :
  ~ In t (fst (Stream_readStringUntil t s)).
Proof.
  induction s as [|c s IH]; cbn [Stream_readStringUntil]; [intros []|].
  destruct (Ascii.eqb c t) eqn:E; [intros []|].
  destruct (Stream_readStringUntil t s) as [line rest]. cbn [fst] in *.
  intros [H|H]; [|exact (IH H)].
  apply Ascii.eqb_neq in E. exact (E H).
Qed.

(** ** The stored credentials *)

(** Loading the file that holds two trimmed strings, one per line. *)
Lemma load_saved (ssid pwd s0 p0 : text) :
  trimmed ssid -> trimmed pwd -> ssid <> [] ->
  ~ In "010"%char ssid -> ~ In "010"%char pwd ->
  NodoUsuario.loadWiFiConf (Some (Print_println ssid ++ Print_println pwd))
    true s0 p0
  = (true, ssid, pwd).
Proof.
  intros Hs Hp Hne Hns Hnp.
  unfold NodoUsuario.loadWiFiConf, Print_println. cbn [negb].
  replace ((ssid ++ ["013"%char; "010"%char]) ++ pwd ++ ["013"%char; "010"%char])
    with ((ssid ++ ["013"%char])
          ++ "010"%char :: ((pwd ++ ["013"%char]) ++ "010"%char :: []))
    by (rewrite <- !app_assoc; reflexivity).
  rewrite readStringUntil_line.
  2:{ intros H. apply in_app_or in H. destruct H as [H|[H|[]]];
        [exact (Hns H)|discriminate H]. }
  rewrite readStringUntil_line.
  2:{ intros H. apply in_app_or in H. destruct H as [H|[H|[]]];
        [exact (Hnp H)|discriminate H]. }
  rewrite !String_trim_line by assumption.
  destruct ssid as [|c ssid]; [elim Hne; reflexivity|]. reflexivity.
Qed.

(** X16. What [saveWiFiConf] stores, [loadWiFiConf] gives back: for
    an SSID and a password with no white space at either end and no line
    feed inside, the SSID not empty, saving succeeds when the file opens
    and loading then returns [true] with the same two strings. *)
Theorem wifi_conf_roundtrip (ssid pwd : text) (cfg : option text) (s0 p0 : text) :
  String_trim ssid = ssid -> String_trim pwd = pwd -> ssid <> [] ->
  ~ In "010"%char ssid -> ~ In "010"%char pwd ->
  fst (NodoUsuario.saveWiFiConf true ssid pwd cfg) = true
  /\ NodoUsuario.loadWiFiConf
       (snd (NodoUsuario.saveWiFiConf true ssid pwd cfg)) true s0 p0
     = (true, ssid, pwd).
Proof.
  intros Hs Hp Hne Hns Hnp. split; [reflexivity|].
  apply String_trim_fixed in Hs, Hp.
  apply load_saved; assumption.
Qed.

(** The credentials [Casa] and [clave 123] come back as saved. *)
Lemma wifi_conf_roundtrip_example :
  fst (NodoUsuario.saveWiFiConf true (str "Casa") (str "clave 123") None) = true
  /\ NodoUsuario.loadWiFiConf
       (snd (NodoUsuario.saveWiFiConf true (str "Casa") (str "clave 123") None))
       true [] []
     = (true, str "Casa", str "clave 123").
Proof.
  apply (wifi_conf_roundtrip (str "Casa") (str "clave 123") None [] []);
    try reflexivity; try discriminate;
    simpl; intuition discriminate.
Defined.

(** X17. Whatever the configuration file holds, when [loadWiFiConf]
    returns [true] the file exists and was opened, the SSID is not empty,
    and neither string has white space at either end or a line feed
    inside; when the file does not exist or cannot be opened it returns
    [false] and leaves both strings alone. *)
Theorem loadWiFiConf_result (cfg : option text) (open_ok : bool) (s0 p0 : text) :
  let r := NodoUsuario.loadWiFiConf cfg open_ok s0 p0 in
  let ssid := snd (fst r) in
  let pwd := snd r in
  (fst (fst r) = true ->
   (exists content, cfg = Some content) /\ open_ok = true
   /\ ssid <> [] /\ String_trim ssid = ssid /\ String_trim pwd = pwd
   /\ ~ In "010"%char ssid /\ ~ In "010"%char pwd)
  /\ (cfg = None \/ open_ok = false ->
      fst (fst r) = false /\ ssid = s0 /\ pwd = p0).
Proof.
  cbv zeta. unfold NodoUsuario.loadWiFiConf.
  destruct cfg as [content|].
  2:{ cbn. split; [discriminate|]. intros _. repeat split. }
  destruct open_ok; cbn [negb].
  2:{ cbn. split; [discriminate|]. intros _. repeat split. }
  pose proof (readStringUntil_no_terminator "010"%char content) as N1.
  destruct (Stream_readStringUntil "010"%char content) as [line1 rest].
  pose proof (readStringUntil_no_terminator "010"%char rest) as N2.
  destruct (Stream_readStringUntil "010"%char rest) as [line2 rest2].
  cbn [fst] in N1, N2.
  split.
  - destruct (length (String_trim line1) =? 0)%nat eqn:E; cbn [fst snd];
      [discriminate|]. intros _.
    split; [exists content; reflexivity|]. split; [reflexivity|].
    split.
    { intros H. rewrite H in E. discriminate E. }
    split; [apply String_trim_idem|]. split; [apply String_trim_idem|].
    split; intros H; apply String_trim_In in H; auto.
  - intros [H|H]; discriminate H.
Qed.

(** X18. What was typed is what the node will use: when
    [handleFormSubmit] receives an SSID that is not blank and a password,
    neither with a line feed inside once trimmed, and the file opens, it
    answers 303, and [loadWiFiConf] on the file it leaves returns [true]
    with the SSID and the password as typed, less the white space at
    their ends. *)
Theorem handleFormSubmit_then_load
    (ssid pwd : text) (millis : Z) (s : NodoUsuario.UserState) (s0 p0 : text) :
  String_trim ssid <> [] ->
  ~ In "010"%char (String_trim ssid) -> ~ In "010"%char (String_trim pwd) ->
  let r := NodoUsuario.handleFormSubmit (Some ssid) (Some pwd) true millis s in
  responses (snd r) = [(303, str "text/plain", str "Redirigiendo...")]
  /\ NodoUsuario.loadWiFiConf (NodoUsuario.config (fst r)) true s0 p0
     = (true, String_trim ssid, String_trim pwd).
Proof.
  intros Hne Hns Hnp. cbv zeta. unfold NodoUsuario.handleFormSubmit.
  destruct (length (String_trim ssid) =? 0)%nat eqn:E.
  { apply Nat.eqb_eq in E. apply length_zero_iff_nil in E. contradiction. }
  cbn [NodoUsuario.saveWiFiConf negb fst snd NodoUsuario.config].
  split; [reflexivity|].
  apply (load_saved (String_trim ssid) (String_trim pwd) s0 p0);
    try assumption; apply trimmed_trim.
Qed.

(** The SSID typed with blanks around it is stored and loaded without. *)
Lemma handleFormSubmit_then_load_example :
  responses
    (snd (NodoUsuario.handleFormSubmit (Some (str "  Casa ")) (Some (str "clave 123"))
            true 1000 (NodoUsuario.UserState_init None)))
  = [(303, str "text/plain", str "Redirigiendo...")]
  /\ NodoUsuario.loadWiFiConf
       (NodoUsuario.config
          (fst (NodoUsuario.handleFormSubmit (Some (str "  Casa "))
                  (Some (str "clave 123")) true 1000
                  (NodoUsuario.UserState_init None))))
       true [] []
     = (true, str "Casa", str "clave 123").
Proof.
  apply (handleFormSubmit_then_load (str "  Casa ") (str "clave 123") 1000
           (NodoUsuario.UserState_init None) [] []);
    try discriminate; simpl; intuition discriminate.
Defined.

(** ** The display *)

(** X19. [showLCDMessage] clears the display and prints the first 32
    characters of the message, at most 16 to a row: a message of up to 16
    characters on the first row alone, a longer one on two rows, what is
    past the 32nd character not shown. *)
Theorem showLCDMessage_rows (message : text) :
  let calls := showLCDMessage message in
  hd LcdClear calls = LcdClear
  /\ concat (lcd_printed calls) = firstn 32 message
  /\ Forall (fun row => (length row <= 16)%nat) (lcd_printed calls)
  /\ ((length message <= 16)%nat ->
      calls = [LcdClear; LcdSetCursor 0 0; LcdPrint message])
  /\ ((16 < length message)%nat ->
      calls = [LcdClear; LcdSetCursor 0 0; LcdPrint (firstn 16 message);
               LcdSetCursor 0 1; LcdPrint (firstn 16 (skipn 16 message))]).
Proof.
  cbv zeta. unfold showLCDMessage, LCD_COLUMNS.
  change (String_substring message 0 16) with (firstn 16 message).
  change (String_substring message 16 (16 * 2))
    with (firstn 16 (skipn 16 message)).
  destruct (Nat.ltb_spec 16 (length message)) as [L|L].
  - split; [reflexivity|]. split; [|split; [|split]].
    + cbn [app lcd_printed flat_map concat]. rewrite app_nil_r.
      rewrite <- (firstn_skipn 16 (firstn 32 message)).
      rewrite firstn_firstn. change (Nat.min 16 32) with 16%nat.
      f_equal. rewrite skipn_firstn_comm. reflexivity.
    + cbn [app lcd_printed flat_map].
      constructor; [apply firstn_le_length|].
      constructor; [apply firstn_le_length|]. constructor.
    + intros H. lia.
    + intros _. reflexivity.
  - assert (E : firstn 16 message = message) by (apply firstn_all2; lia).
    rewrite E. split; [reflexivity|]. split; [|split; [|split]].
    + cbn [app lcd_printed flat_map concat]. rewrite app_nil_r.
      symmetry. apply firstn_all2. lia.
    + cbn [app lcd_printed flat_map]. constructor; [exact L|constructor].
    + intros _. reflexivity.
    + intros H. lia.
Qed.

(** ** The portal *)


(** ** The position page *)

Lemma last_app_cons {A} (a : list A) (x d : A) : last (a ++ [x]) d = x.
Proof. apply last_last. Qed.

Section PortalFacts.

Variable String_of_double : float -> Z -> text.

Lemma rx_run_malformed (evs : list RxEvent) (st : RxState) :
  Forall (fun e => match e with RxTick r => malformed r | RxIsr => True end) evs ->
  s_lastGps (rx_run evs st) = s_lastGps st.
Proof.
  unfold rx_run. revert st. induction evs as [|e evs IH]; intros st H.
  - reflexivity.
  - cbn [fold_left]. rewrite IH by (apply Forall_inv_tail in H; exact H).
    apply Forall_inv in H. destruct e as [|r]; cbn [rx_step]; [reflexivity|].
    destruct (rxTick_sample_cases r st) as [E|(H1 & H2 & H3 & _)];
      [exact E|].
    destruct H as [H|[H|H]]; contradiction.
Qed.

(** X21. [GET /coords.txt] always answers 200, [text/plain]; its body
    is the fallback position exactly when [LORA_lastValidGPS] has
    nothing to return.  From start-up it stays the fallback as long as
    every frame is malformed, and once it is not the fallback no sequence
    of interrupts and ticks brings the fallback back. *)
Theorem coords_txt_default (evs : list RxEvent) :
  let fallback := str "lat=40.4168&lon=-3.7038&z=15" in
  let page st := NodoUsuario.coords_txt String_of_double st in
  (forall st, fst (page st) = (200, str "text/plain"))
  /\ (forall st, snd (page st) = fallback <-> LORA_lastValidGPS st = None)
  /\ (Forall (fun e => match e with RxTick r => malformed r | RxIsr => True end)
             evs ->
      snd (page (rx_run evs RxState_init)) = fallback)
  /\ (forall st, snd (page st) <> fallback ->
      snd (page (rx_run evs st)) <> fallback).
Proof.
  cbv zeta.
  assert (A : forall st,
             snd (NodoUsuario.coords_txt String_of_double st)
             = str "lat=40.4168&lon=-3.7038&z=15"
             <-> LORA_lastValidGPS st = None).
  { intros st. unfold NodoUsuario.coords_txt, LORA_lastValidGPS.
    destruct (valid (s_lastGps st)) eqn:Ev; cbn [negb]; [|split; reflexivity].
    rewrite Ev. cbn [snd]. split; [|discriminate].
    intros H.
    apply (f_equal (fun l => last l "000"%char)) in H.
    rewrite !app_assoc in H.
    change (str "&z=18") with (str "&z=1" ++ ["8"%char]) in H.
    rewrite app_assoc, last_last in H. vm_compute in H. discriminate H. }
  assert (B : forall st,
             LORA_lastValidGPS st = None <-> valid (s_lastGps st) = false).
  { intros st. unfold LORA_lastValidGPS.
    destruct (valid (s_lastGps st)); cbn [negb]; split; congruence. }
  split; [|split; [exact A|split]].
  - intros st. unfold NodoUsuario.coords_txt.
    destruct (LORA_lastValidGPS st) as [[[gi ?] ?]|]; [|reflexivity].
    destruct (valid gi); reflexivity.
  - intros H. apply A, B. rewrite rx_run_malformed by exact H. reflexivity.
  - intros st H Hf. apply H. apply A, B. apply A, B in Hf.
    destruct (valid (s_lastGps st)) eqn:Ev; [|reflexivity].
    rewrite (rx_run_valid evs st Ev) in Hf. discriminate Hf.
Qed.

End PortalFacts.

(** ** The deferred reset *)

(** X22. In [loop] the watchdog reset is triggered exactly when a reset
    is pending and more than 5000 ms have elapsed since
    [pendingResetTime], for any elapsed time below [2^32] ms, also when
    the 32-bit counter of [millis()] has wrapped around in between. *)
Theorem loop_reboot_after_5s
    (r : RxReply) (s : NodoUsuario.UserState) (elapsed : Z) :
  0 <= NodoUsuario.pendingResetTime s < 2 ^ 32 -> 0 <= elapsed < 2 ^ 32 ->
  let millis := Int.to_uint32 (NodoUsuario.pendingResetTime s + elapsed) in
  In NodoUsuario.WatchdogReboot (snd (NodoUsuario.loop r millis s))
  <-> NodoUsuario.pendingReset s = true /\ 5000 < elapsed.
Proof.
  intros Ht He millis. unfold NodoUsuario.loop.
  destruct (LORA_rxTick r (NodoUsuario.rx s)) as [rx1 ev].
  set (lg := match LORA_lastValidGPS rx1 with
             | Some (gi, rssi, snr) =>
                 if negb (hhmmss gi =? NodoUsuario.lastPrint s)
                 then (hhmmss gi, [NodoUsuario.SerialRx gi rssi snr])
                 else (NodoUsuario.lastPrint s, [])
             | None => (NodoUsuario.lastPrint s, [])
             end).
  assert (Hlog : ~ In NodoUsuario.WatchdogReboot (snd lg)).
  { unfold lg. destruct (LORA_lastValidGPS rx1) as [[[gi a] b]|]; [|intros []].
    destruct (negb _); cbn; [intros [H|[]]; discriminate H|intros []]. }
  destruct lg as [lp log]. cbn [snd] in *.
  assert (Hradio : ~ In NodoUsuario.WatchdogReboot (map NodoUsuario.Radio ev)).
  { intros H. apply in_map_iff in H. destruct H as (c & H & _). discriminate H. }
  assert (Hd : Int.to_uint32 (millis - NodoUsuario.pendingResetTime s) = elapsed).
  { unfold millis, Int.to_uint32. rewrite Zminus_mod_idemp_l.
    replace (NodoUsuario.pendingResetTime s + elapsed
             - NodoUsuario.pendingResetTime s) with elapsed by lia.
    apply Z.mod_small. exact He. }
  rewrite Hd. rewrite !in_app_iff.
  destruct (NodoUsuario.pendingReset s); cbn [andb].
  - destruct (Z.ltb_spec 5000 elapsed) as [L|L].
    + split; [intros _; split; [reflexivity|exact L]|].
      intros _. right. right. left. reflexivity.
    + split; [|intros [_ H]; lia].
      intros [H|[H|H]]; [elim (Hradio H)|elim (Hlog H)|destruct H].
  - split; [|intros [H _]; discriminate H].
    intros [H|[H|H]]; [elim (Hradio H)|elim (Hlog H)|destruct H].
Qed.

(** Saved 296 ms before the counter wraps: 6000 ms later the counter
    reads 5704 and the reset is triggered. *)
Lemma loop_reboot_after_5s_wrap :
  In NodoUsuario.WatchdogReboot
     (snd (NodoUsuario.loop rx_short_frame 5704 user_saved)).
Proof.
  apply (proj2 (loop_reboot_after_5s rx_short_frame user_saved 6000
                  ltac:(simpl; lia) ltac:(lia))).
  split; [reflexivity|lia].
Defined.





(** ** The radio link *)

(** X24. The two nodes open the same link: whatever [radio.begin]
    returns, the first call on the transceiver of [setup] on the pet node,
    and of [setup] on the user node once the file system is mounted, is
    [radio.begin] with 868 MHz, 125 kHz, spreading factor 9, coding rate
    7, sync word 0x12, 14 dBm and a preamble of 8; the user node then
    registers its interrupt handler and starts reception also when
    [radio.begin] has failed.  When the file system does not mount, the
    user node makes no call on the transceiver at all. *)
Theorem setup_same_link (state st reply : Z) :
  hd_error (snd (setup state))
  = Some (RadioBegin 868 125 9 7 18 14 8 0 false)
  /\ hd_error (NodoUsuario.setup true st reply)
     = Some (inl (RadioBegin 868 125 9 7 18 14 8 0 false))
  /\ (exists pins,
        NodoUsuario.setup true st reply
        = inl (RadioBegin 868 125 9 7 18 14 8 0 false)
          :: pins ++ [inl SetPacketReceivedAction; inr StartReceive])
  /\ NodoUsuario.setup false st reply = [].
Proof.
  unfold setup, NodoUsuario.setup, LORA_begin, NodoUsuario.LORA_begin,
    NodoUsuario.LORA_startRx.
  destruct (state =? RADIOLIB_ERR_NONE), (st =? RADIOLIB_ERR_NONE);
    cbn [negb fst snd map app hd_error];
    (split; [reflexivity|]); (split; [reflexivity|]);
    (split; [|reflexivity]).
  - exists [inl (SetRfSwitchPins 26 27)]. reflexivity.
  - exists []. reflexivity.
  - exists [inl (SetRfSwitchPins 26 27)]. reflexivity.
  - exists []. reflexivity.
Qed.
